(** * Room coordination layer of the whiteboard / video backend

    A shallow embedding of the socket.io server (the complete variant with
    room settings, capacity check, recording gate and hourly sweep) and the
    properties of its room registry: membership, ownership delegation,
    signalling relay and diagram persistence.

    Modelling conventions
    - [rooms] (a JS [Map] from room id to room object) is a [gmap]: no
      property below depends on the iteration order of the registry.
    - [room.users] and [room.videoUsers] are JS [Map]s whose iteration order
      the code relies on ([Array.from(room.users.keys())[0]]); they are
      insertion-ordered association lists, see [JsMap].
    - Objects held in the registry are mutated in place by the handlers; here
      a handler looks the room up, rebuilds it and stores it back under the
      same key.
    - [new Date()] and [Date.now()] are the [now] argument of an event.
    - Payload fields that the code tests for truthiness are strings; the
      falsy string is the empty one.
    - The transport (socket.io 4) is modelled by the set of transport rooms
      of every live socket and by [recipients], which resolves the three ways
      of emitting used by the code.  Room names and socket ids share one
      name space: [socket.to(x)] addresses the transport room [x], and it
      excepts the transport room named by the id of the sender.
    - The bodies of the two join handlers are wrapped in [try]/[catch]; on
      the types used here nothing in them throws, and the [catch] branches
      are left out. *)

From stdpp Require Import gmap strings list fin_maps.

Local Open Scope string_scope.

(** ** JavaScript values *)

(** Truthiness of a string: every string but the empty one. *)
Definition truthy (s : string) : bool := bool_decide (s ≠ "").

(** [a || b] on an optional array: an array (even an empty one) is truthy,
    [undefined] is not. *)
Definition or_else {A : Type} (a : option A) (b : A) : A :=
  match a with
  | Some x => x
  | None => b
  end.

(** ** Insertion-ordered maps with string keys (JS [Map]) *)

Module JsMap.
Section ops.
Context {V : Type}.

Fixpoint get (k : string) (m : list (string * V)) : option V :=
  match m with
  | [] => None
  | (k', v) :: m' => if decide (k = k') then Some v else get k m'
  end.

Definition has (k : string) (m : list (string * V)) : bool :=
  bool_decide (is_Some (get k m)).

(** [m.set(k, v)]: an existing key keeps its position, a new key goes last. *)
Fixpoint set (k : string) (v : V) (m : list (string * V)) : list (string * V) :=
  match m with
  | [] => [(k, v)]
  | (k', v') :: m' =>
      if decide (k = k') then (k, v) :: m' else (k', v') :: set k v m'
  end.

Fixpoint delete (k : string) (m : list (string * V)) : list (string * V) :=
  match m with
  | [] => []
  | (k', v') :: m' =>
      if decide (k = k') then delete k m' else (k', v') :: delete k m'
  end.

Definition size (m : list (string * V)) : nat := length m.

Definition keys (m : list (string * V)) : list string := m.*1.

Definition values (m : list (string * V)) : list V := m.*2.

(** [m.forEach((v, k) => ...)] with a callback that assigns to fields of
    [v]: [f v k] is the value object after the callback. *)
Definition forEach (f : V → string → V) (m : list (string * V))
  : list (string * V) :=
  (λ kv, (kv.1, f kv.2 kv.1)) <$> m.
End ops.
End JsMap.

Arguments JsMap.size {V} m : simpl never.
Arguments JsMap.keys {V} m : simpl never.
Arguments JsMap.values {V} m : simpl never.
Arguments JsMap.forEach {V} f m : simpl never.

(** ** Data model *)

Module User.
Record t := mk {
  id : string;
  username : string;
  joinedAt : Z;
  isOwner : bool;
  videoEnabled : bool;
  audioEnabled : bool;
  lastSeen : Z
}.

Definition set_isOwner (b : bool) (u : t) : t :=
  mk (id u) (username u) (joinedAt u) b (videoEnabled u) (audioEnabled u)
     (lastSeen u).

Definition set_videoEnabled (b : bool) (u : t) : t :=
  mk (id u) (username u) (joinedAt u) (isOwner u) b (audioEnabled u)
     (lastSeen u).

Definition set_audioEnabled (b : bool) (u : t) : t :=
  mk (id u) (username u) (joinedAt u) (isOwner u) (videoEnabled u) b
     (lastSeen u).
End User.

Module Settings.
Record t := mk {
  maxUsers : Z;
  allowScreenShare : bool;
  allowRecording : bool
}.
End Settings.

Module Room.
Record t := mk {
  nodes : list string;
  edges : list string;
  users : list (string * User.t);
  owner : string;
  videoUsers : list (string * User.t);
  created : Z;
  settings : Settings.t
}.

Definition set_users (us : list (string * User.t)) (r : t) : t :=
  mk (nodes r) (edges r) us (owner r) (videoUsers r) (created r) (settings r).

Definition set_videoUsers (vs : list (string * User.t)) (r : t) : t :=
  mk (nodes r) (edges r) (users r) (owner r) vs (created r) (settings r).

Definition set_owner (o : string) (r : t) : t :=
  mk (nodes r) (edges r) (users r) o (videoUsers r) (created r) (settings r).

Definition set_nodes (ns : list string) (r : t) : t :=
  mk ns (edges r) (users r) (owner r) (videoUsers r) (created r) (settings r).

Definition set_edges (es : list string) (r : t) : t :=
  mk (nodes r) es (users r) (owner r) (videoUsers r) (created r) (settings r).
End Room.

(** A connection. [roomId] and [username] are the two properties the
    handlers attach to the socket object ([undefined] until a join);
    [rooms] is the set of transport rooms of the socket, which holds the
    socket's own id from the start. *)
Module Socket.
Record t := mk {
  id : string;
  roomId : option string;
  username : option string;
  rooms : gset string
}.

Definition join (r : string) (s : t) : t :=
  mk (id s) (roomId s) (username s) ({[ r ]} ∪ rooms s).

Definition leave (r : string) (s : t) : t :=
  mk (id s) (roomId s) (username s) (rooms s ∖ {[ r ]}).

Definition set_roomId (r : string) (s : t) : t :=
  mk (id s) (Some r) (username s) (rooms s).

Definition set_username (u : string) (s : t) : t :=
  mk (id s) (roomId s) (Some u) (rooms s).

Definition fresh (sid : string) : t := mk sid None None {[ sid ]}.
End Socket.

(** The process environment: [parseInt(process.env.MAX_USERS_PER_ROOM)],
    [None] when the variable is unset or does not parse ([NaN]). *)
Record Env := { MAX_USERS_PER_ROOM : option Z }.

(** [parseInt(process.env.MAX_USERS_PER_ROOM) || 50]: [NaN] and [0] are
    falsy. *)
Definition maxUsers_of (env : Env) : Z :=
  match MAX_USERS_PER_ROOM env with
  | Some n => if bool_decide (n = 0%Z) then 50%Z else n
  | None => 50%Z
  end.

(** ** Outbound events *)

Inductive Dest :=
  | ToSender (sid : string)            (* socket.emit(...) *)
  | ToOthers (room sender : string)    (* socket.to(room).emit(...) *)
  | ToRoom (room : string).            (* io.to(room).emit(...) *)

Inductive OutMsg :=
  | error (message : string) (details : option string)
  | room_state (nodes edges : list string) (users : list User.t)
      (isOwner : bool) (roomSettings : Settings.t)
  | user_joined (username socketId : string) (users : list User.t)
  | users_updated (users : list User.t)
  | video_room_state (users : list User.t) (isOwner : bool)
  | video_user_joined (id username : string)
      (isOwner videoEnabled audioEnabled : bool) (users : list User.t)
  | offer (payload sender : string) (username : option string)
  | answer (payload sender : string) (username : option string)
  | ice_candidate (payload sender : string) (username : option string)
  | user_media_update (userId : string) (video audio : bool)
      (username : string)
  | screen_share_started (userId : string) (username : option string)
  | screen_share_stopped (userId : string)
  | new_message (id : Z) (user : option string) (userId text : string)
      (timestamp : Z)
  | recording_started (startedBy : option string)
  | recording_stopped
  | update_diagram (nodes edges : option (list string))
  | draw (data : string)
  | clear
  | ownership_transferred (newOwnerId : string) (users : list User.t)
  | user_left (socketId : string) (username : option string)
      (users : list User.t)
  | video_user_left (userId : string) (users : list User.t).

Record Emit := { dest : Dest; msg : OutMsg }.

(** What a handler leaves behind: the socket object, the registry and the
    events it emitted, in order. *)
Definition Outcome : Type := Socket.t * gmap string Room.t * list Emit.

(** ** Handlers of a connection *)

(** The test [if (socket.roomId)]: the remembered room id when truthy. *)
Definition joined (socket : Socket.t) : option string :=
  match Socket.roomId socket with
  | Some r => if truthy r then Some r else None
  | None => None
  end.

(** The test [socket.roomId && rooms.has(socket.roomId)] followed by
    [rooms.get(socket.roomId)]. *)
Definition current_room (socket : Socket.t) (rooms : gmap string Room.t)
  : option (string * Room.t) :=
  match joined socket with
  | Some r =>
      match rooms !! r with
      | Some room => Some (r, room)
      | None => None
      end
  | None => None
  end.

(** The object literal stored for an unknown room id, by [join-room] and by
    [join-video-room] alike. *)
Definition new_room (env : Env) (now : Z) (sid : string) : Room.t :=
  Room.mk [] [] [] sid [] now (Settings.mk (maxUsers_of env) true true).

(** [rooms.has(roomId)] / [rooms.set(roomId, {...})] / [rooms.get(roomId)]:
    the room of that id, created first when unknown. *)
Definition get_or_create (env : Env) (now : Z) (sid roomId : string)
    (rooms : gmap string Room.t) : Room.t * gmap string Room.t :=
  match rooms !! roomId with
  | Some room => (room, rooms)
  | None => (new_room env now sid, <[roomId := new_room env now sid]> rooms)
  end.

(** The room a join works on: the room of the registry, or the one just
    created for the requester. *)
Definition joined_room (env : Env) (now : Z) (sid roomId : string)
    (rooms : gmap string Room.t) : Room.t :=
  (get_or_create env now sid roomId rooms).1.

Definition room_is_full (n : nat) (room : Room.t) : bool :=
  bool_decide (Settings.maxUsers (Room.settings room) ≤ Z.of_nat n)%Z.

(** The roster entry written by both join handlers. *)
Definition joining_user (now : Z) (sid username : string) (isOwner : bool)
    (room : Room.t) : User.t :=
  User.mk sid username now (isOwner || bool_decide (Room.owner room = sid))
          true true now.

(** [socket.on("join-room", ({ roomId, username, isOwner = false }) => ...)] *)
Definition join_room (env : Env) (now : Z) (roomId username : string)
    (isOwner : bool) (socket : Socket.t) (rooms : gmap string Room.t)
  : Outcome :=
  let sid := Socket.id socket in
  if negb (truthy roomId) || negb (truthy username) then
    (socket, rooms,
     [Build_Emit (ToSender sid)
        (error "Room ID and username are required" None)])
  else
    let socket :=
      match joined socket with
      | Some previous => Socket.leave previous socket
      | None => socket
      end in
    let socket :=
      Socket.set_username username
        (Socket.set_roomId roomId (Socket.join roomId socket)) in
    let '(room, rooms) := get_or_create env now sid roomId rooms in
    if room_is_full (JsMap.size (Room.users room)) room then
      (socket, rooms, [Build_Emit (ToSender sid) (error "Room is full" None)])
    else
      let room :=
        Room.set_users
          (JsMap.set sid (joining_user now sid username isOwner room)
             (Room.users room)) room in
      let users := JsMap.values (Room.users room) in
      (socket, <[roomId := room]> rooms,
       [Build_Emit (ToSender sid)
          (room_state (Room.nodes room) (Room.edges room) users
             (bool_decide (Room.owner room = sid)) (Room.settings room));
        Build_Emit (ToOthers roomId sid) (user_joined username sid users);
        Build_Emit (ToRoom roomId) (users_updated users)]).

(** [socket.on("join-video-room", ({ roomId, username, isOwner = false }) => ...)] *)
Definition join_video_room (env : Env) (now : Z) (roomId username : string)
    (isOwner : bool) (socket : Socket.t) (rooms : gmap string Room.t)
  : Outcome :=
  let sid := Socket.id socket in
  let socket :=
    Socket.set_username username
      (Socket.set_roomId roomId (Socket.join roomId socket)) in
  let '(room, rooms) := get_or_create env now sid roomId rooms in
  if room_is_full (JsMap.size (Room.videoUsers room)) room then
    (socket, rooms,
     [Build_Emit (ToSender sid) (error "Video room is full" None)])
  else
    let room :=
      Room.set_videoUsers
        (JsMap.set sid (joining_user now sid username isOwner room)
           (Room.videoUsers room)) room in
    let users := JsMap.values (Room.videoUsers room) in
    (socket, <[roomId := room]> rooms,
     [Build_Emit (ToSender sid)
        (video_room_state users (bool_decide (Room.owner room = sid)));
      Build_Emit (ToOthers roomId sid)
        (video_user_joined sid username (bool_decide (Room.owner room = sid))
           true true users)]).

(** WebRTC signalling: [socket.to(data.target).emit(kind, {...})]. *)
Definition on_offer (target payload : string) (socket : Socket.t)
    (rooms : gmap string Room.t) : Outcome :=
  (socket, rooms,
   [Build_Emit (ToOthers target (Socket.id socket))
      (offer payload (Socket.id socket) (Socket.username socket))]).

Definition on_answer (target payload : string) (socket : Socket.t)
    (rooms : gmap string Room.t) : Outcome :=
  (socket, rooms,
   [Build_Emit (ToOthers target (Socket.id socket))
      (answer payload (Socket.id socket) (Socket.username socket))]).

Definition on_ice_candidate (target payload : string) (socket : Socket.t)
    (rooms : gmap string Room.t) : Outcome :=
  (socket, rooms,
   [Build_Emit (ToOthers target (Socket.id socket))
      (ice_candidate payload (Socket.id socket) (Socket.username socket))]).

(** [socket.on("media-toggle", (data) => ...)]; a field of [data] that is
    [undefined] is [None]. *)
Definition media_toggle (video audio : option bool) (socket : Socket.t)
    (rooms : gmap string Room.t) : Outcome :=
  let sid := Socket.id socket in
  match current_room socket rooms with
  | Some (rid, room) =>
      match JsMap.get sid (Room.videoUsers room) with
      | Some user =>
          let user :=
            match video with
            | Some b => User.set_videoEnabled b user
            | None => user
            end in
          let user :=
            match audio with
            | Some b => User.set_audioEnabled b user
            | None => user
            end in
          let room :=
            Room.set_videoUsers (JsMap.set sid user (Room.videoUsers room))
              room in
          (socket, <[rid := room]> rooms,
           [Build_Emit (ToOthers rid sid)
              (user_media_update sid (User.videoEnabled user)
                 (User.audioEnabled user) (User.username user))])
      | None => (socket, rooms, [])
      end
  | None => (socket, rooms, [])
  end.

Definition start_screen_share (socket : Socket.t)
    (rooms : gmap string Room.t) : Outcome :=
  match joined socket with
  | Some rid =>
      (socket, rooms,
       [Build_Emit (ToOthers rid (Socket.id socket))
          (screen_share_started (Socket.id socket) (Socket.username socket))])
  | None => (socket, rooms, [])
  end.

Definition stop_screen_share (socket : Socket.t)
    (rooms : gmap string Room.t) : Outcome :=
  match joined socket with
  | Some rid =>
      (socket, rooms,
       [Build_Emit (ToOthers rid (Socket.id socket))
          (screen_share_stopped (Socket.id socket))])
  | None => (socket, rooms, [])
  end.

Definition send_message (now : Z) (text : string) (socket : Socket.t)
    (rooms : gmap string Room.t) : Outcome :=
  match joined socket with
  | Some rid =>
      (socket, rooms,
       [Build_Emit (ToRoom rid)
          (new_message now (Socket.username socket) (Socket.id socket) text
             now)])
  | None => (socket, rooms, [])
  end.

(** Recording controls (owner only). *)
Definition start_recording (socket : Socket.t) (rooms : gmap string Room.t)
  : Outcome :=
  match current_room socket rooms with
  | Some (rid, room) =>
      if bool_decide (Room.owner room = Socket.id socket)
         && Settings.allowRecording (Room.settings room) then
        (socket, rooms,
         [Build_Emit (ToRoom rid) (recording_started (Socket.username socket))])
      else (socket, rooms, [])
  | None => (socket, rooms, [])
  end.

Definition stop_recording (socket : Socket.t) (rooms : gmap string Room.t)
  : Outcome :=
  match current_room socket rooms with
  | Some (rid, room) =>
      if bool_decide (Room.owner room = Socket.id socket) then
        (socket, rooms, [Build_Emit (ToRoom rid) recording_stopped])
      else (socket, rooms, [])
  | None => (socket, rooms, [])
  end.

(** [socket.on("update-diagram", (data) => ...)]:
    [room.nodes = data.nodes || room.nodes], the same for [edges], then the
    payload is forwarded as received. *)
Definition on_update_diagram (nodes edges : option (list string))
    (socket : Socket.t) (rooms : gmap string Room.t) : Outcome :=
  match current_room socket rooms with
  | Some (rid, room) =>
      let room := Room.set_nodes (or_else nodes (Room.nodes room)) room in
      let room := Room.set_edges (or_else edges (Room.edges room)) room in
      (socket, <[rid := room]> rooms,
       [Build_Emit (ToOthers rid (Socket.id socket))
          (update_diagram nodes edges)])
  | None => (socket, rooms, [])
  end.

Definition on_draw (data : string) (socket : Socket.t)
    (rooms : gmap string Room.t) : Outcome :=
  match joined socket with
  | Some rid =>
      (socket, rooms, [Build_Emit (ToOthers rid (Socket.id socket)) (draw data)])
  | None => (socket, rooms, [])
  end.

Definition on_clear (socket : Socket.t) (rooms : gmap string Room.t)
  : Outcome :=
  match joined socket with
  | Some rid =>
      (socket, rooms, [Build_Emit (ToOthers rid (Socket.id socket)) clear])
  | None => (socket, rooms, [])
  end.

(** The two [forEach] loops [user.isOwner = userId === newOwner] over
    [room.users] and [room.videoUsers], after [room.owner = newOwner]. *)
Definition mark_owner (newOwner : string)
    (m : list (string * User.t)) : list (string * User.t) :=
  JsMap.forEach
    (λ user userId, User.set_isOwner (bool_decide (userId = newOwner)) user) m.

Definition assign_owner (newOwner : string) (room : Room.t) : Room.t :=
  let room := Room.set_owner newOwner room in
  let room := Room.set_users (mark_owner newOwner (Room.users room)) room in
  Room.set_videoUsers (mark_owner newOwner (Room.videoUsers room)) room.

Arguments mark_owner newOwner m : simpl never.

(** [socket.on("transfer-ownership", (newOwnerId) => ...)] *)
Definition transfer_ownership (newOwnerId : string) (socket : Socket.t)
    (rooms : gmap string Room.t) : Outcome :=
  match current_room socket rooms with
  | Some (rid, room) =>
      if bool_decide (Room.owner room = Socket.id socket) then
        let room := assign_owner newOwnerId room in
        (socket, <[rid := room]> rooms,
         [Build_Emit (ToRoom rid)
            (ownership_transferred newOwnerId
               (JsMap.values (Room.users room)))])
      else (socket, rooms, [])
  | None => (socket, rooms, [])
  end.

(** [socket.on("leave-video-room", () => ...)] *)
Definition leave_video_room (socket : Socket.t) (rooms : gmap string Room.t)
  : Outcome :=
  let sid := Socket.id socket in
  match current_room socket rooms with
  | Some (rid, room) =>
      let room :=
        Room.set_videoUsers (JsMap.delete sid (Room.videoUsers room)) room in
      (socket, <[rid := room]> rooms,
       [Build_Emit (ToOthers rid sid)
          (video_user_left sid (JsMap.values (Room.videoUsers room)))])
  | None => (socket, rooms, [])
  end.

(** [socket.on("leave-room", () => ...)].  [hd ""] is [[0]] on the array of
    keys, read only when the roster is non-empty. *)
Definition leave_room (socket : Socket.t) (rooms : gmap string Room.t)
  : Outcome :=
  let sid := Socket.id socket in
  match current_room socket rooms with
  | Some (rid, room) =>
      let room := Room.set_users (JsMap.delete sid (Room.users room)) room in
      let room :=
        Room.set_videoUsers (JsMap.delete sid (Room.videoUsers room)) room in
      let '(room, transferred) :=
        if bool_decide (Room.owner room = sid)
           && bool_decide (0 < JsMap.size (Room.users room)) then
          let newOwner := hd "" (JsMap.keys (Room.users room)) in
          let room := assign_owner newOwner room in
          (room,
           [Build_Emit (ToRoom rid)
              (ownership_transferred newOwner
                 (JsMap.values (Room.users room)))])
        else (room, []) in
      if bool_decide (JsMap.size (Room.users room) = 0) then
        (socket, delete rid rooms, transferred)
      else
        (socket, <[rid := room]> rooms,
         (transferred ++
          [Build_Emit (ToOthers rid sid)
             (user_left sid (Socket.username socket)
                (JsMap.values (Room.users room)));
           Build_Emit (ToOthers rid sid)
             (video_user_left sid (JsMap.values (Room.videoUsers room)));
           Build_Emit (ToRoom rid)
             (users_updated (JsMap.values (Room.users room)))])%list)
  | None => (socket, rooms, [])
  end.

(** [socket.on("disconnect", (reason) => ...)]: the body of [leave-room]
    written out a second time in the source. *)
Definition on_disconnect (socket : Socket.t) (rooms : gmap string Room.t)
  : Outcome :=
  let sid := Socket.id socket in
  match current_room socket rooms with
  | Some (rid, room) =>
      let room := Room.set_users (JsMap.delete sid (Room.users room)) room in
      let room :=
        Room.set_videoUsers (JsMap.delete sid (Room.videoUsers room)) room in
      let '(room, transferred) :=
        if bool_decide (Room.owner room = sid)
           && bool_decide (0 < JsMap.size (Room.users room)) then
          let newOwner := hd "" (JsMap.keys (Room.users room)) in
          let room := assign_owner newOwner room in
          (room,
           [Build_Emit (ToRoom rid)
              (ownership_transferred newOwner
                 (JsMap.values (Room.users room)))])
        else (room, []) in
      if bool_decide (JsMap.size (Room.users room) = 0) then
        (socket, delete rid rooms, transferred)
      else
        (socket, <[rid := room]> rooms,
         (transferred ++
          [Build_Emit (ToOthers rid sid)
             (user_left sid (Socket.username socket)
                (JsMap.values (Room.users room)));
           Build_Emit (ToOthers rid sid)
             (video_user_left sid (JsMap.values (Room.videoUsers room)));
           Build_Emit (ToRoom rid)
             (users_updated (JsMap.values (Room.users room)))])%list)
  | None => (socket, rooms, [])
  end.

(** ** The server as a transition system *)

(** Inbound events of a connection, with their payloads. *)
Inductive InMsg :=
  | JoinRoom (roomId username : string) (isOwner : bool)
  | JoinVideoRoom (roomId username : string) (isOwner : bool)
  | Offer (target payload : string)
  | Answer (target payload : string)
  | IceCandidate (target payload : string)
  | MediaToggle (video audio : option bool)
  | StartScreenShare
  | StopScreenShare
  | SendMessage (text : string)
  | StartRecording
  | StopRecording
  | UpdateDiagram (nodes edges : option (list string))
  | Draw (data : string)
  | Clear
  | TransferOwnership (newOwnerId : string)
  | LeaveVideoRoom
  | LeaveRoom.

(** [socket.on(name, handler)]: the handler registered for each event. *)
Definition handle (env : Env) (now : Z) (m : InMsg)
  : Socket.t → gmap string Room.t → Outcome :=
  match m with
  | JoinRoom roomId username isOwner => join_room env now roomId username isOwner
  | JoinVideoRoom roomId username isOwner =>
      join_video_room env now roomId username isOwner
  | Offer target payload => on_offer target payload
  | Answer target payload => on_answer target payload
  | IceCandidate target payload => on_ice_candidate target payload
  | MediaToggle video audio => media_toggle video audio
  | StartScreenShare => start_screen_share
  | StopScreenShare => stop_screen_share
  | SendMessage text => send_message now text
  | StartRecording => start_recording
  | StopRecording => stop_recording
  | UpdateDiagram nodes edges => on_update_diagram nodes edges
  | Draw data => on_draw data
  | Clear => on_clear
  | TransferOwnership newOwnerId => transfer_ownership newOwnerId
  | LeaveVideoRoom => leave_video_room
  | LeaveRoom => leave_room
  end.

Module State.
Record t := mk {
  sockets : gmap string Socket.t;     (* the live connections *)
  rooms : gmap string Room.t          (* const rooms = new Map() *)
}.

Definition init : t := mk ∅ ∅.
End State.

Definition MAX_ROOM_AGE : Z := 24 * 60 * 60 * 1000.

(** The body of the hourly [setInterval]: what stays in the registry. *)
Definition swept (now : Z) (room : Room.t) : Prop :=
  (MAX_ROOM_AGE < now - Room.created room)%Z ∧ JsMap.size (Room.users room) = 0.

Definition sweep (now : Z) (rooms : gmap string Room.t) : gmap string Room.t :=
  filter (λ kv, ¬ swept now kv.2) rooms.

Inductive Event :=
  | Connection (sid : string)                     (* io.on("connection") *)
  | Message (sid : string) (now : Z) (m : InMsg)
  | Disconnect (sid : string)                     (* socket.on("disconnect") *)
  | HttpDeleteRoom (roomId : string)              (* DELETE /api/rooms/:roomId *)
  | Sweep (now : Z).

Definition step (env : Env) (st : State.t) (ev : Event) : State.t * list Emit :=
  match ev with
  | Connection sid =>
      match State.sockets st !! sid with
      | Some _ => (st, [])
      | None =>
          (State.mk (<[sid := Socket.fresh sid]> (State.sockets st))
             (State.rooms st), [])
      end
  | Message sid now m =>
      match State.sockets st !! sid with
      | Some socket =>
          let '(socket, rooms, out) := handle env now m socket (State.rooms st) in
          (State.mk (<[sid := socket]> (State.sockets st)) rooms, out)
      | None => (st, [])
      end
  | Disconnect sid =>
      match State.sockets st !! sid with
      | Some socket =>
          let '(_, rooms, out) := on_disconnect socket (State.rooms st) in
          (State.mk (delete sid (State.sockets st)) rooms, out)
      | None => (st, [])
      end
  | HttpDeleteRoom roomId =>
      (State.mk (State.sockets st) (delete roomId (State.rooms st)), [])
  | Sweep now =>
      (State.mk (State.sockets st) (sweep now (State.rooms st)), [])
  end.

(** The state and the emitted events after a sequence of events. *)
Fixpoint run (env : Env) (st : State.t) (evs : list Event)
  : State.t * list Emit :=
  match evs with
  | [] => (st, [])
  | ev :: evs' =>
      let '(st1, out1) := step env st ev in
      let '(st2, out2) := run env st1 evs' in
      (st2, (out1 ++ out2)%list)
  end.

(** ** Delivery by the transport

    [socket.emit] reaches the socket itself; [io.to(room)] reaches every
    live socket in the transport room [room].  [socket.to(room)] is a
    broadcast to the transport room [room] with the except-room
    [socket.id]: it reaches every live socket that is in [room] and is not
    in the transport room named by the id of the sender.  A socket is in the
    room named by its own id from the start (until it leaves it), which is
    how a socket id is used as the target of a private event and how the
    sender is kept out of its own broadcast. *)
Definition recipients (sockets : gmap string Socket.t) (d : Dest)
  : gset string :=
  match d with
  | ToSender sid => dom (filter (λ kv, kv.1 = sid) sockets)
  | ToOthers room sender =>
      dom (filter (λ kv, room ∈ Socket.rooms kv.2 ∧ sender ∉ Socket.rooms kv.2)
                  sockets)
  | ToRoom room => dom (filter (λ kv, room ∈ Socket.rooms kv.2) sockets)
  end.

(** The events of [out] that reach the socket [sid]. *)
Definition received (sockets : gmap string Socket.t) (sid : string)
    (out : list Emit) : list OutMsg :=
  msg <$> filter (λ e, sid ∈ recipients sockets (dest e)) out.

Definition is_error (m : OutMsg) : Prop :=
  match m with
  | error _ _ => True
  | _ => False
  end.

Definition RoomFull : OutMsg := error "Room is full" None.

Definition MissingField : OutMsg :=
  error "Room ID and username are required" None.

(** ** Invariants of the registry *)

(** The owner of a room is a key of its general roster. *)
Definition owner_in_roster (room : Room.t) : Prop :=
  Room.owner room ∈ JsMap.keys (Room.users room).

(** A room of the registry: a non-empty general roster holds the owner, and
    the general roster is not empty (an empty room is not in the registry). *)
Definition room_owned (room : Room.t) : Prop :=
  (0 < JsMap.size (Room.users room) → owner_in_roster room)
  ∧ JsMap.size (Room.users room) ≠ 0.

Definition owner_invariant (rooms : gmap string Room.t) : Prop :=
  map_Forall (λ _, room_owned) rooms.

#[global] Instance room_owned_dec room : Decision (room_owned room).
Proof. unfold room_owned, owner_in_roster. apply _. Defined.

#[global] Instance owner_invariant_dec rooms : Decision (owner_invariant rooms).
Proof. unfold owner_invariant. apply _. Defined.

(** Requests that keep [owner_invariant]: a [join-video-room] must name a
    room of the registry, and a [transfer-ownership] sent by the owner must
    name a key of the general roster. *)
Definition keeps_owner_msg (socket : Socket.t) (rooms : gmap string Room.t)
    (m : InMsg) : Prop :=
  match m with
  | JoinVideoRoom roomId _ _ => is_Some (rooms !! roomId)
  | TransferOwnership newOwnerId =>
      match current_room socket rooms with
      | Some (_, room) =>
          Room.owner room = Socket.id socket →
          newOwnerId ∈ JsMap.keys (Room.users room)
      | None => True
      end
  | _ => True
  end.

Definition keeps_owner (st : State.t) (ev : Event) : Prop :=
  match ev with
  | Message sid _ m =>
      match State.sockets st !! sid with
      | Some socket => keeps_owner_msg socket (State.rooms st) m
      | None => True
      end
  | _ => True
  end.

(** A sequence of events each of which satisfies [keeps_owner] in the state
    it is processed in. *)
Fixpoint keeps_owner_trace (env : Env) (st : State.t) (evs : list Event)
  : Prop :=
  match evs with
  | [] => True
  | ev :: evs' =>
      keeps_owner st ev ∧ keeps_owner_trace env (step env st ev).1 evs'
  end.

(** A roster entry: stored under its own id, with an [isOwner] flag equal to
    the comparison of that id with the owner of the room. *)
Definition entry_flag_ok (owner : string) (kv : string * User.t) : Prop :=
  User.id kv.2 = kv.1
  ∧ User.isOwner kv.2 = bool_decide (User.id kv.2 = owner).

Definition flags_ok (room : Room.t) : Prop :=
  Forall (entry_flag_ok (Room.owner room)) (Room.users room)
  ∧ Forall (entry_flag_ok (Room.owner room)) (Room.videoUsers room).

Definition flags_invariant (rooms : gmap string Room.t) : Prop :=
  map_Forall (λ _, flags_ok) rooms.

#[global] Instance flags_ok_dec room : Decision (flags_ok room).
Proof. unfold flags_ok, entry_flag_ok. apply _. Defined.

#[global] Instance flags_invariant_dec rooms : Decision (flags_invariant rooms).
Proof. unfold flags_invariant. apply _. Defined.

(** Requests that keep [flags_invariant]: a join that carries
    [isOwner = true] for a room of the registry comes from the owner of that
    room, or is turned away (a required field is missing, the roster is at
    capacity) and stores nothing.  A join for a room that is not in the
    registry makes the requester its owner, and a payload without the field
    has the default [false]. *)
Definition keeps_flags_msg (socket : Socket.t) (rooms : gmap string Room.t)
    (m : InMsg) : Prop :=
  match m with
  | JoinRoom roomId username true =>
      match rooms !! roomId with
      | Some room =>
          Room.owner room = Socket.id socket
          ∨ roomId = "" ∨ username = ""
          ∨ room_is_full (JsMap.size (Room.users room)) room = true
      | None => True
      end
  | JoinVideoRoom roomId _ true =>
      match rooms !! roomId with
      | Some room =>
          Room.owner room = Socket.id socket
          ∨ room_is_full (JsMap.size (Room.videoUsers room)) room = true
      | None => True
      end
  | _ => True
  end.

Definition keeps_flags (st : State.t) (ev : Event) : Prop :=
  match ev with
  | Message sid _ m =>
      match State.sockets st !! sid with
      | Some socket => keeps_flags_msg socket (State.rooms st) m
      | None => True
      end
  | _ => True
  end.

(** A sequence of events each of which satisfies [keeps_flags] in the state
    it is processed in. *)
Fixpoint keeps_flags_trace (env : Env) (st : State.t) (evs : list Event)
  : Prop :=
  match evs with
  | [] => True
  | ev :: evs' =>
      keeps_flags st ev ∧ keeps_flags_trace env (step env st ev).1 evs'
  end.

(** ** Signalling relay *)

Inductive SignalKind := KOffer | KAnswer | KIceCandidate.

(** The handler of each kind and the outbound event of the same kind. *)
Definition relay (kind : SignalKind) (target payload : string)
  : Socket.t → gmap string Room.t → Outcome :=
  match kind with
  | KOffer => on_offer target payload
  | KAnswer => on_answer target payload
  | KIceCandidate => on_ice_candidate target payload
  end.

Definition signal (kind : SignalKind) (payload sender : string)
    (username : option string) : OutMsg :=
  match kind with
  | KOffer => offer payload sender username
  | KAnswer => answer payload sender username
  | KIceCandidate => ice_candidate payload sender username
  end.

(** [socket.to(target)] from [sender] reaches nobody: every live socket that
    is in the transport room [target] is also in the transport room named by
    [sender].  This is more than the connection [target] being gone: a live
    socket may have joined a room of that name. *)
Definition unreachable (sockets : gmap string Socket.t)
    (target sender : string) : Prop :=
  map_Forall (λ _ s, sender ∉ Socket.rooms s → target ∉ Socket.rooms s)
             sockets.

(** ** Departure *)

(** The two events by which a connection leaves its room. *)
Inductive Departure := ByLeaveRoom | ByDisconnect.

Definition depart (d : Departure)
  : Socket.t → gmap string Room.t → Outcome :=
  match d with
  | ByLeaveRoom => leave_room
  | ByDisconnect => on_disconnect
  end.

(** The room after [room.users.delete(socket.id)] and
    [room.videoUsers.delete(socket.id)]. *)
Definition without (sid : string) (room : Room.t) : Room.t :=
  Room.set_videoUsers (JsMap.delete sid (Room.videoUsers room))
    (Room.set_users (JsMap.delete sid (Room.users room)) room).

(** The three events that close a departure from a room that stays. *)
Definition departure_notices (rid : string) (socket : Socket.t)
    (room : Room.t) : list Emit :=
  [Build_Emit (ToOthers rid (Socket.id socket))
     (user_left (Socket.id socket) (Socket.username socket)
        (JsMap.values (Room.users room)));
   Build_Emit (ToOthers rid (Socket.id socket))
     (video_user_left (Socket.id socket)
        (JsMap.values (Room.videoUsers room)));
   Build_Emit (ToRoom rid) (users_updated (JsMap.values (Room.users room)))].

(** The roster entries carry the flag of the comparison of their key with
    [owner]. *)
Definition marked (owner : string) (m : list (string * User.t)) : Prop :=
  Forall (λ kv, User.isOwner kv.2 = bool_decide (kv.1 = owner)) m.

(** ** The earlier variant of the server

    The repository also holds an earlier variant of the same server, whose
    rooms have no [settings] and whose entries have no [lastSeen]: its
    [join-room] has neither the required-field check nor the capacity test.
    Its [update-diagram], [transfer-ownership] and [disconnect] handlers read
    as the ones above. *)

Module Legacy.
Record User := mkUser {
  id : string;
  username : string;
  joinedAt : Z;
  isOwner : bool;
  videoEnabled : bool;
  audioEnabled : bool
}.

Record Room := mkRoom {
  nodes : list string;
  edges : list string;
  users : list (string * User);
  owner : string;
  videoUsers : list (string * User);
  created : Z
}.

Inductive OutMsg :=
  | room_state (nodes edges : list string) (users : list User)
      (isOwner : bool)
  | user_joined (username socketId : string) (users : list User)
  | users_updated (users : list User).

(** [socket.on("join-room", ({ roomId, username, isOwner = false }) => ...)] *)
Definition join_room (now : Z) (roomId username : string) (isOwner : bool)
    (socket : Socket.t) (rooms : gmap string Room)
  : Socket.t * gmap string Room * list (Dest * OutMsg) :=
  let sid := Socket.id socket in
  let socket :=
    match joined socket with
    | Some previous => Socket.leave previous socket
    | None => socket
    end in
  let socket :=
    Socket.set_username username
      (Socket.set_roomId roomId (Socket.join roomId socket)) in
  let room :=
    match rooms !! roomId with
    | Some room => room
    | None => mkRoom [] [] [] sid [] now
    end in
  let room :=
    mkRoom (nodes room) (edges room)
      (JsMap.set sid
         (mkUser sid username now
            (isOwner || bool_decide (owner room = sid)) true true)
         (users room))
      (owner room) (videoUsers room) (created room) in
  let roster := JsMap.values (users room) in
  (socket, <[roomId := room]> rooms,
   [(ToSender sid,
     room_state (nodes room) (edges room) roster
       (bool_decide (owner room = sid)));
    (ToOthers roomId sid, user_joined username sid roster);
    (ToRoom roomId, users_updated roster)]).
End Legacy.

(** ** Sample configuration and states *)

Definition env2 : Env := {| MAX_USERS_PER_ROOM := Some 2%Z |}.

(** A and B connect; A joins "r1" and becomes its owner; B joins "r1". *)
Definition two_in_r1 : list Event :=
  [Connection "A"; Connection "B";
   Message "A" 1 (JoinRoom "r1" "alice" false);
   Message "B" 2 (JoinRoom "r1" "bob" false)].

(** The state reached by [two_in_r1] (see [run_two_in_r1]): room "r1" is
    owned by A and, with a capacity of two, full. *)
Definition alice : User.t := User.mk "A" "alice" 1 true true true 1.
Definition bob : User.t := User.mk "B" "bob" 2 false true true 2.

Definition room_r1 : Room.t :=
  Room.mk [] [] [("A", alice); ("B", bob)] "A" [] 1 (Settings.mk 2 true true).

Definition rooms_r1 : gmap string Room.t := {[ "r1" := room_r1 ]}.

Definition socket_A : Socket.t :=
  Socket.mk "A" (Some "r1") (Some "alice") {[ "A"; "r1" ]}.

Definition socket_B : Socket.t :=
  Socket.mk "B" (Some "r1") (Some "bob") {[ "B"; "r1" ]}.

Definition st_r1 : State.t :=
  State.mk {[ "A" := socket_A; "B" := socket_B ]} rooms_r1.

(** Room "r1" with A alone in it. *)
Definition room_solo : Room.t :=
  Room.mk [] [] [("A", alice)] "A" [] 1 (Settings.mk 2 true true).

Definition rooms_solo : gmap string Room.t := {[ "r1" := room_solo ]}.

(** A configuration with a negative capacity ([parseInt("-1")] is truthy). *)
Definition env_negative : Env := {| MAX_USERS_PER_ROOM := Some (-1)%Z |}.

(** A opens room "r1" through the video path. *)
Definition video_first : list Event :=
  [Connection "A"; Message "A" 1 (JoinVideoRoom "r1" "alice" false)].

(** The owner A of "r1" hands the room to "Z", an id that no connection
    has. *)
Definition handed_to_stranger : list Event :=
  (two_in_r1 ++ [Message "A" 3 (TransferOwnership "Z")])%list.

(** A joins "r1" alone. *)
Definition one_in_r1 : list Event :=
  [Connection "A"; Message "A" 1 (JoinRoom "r1" "alice" false)].

(** A and B join "r1", then A disconnects. *)
Definition owner_drops : list Event :=
  (two_in_r1 ++ [Disconnect "A"])%list.

(** B joins the room of A and says it is the owner. *)
Definition pretender : list Event :=
  [Connection "A"; Connection "B";
   Message "A" 1 (JoinRoom "r1" "alice" false);
   Message "B" 2 (JoinRoom "r1" "bob" true)].

(** A opens "r1" saying it is the owner, which it becomes; B joins; A joins
    again, still saying so; C says so too but leaves out its name, and is
    turned away; then A disconnects. *)
Definition owner_says_so : list Event :=
  [Connection "A"; Connection "B"; Connection "C";
   Message "A" 1 (JoinRoom "r1" "alice" true);
   Message "B" 2 (JoinRoom "r1" "bob" false);
   Message "A" 3 (JoinVideoRoom "r1" "alice" true);
   Message "C" 4 (JoinRoom "r1" "" true);
   Disconnect "A"].

(** A joins "r1", then "r2". *)
Definition two_rooms : list Event :=
  [Connection "A";
   Message "A" 1 (JoinRoom "r1" "alice" false);
   Message "A" 2 (JoinRoom "r2" "alice" false)].

(** A connected socket that has joined nothing. *)
Definition socket_C : Socket.t := Socket.fresh "C".

(** A joins a room that it names by its own id, then "r1": the second join
    makes it leave the transport room "A". *)
Definition left_own_room : list Event :=
  [Connection "A";
   Message "A" 1 (JoinRoom "A" "alice" false);
   Message "A" 2 (JoinRoom "r1" "alice" false)].

(** A, B and C connect; B disconnects; C joins a room that it names "B". *)
Definition stale_target : list Event :=
  [Connection "A"; Connection "B"; Connection "C"; Disconnect "B";
   Message "C" 1 (JoinRoom "B" "carol" false)].

(** A and B connect; B joins a room that it names "A". *)
Definition shadowed_sender : list Event :=
  [Connection "A"; Connection "B";
   Message "B" 1 (JoinRoom "A" "bob" false)].

(** A, B and C connect; C joins a room that it names "B". *)
Definition overheard : list Event :=
  [Connection "A"; Connection "B"; Connection "C";
   Message "C" 1 (JoinRoom "B" "carol" false)].

(** ** Further invariants and frames *)

(** Capacity: neither roster holds more than [maxUsers] entries (and none at
    all when [maxUsers] is below one). *)
Definition within_capacity (room : Room.t) : Prop :=
  (Z.of_nat (JsMap.size (Room.users room))
   ≤ Z.max 0 (Settings.maxUsers (Room.settings room)))%Z
  ∧ (Z.of_nat (JsMap.size (Room.videoUsers room))
     ≤ Z.max 0 (Settings.maxUsers (Room.settings room)))%Z.

Definition capacity_invariant (rooms : gmap string Room.t) : Prop :=
  map_Forall (λ _, within_capacity) rooms.

(** A roster entry is stored under its own id, and the entry of the owner
    carries the flag. *)
Definition owner_flagged (owner : string) (kv : string * User.t) : Prop :=
  User.id kv.2 = kv.1 ∧ (kv.1 = owner → User.isOwner kv.2 = true).

Definition owner_marked (room : Room.t) : Prop :=
  Forall (owner_flagged (Room.owner room)) (Room.users room)
  ∧ Forall (owner_flagged (Room.owner room)) (Room.videoUsers room).

Definition owner_marked_invariant (rooms : gmap string Room.t) : Prop :=
  map_Forall (λ _, owner_marked) rooms.

(** The events that write the diagram of a room. *)
Definition writes_diagram (m : InMsg) : bool :=
  match m with
  | UpdateDiagram _ _ => true
  | _ => false
  end.

(** What a room keeps: its creation time and settings always, its diagram
    when [diagram] is set. *)
Definition room_kept (diagram : bool) (room room' : Room.t) : Prop :=
  Room.created room' = Room.created room
  ∧ Room.settings room' = Room.settings room
  ∧ (diagram = true →
     Room.nodes room' = Room.nodes room ∧ Room.edges room' = Room.edges room).

(** The events whose handler looks the room of the connection up in the
    registry before anything else. *)
Definition needs_room (m : InMsg) : bool :=
  match m with
  | MediaToggle _ _ | StartRecording | StopRecording | UpdateDiagram _ _
  | TransferOwnership _ | LeaveVideoRoom | LeaveRoom => true
  | _ => false
  end.

(** ** The changes a handler makes to a room

    [RoomChange sid m now room room']: the handler of the event [m], run for
    the connection [sid] at time [now], may turn the room object [room] into
    [room'].  One constructor for every assignment to a room in the
    handlers; [handle_changes] below shows that these are all. *)

(** The two conditional assignments of [media-toggle]. *)
Definition toggled (video audio : option bool) (user : User.t) : User.t :=
  let user :=
    match video with
    | Some b => User.set_videoEnabled b user
    | None => user
    end in
  match audio with
  | Some b => User.set_audioEnabled b user
  | None => user
  end.

Inductive RoomChange (sid : string) : InMsg → Z → Room.t → Room.t → Prop :=
  | change_none m now room :
      RoomChange sid m now room room
  | change_join roomId username isOwner now room :
      (Z.of_nat (JsMap.size (Room.users room))
       < Settings.maxUsers (Room.settings room))%Z →
      RoomChange sid (JoinRoom roomId username isOwner) now room
        (Room.set_users
           (JsMap.set sid (joining_user now sid username isOwner room)
              (Room.users room)) room)
  | change_join_video roomId username isOwner now room :
      (Z.of_nat (JsMap.size (Room.videoUsers room))
       < Settings.maxUsers (Room.settings room))%Z →
      RoomChange sid (JoinVideoRoom roomId username isOwner) now room
        (Room.set_videoUsers
           (JsMap.set sid (joining_user now sid username isOwner room)
              (Room.videoUsers room)) room)
  | change_toggle video audio now room user :
      JsMap.get sid (Room.videoUsers room) = Some user →
      RoomChange sid (MediaToggle video audio) now room
        (Room.set_videoUsers
           (JsMap.set sid (toggled video audio user) (Room.videoUsers room))
           room)
  | change_diagram nodes edges now room :
      RoomChange sid (UpdateDiagram nodes edges) now room
        (Room.set_edges (or_else edges (Room.edges room))
           (Room.set_nodes (or_else nodes (Room.nodes room)) room))
  | change_transfer newOwnerId now room :
      Room.owner room = sid →
      RoomChange sid (TransferOwnership newOwnerId) now room
        (assign_owner newOwnerId room)
  | change_leave_video now room :
      RoomChange sid LeaveVideoRoom now room
        (Room.set_videoUsers (JsMap.delete sid (Room.videoUsers room)) room)
  | change_leave now room :
      RoomChange sid LeaveRoom now room (without sid room)
  | change_leave_delegate now room :
      Room.owner room = sid →
      0 < JsMap.size (JsMap.delete sid (Room.users room)) →
      RoomChange sid LeaveRoom now room
        (assign_owner (hd "" (JsMap.keys (JsMap.delete sid (Room.users room))))
           (without sid room)).

(** Where the room of [rid] after an event comes from: the room of [rid]
    before it, or the room just created by a join. *)
Definition room_before (env : Env) (now : Z) (sid : string)
    (rooms : gmap string Room.t) (rid : string) (base : Room.t) : Prop :=
  rooms !! rid = Some base
  ∨ (rooms !! rid = None ∧ base = new_room env now sid).

(** The event of a connection behind a transition: [disconnect] runs the
    body of [leave-room]; the other transitions change no room object. *)
Definition event_msg (ev : Event) : InMsg :=
  match ev with
  | Message _ _ m => m
  | Disconnect _ => LeaveRoom
  | _ => Clear
  end.

(** ** The token endpoint

    [app.post('/api/generate-token', ...)].  The token builder of the Agora
    library is an argument: it returns a token, or throws with a message
    ([inr]).  [uid] is a number when present; [now] is [Date.now()], in
    milliseconds. *)
Record AgoraEnv := {
  AGORA_APP_ID : option string;
  AGORA_APP_CERTIFICATE : option string
}.

Inductive RtcRole := PUBLISHER | SUBSCRIBER.

Definition TokenBuilder : Type :=
  string → string → string → Z → RtcRole → Z → string + string.

Inductive TokenBody :=
  | token_body (token appId channelName : string) (uid expiration : Z)
  | error_body (error : string) (details : option string) (code : string).

Record HttpResponse := { status : nat; body : TokenBody }.

(** [!v] on a string that may be [undefined]. *)
Definition present (v : option string) : option string :=
  match v with
  | Some s => if truthy s then Some s else None
  | None => None
  end.

(** [uid || 0]. *)
Definition uid_or_zero (uid : option Z) : Z :=
  match uid with
  | Some n => n
  | None => 0%Z
  end.

Definition generate_token (agora : AgoraEnv) (build : TokenBuilder)
    (now : Z) (channelName : option string) (uid : option Z)
  : HttpResponse :=
  match present (AGORA_APP_ID agora), present (AGORA_APP_CERTIFICATE agora) with
  | Some appId, Some appCertificate =>
      match present channelName with
      | None =>
          Build_HttpResponse 400
            (error_body "Channel name is required" None "MISSING_CHANNEL")
      | Some channel =>
          let expirationTimeInSeconds := 3600%Z in
          let currentTimestamp := (now / 1000)%Z in
          let privilegeExpiredTs :=
            (currentTimestamp + expirationTimeInSeconds)%Z in
          match build appId appCertificate channel (uid_or_zero uid)
                  PUBLISHER privilegeExpiredTs with
          | inl token =>
              Build_HttpResponse 200
                (token_body token appId channel (uid_or_zero uid)
                   privilegeExpiredTs)
          | inr message =>
              Build_HttpResponse 500
                (error_body "Failed to generate token" (Some message)
                   "TOKEN_GENERATION_ERROR")
          end
      end
  | _, _ =>
      Build_HttpResponse 500
        (error_body "Server configuration error: Agora credentials not set"
           None "CONFIG_ERROR")
  end.

(** ** The short variant of the server

    A third variant in the repository keeps the token endpoint and three
    socket handlers only.  Its [join-room] stores the [user] object of the
    payload (of which the code reads [id]) under the socket id; its
    [leave-room] names the room in its payload; its [disconnect] walks
    through the whole registry.  The registry is walked in insertion order,
    so it is an insertion-ordered map here. *)

Module Short.
Record ClientUser := mkClientUser { id : string; name : string }.

Record Room := mkRoom {
  users : list (string * ClientUser);
  videoUsers : list (string * ClientUser);
  owner : string;
  created : Z
}.

Inductive OutMsg :=
  | user_joined (user : ClientUser) (users : list ClientUser)
  | user_left (socketId : string).

Definition Outcome : Type :=
  Socket.t * list (string * Room) * list (Dest * OutMsg).

(** [socket.on("join-room", ({ roomId, user }) => ...)] *)
Definition join_room (now : Z) (roomId : string) (user : ClientUser)
    (socket : Socket.t) (rooms : list (string * Room)) : Outcome :=
  let room :=
    match JsMap.get roomId rooms with
    | Some room => room
    | None => mkRoom [] [] (id user) now
    end in
  let room :=
    mkRoom (JsMap.set (Socket.id socket) user (users room)) (videoUsers room)
      (owner room) (created room) in
  (Socket.join roomId socket, JsMap.set roomId room rooms,
   [(ToRoom roomId, user_joined user (JsMap.values (users room)))]).

(** The room after the two [delete]s of a departure. *)
Definition without (sid : string) (room : Room) : Room :=
  mkRoom (JsMap.delete sid (users room)) (JsMap.delete sid (videoUsers room))
    (owner room) (created room).

(** [socket.on("leave-room", ({ roomId }) => ...)] *)
Definition leave_room (roomId : string) (socket : Socket.t)
    (rooms : list (string * Room)) : Outcome :=
  match JsMap.get roomId rooms with
  | None => (socket, rooms, [])
  | Some room =>
      let room := without (Socket.id socket) room in
      let socket := Socket.leave roomId socket in
      let out := [(ToRoom roomId, user_left (Socket.id socket))] in
      if bool_decide (JsMap.size (users room) = 0) then
        (socket, JsMap.delete roomId rooms, out)
      else (socket, JsMap.set roomId room rooms, out)
  end.

(** [socket.on("disconnect", () => ...)]: the loop over [rooms.entries()];
    an entry deleted by the body is not visited again. *)
Fixpoint disconnect (sid : string) (rooms : list (string * Room))
  : list (string * Room) * list (Dest * OutMsg) :=
  match rooms with
  | [] => ([], [])
  | (roomId, room) :: rest =>
      let '(rest, out) := disconnect sid rest in
      if JsMap.has sid (users room) then
        let room := without sid room in
        let out := (ToRoom roomId, user_left sid) :: out in
        if bool_decide (JsMap.size (users room) = 0) then (rest, out)
        else ((roomId, room) :: rest, out)
      else ((roomId, room) :: rest, out)
  end.
End Short.

(** Two rooms of the short variant: A is alone in "r1", A and B are in
    "r2", and A is in the video roster only of "r3". *)
Definition short_rooms : list (string * Short.Room) :=
  [("r1", Short.mkRoom [("A", Short.mkClientUser "u1" "alice")] [] "u1" 1);
   ("r2", Short.mkRoom [("A", Short.mkClientUser "u1" "alice");
                        ("B", Short.mkClientUser "u2" "bob")] [] "u1" 2);
   ("r3", Short.mkRoom [("B", Short.mkClientUser "u2" "bob")]
            [("A", Short.mkClientUser "u1" "alice")] "u2" 3)].

(** ** Further sample states *)

(** Room "r1" of the sample state with B in the video roster. *)
Definition room_r1_video : Room.t := Room.set_videoUsers [("B", bob)] room_r1.

Definition rooms_r1_video : gmap string Room.t := {[ "r1" := room_r1_video ]}.

(** A room opened through the video path: A and B in the video roster, nobody
    in the general one. *)
Definition room_video_only : Room.t :=
  Room.mk [] [] [] "A" [("A", alice); ("B", bob)] 1 (Settings.mk 2 true true).

Definition rooms_video_only : gmap string Room.t :=
  {[ "r1" := room_video_only ]}.

(** C, associated with "r1" and in its transport room, with no roster
    entry. *)
Definition socket_C_in_r1 : Socket.t :=
  Socket.mk "C" (Some "r1") (Some "carol") {[ "C"; "r1" ]}.

Definition sample_agora : AgoraEnv :=
  {| AGORA_APP_ID := Some "app"; AGORA_APP_CERTIFICATE := Some "cert" |}.

Definition sample_builder : TokenBuilder :=
  λ appId appCertificate channel _ _ _, inl (appId ++ ":" ++ channel).

(** * Properties *)

(** ** The sample state *)

(** The sample state is the one the server reaches. *)
Example run_two_in_r1 : (run env2 State.init two_in_r1).1 = st_r1.
Proof. vm_compute. reflexivity. Qed.

(** ** Insertion-ordered maps *)

Section jsmap_facts.
Context {V : Type}.
Implicit Types (m : list (string * V)) (k : string) (v : V).

Lemma get_set k k' v m :
  JsMap.get k' (JsMap.set k v m)
  = if decide (k' = k) then Some v else JsMap.get k' m.
Proof.
  induction m as [|[k0 v0] m IH]; simpl.
  - destruct (decide (k' = k)); reflexivity.
  - destruct (decide (k = k0)) as [->|Hne]; simpl.
    + destruct (decide (k' = k0)); reflexivity.
    + rewrite IH. destruct (decide (k' = k0)) as [->|]; [|reflexivity].
      destruct (decide (k0 = k)); congruence.
Qed.

Lemma get_delete k k' m :
  JsMap.get k' (JsMap.delete k m)
  = if decide (k' = k) then None else JsMap.get k' m.
Proof.
  induction m as [|[k0 v0] m IH]; simpl.
  - destruct (decide (k' = k)); reflexivity.
  - destruct (decide (k = k0)) as [->|Hne]; simpl.
    + rewrite IH. destruct (decide (k' = k0)); reflexivity.
    + rewrite IH. destruct (decide (k' = k0)) as [->|]; [|reflexivity].
      destruct (decide (k0 = k)); congruence.
Qed.

Lemma elem_of_keys_get k m : k ∈ JsMap.keys m ↔ is_Some (JsMap.get k m).
Proof.
  unfold JsMap.keys. induction m as [|[k0 v0] m IH]; simpl.
  - rewrite elem_of_nil. split; [tauto | intros [? ?]; discriminate].
  - rewrite elem_of_cons, IH. destruct (decide (k = k0)); split; eauto.
    intros [?|?]; [contradiction | assumption].
Qed.

Lemma has_true k m : JsMap.has k m = true ↔ k ∈ JsMap.keys m.
Proof.
  unfold JsMap.has. rewrite bool_decide_eq_true. symmetry.
  apply elem_of_keys_get.
Qed.

Lemma elem_of_keys_set k k' v m :
  k' ∈ JsMap.keys (JsMap.set k v m) ↔ k' = k ∨ k' ∈ JsMap.keys m.
Proof.
  rewrite !elem_of_keys_get, get_set.
  destruct (decide (k' = k)); split; eauto. intros [?|?]; [contradiction|done].
Qed.

Lemma elem_of_keys_delete k k' m :
  k' ∈ JsMap.keys (JsMap.delete k m) ↔ k' ≠ k ∧ k' ∈ JsMap.keys m.
Proof.
  rewrite !elem_of_keys_get, get_delete.
  destruct (decide (k' = k)); split.
  - intros [? ?]; discriminate.
  - intros [? _]; contradiction.
  - eauto.
  - intros [_ ?]; assumption.
Qed.

Lemma size_set_in k v m :
  k ∈ JsMap.keys m → JsMap.size (JsMap.set k v m) = JsMap.size m.
Proof.
  unfold JsMap.size, JsMap.keys. induction m as [|[k0 v0] m IH]; simpl.
  - intros H. apply elem_of_nil in H. contradiction.
  - rewrite elem_of_cons. intros H.
    destruct (decide (k = k0)); simpl; [reflexivity|].
    f_equal. apply IH. destruct H; [contradiction | assumption].
Qed.

Lemma size_set_pos k v m : 0 < JsMap.size (JsMap.set k v m).
Proof.
  unfold JsMap.size. destruct m as [|[k0 v0] m]; simpl; [lia|].
  destruct (decide (k = k0)); simpl; lia.
Qed.

Lemma elem_of_set kv k v m :
  kv ∈ JsMap.set k v m → kv = (k, v) ∨ kv ∈ m.
Proof.
  induction m as [|[k0 v0] m IH]; simpl.
  - rewrite list_elem_of_singleton. auto.
  - destruct (decide (k = k0)); rewrite !elem_of_cons;
      intros [?|?]; auto. destruct IH; auto.
Qed.

Lemma elem_of_delete kv k m :
  kv ∈ JsMap.delete k m ↔ kv ∈ m ∧ kv.1 ≠ k.
Proof.
  induction m as [|[k0 v0] m IH]; simpl.
  - rewrite elem_of_nil. tauto.
  - destruct (decide (k = k0)) as [->|Hne]; rewrite ?elem_of_cons, IH.
    + split; [tauto|]. intros [[->|?] ?]; [contradiction | tauto].
    + split; [|tauto]. intros [->|[? ?]]; [|tauto]. split; [auto|].
      simpl. congruence.
Qed.

Lemma Forall_set (P : string * V → Prop) k v m :
  P (k, v) → Forall P m → Forall P (JsMap.set k v m).
Proof.
  rewrite !Forall_forall. intros Hkv Hm kv Hin.
  apply elem_of_set in Hin as [->|?]; auto.
Qed.

Lemma Forall_delete (P : string * V → Prop) k m :
  Forall P m → Forall P (JsMap.delete k m).
Proof.
  rewrite !Forall_forall. intros Hm kv Hin.
  apply elem_of_delete in Hin as [? _]. auto.
Qed.

Lemma keys_forEach (f : V → string → V) m :
  JsMap.keys (JsMap.forEach f m) = JsMap.keys m.
Proof.
  unfold JsMap.keys, JsMap.forEach. rewrite <- list_fmap_compose.
  apply list_fmap_ext. intros ? [? ?]. reflexivity.
Qed.

Lemma size_forEach (f : V → string → V) m :
  JsMap.size (JsMap.forEach f m) = JsMap.size m.
Proof. unfold JsMap.size, JsMap.forEach. apply length_fmap. Qed.

Lemma Forall_forEach (P : string * V → Prop) (f : V → string → V) m :
  (∀ k v, P (k, f v k)) → Forall P (JsMap.forEach f m).
Proof.
  intros Hf. unfold JsMap.forEach. apply Forall_fmap, Forall_forall.
  intros [k v] _. apply Hf.
Qed.

Lemma size_keys m : length (JsMap.keys m) = JsMap.size m.
Proof. unfold JsMap.keys, JsMap.size. apply length_fmap. Qed.

(** [Array.from(m.keys())[0]] of a non-empty map is one of its keys. *)
Lemma first_key_elem m :
  0 < JsMap.size m → hd "" (JsMap.keys m) ∈ JsMap.keys m.
Proof.
  rewrite <- size_keys. destruct (JsMap.keys m); simpl; [lia|].
  intros _. apply elem_of_cons. auto.
Qed.

Lemma size_pos_of_key k m : k ∈ JsMap.keys m → 0 < JsMap.size m.
Proof.
  rewrite <- size_keys. destruct (JsMap.keys m); simpl; [|lia].
  intros H. apply elem_of_nil in H. contradiction.
Qed.

(** The keys of a JS [Map] are distinct, and the three operations keep them
    so. *)
Lemma keys_cons k v m : JsMap.keys ((k, v) :: m) = k :: JsMap.keys m.
Proof. reflexivity. Qed.

Lemma NoDup_keys_delete k m :
  NoDup (JsMap.keys m) → NoDup (JsMap.keys (JsMap.delete k m)).
Proof.
  induction m as [|[k0 v0] m IH]; simpl; [auto|].
  rewrite keys_cons, NoDup_cons. intros [Hnotin Hm].
  destruct (decide (k = k0)); [auto|].
  rewrite keys_cons, NoDup_cons. split; [|auto].
  rewrite elem_of_keys_delete. tauto.
Qed.

Lemma NoDup_keys_set k v m :
  NoDup (JsMap.keys m) → NoDup (JsMap.keys (JsMap.set k v m)).
Proof.
  induction m as [|[k0 v0] m IH]; simpl.
  - intros _. apply NoDup_singleton.
  - rewrite keys_cons, NoDup_cons. intros [Hnotin Hm].
    destruct (decide (k = k0)) as [->|Hne]; rewrite keys_cons, NoDup_cons.
    + auto.
    + split; [|auto]. rewrite elem_of_keys_set. intros [?|?]; congruence.
Qed.

Lemma NoDup_keys_forEach (f : V → string → V) m :
  NoDup (JsMap.keys m) → NoDup (JsMap.keys (JsMap.forEach f m)).
Proof. rewrite keys_forEach. auto. Qed.
End jsmap_facts.

(** ** Marking the owner *)

Lemma size_mark_owner o (m : list (string * User.t)) :
  JsMap.size (mark_owner o m) = JsMap.size m.
Proof. apply size_forEach. Qed.

Lemma keys_mark_owner o (m : list (string * User.t)) :
  JsMap.keys (mark_owner o m) = JsMap.keys m.
Proof. apply keys_forEach. Qed.

Lemma marked_mark_owner o (m : list (string * User.t)) :
  marked o (mark_owner o m).
Proof. apply Forall_forEach. reflexivity. Qed.

(** ** Guards of the handlers *)

Lemma current_room_Some socket rooms rid room :
  current_room socket rooms = Some (rid, room)
  ↔ joined socket = Some rid ∧ rooms !! rid = Some room.
Proof.
  unfold current_room. destruct (joined socket) as [r|].
  - destruct (rooms !! r) as [room0|] eqn:Hr; split.
    + intros [= -> ->]. auto.
    + intros [[= ->] H]. rewrite Hr in H. congruence.
    + discriminate.
    + intros [[= ->] H]. rewrite Hr in H. discriminate.
  - split; [discriminate | intros [? _]; discriminate].
Qed.

Lemma current_room_None socket rooms rid :
  joined socket = Some rid → rooms !! rid = None →
  current_room socket rooms = None.
Proof. unfold current_room. intros -> ->. reflexivity. Qed.

Lemma truthy_true s : truthy s = true ↔ s ≠ "".
Proof. unfold truthy. apply bool_decide_eq_true. Qed.

Lemma disconnect_as_leave_room socket rooms :
  on_disconnect socket rooms = leave_room socket rooms.
Proof. reflexivity. Qed.

Lemma room_is_full_true n room :
  room_is_full n room = true
  ↔ (Settings.maxUsers (Room.settings room) ≤ Z.of_nat n)%Z.
Proof. unfold room_is_full. apply bool_decide_eq_true. Qed.

(** ** Delivery *)

Lemma elem_of_recipients_sender sockets sid x :
  x ∈ recipients sockets (ToSender sid) ↔ x = sid ∧ is_Some (sockets !! x).
Proof.
  simpl. rewrite elem_of_dom. split.
  - intros [s Hs]. apply map_lookup_filter_Some in Hs as [Hs Heq].
    simpl in Heq. eauto.
  - intros [-> [s Hs]]. exists s. apply map_lookup_filter_Some. auto.
Qed.

Lemma elem_of_recipients_others sockets room sender x :
  x ∈ recipients sockets (ToOthers room sender)
  ↔ ∃ s, sockets !! x = Some s
         ∧ room ∈ Socket.rooms s ∧ sender ∉ Socket.rooms s.
Proof.
  simpl. rewrite elem_of_dom. split.
  - intros [s Hs]. apply map_lookup_filter_Some in Hs as [Hs [Hin Hout]].
    simpl in *. eauto.
  - intros (s & Hs & Hin & Hout). exists s.
    apply map_lookup_filter_Some. auto.
Qed.

Lemma elem_of_recipients_room sockets room x :
  x ∈ recipients sockets (ToRoom room)
  ↔ ∃ s, sockets !! x = Some s ∧ room ∈ Socket.rooms s.
Proof.
  simpl. rewrite elem_of_dom. split.
  - intros [s Hs]. apply map_lookup_filter_Some in Hs as [Hs Hin].
    simpl in *. eauto.
  - intros (s & Hs & Hin). exists s. apply map_lookup_filter_Some. auto.
Qed.

Lemma received_one sockets sid e :
  received sockets sid [e]
  = if decide (sid ∈ recipients sockets (dest e)) then [msg e] else [].
Proof.
  unfold received. rewrite filter_cons, filter_nil.
  destruct (decide (sid ∈ recipients sockets (dest e))); reflexivity.
Qed.

Lemma elem_of_received sockets sid out m :
  m ∈ received sockets sid out
  ↔ ∃ e, e ∈ out ∧ msg e = m ∧ sid ∈ recipients sockets (dest e).
Proof.
  unfold received. rewrite list_elem_of_fmap. split.
  - intros (e & -> & [Hto Hin]%list_elem_of_filter). eauto.
  - intros (e & Hin & <- & Hto). exists e. split; [reflexivity|].
    apply list_elem_of_filter. auto.
Qed.

(** A target that is the id of no live connection and the name of no room
    that a live connection is in is unreachable. *)
Lemma gone_is_unreachable sockets (joinable : gset string) target sender :
  sockets !! target = None →
  target ∉ joinable →
  (∀ sid s, sockets !! sid = Some s → Socket.rooms s ⊆ {[ sid ]} ∪ joinable) →
  unreachable sockets target sender.
Proof.
  intros Hgone Hname Hrooms sid s Hs _ Hin.
  apply (Hrooms sid s Hs) in Hin.
  apply elem_of_union in Hin as [Hin|Hin]; [|contradiction].
  apply elem_of_singleton in Hin. subst sid. congruence.
Qed.

(** The sender of a [socket.to(...)] broadcast is not among its recipients
    as long as it is in the transport room of its own id. *)
Lemma sender_not_recipient sockets room sender :
  (∀ s, sockets !! sender = Some s → sender ∈ Socket.rooms s) →
  sender ∉ recipients sockets (ToOthers room sender).
Proof.
  intros Hown (s & Hs & _ & Hout)%elem_of_recipients_others.
  exact (Hout (Hown s Hs)).
Qed.

Lemma received_others_iff sockets x rid sender m0 m :
  m ∈ received sockets x [Build_Emit (ToOthers rid sender) m0]
  ↔ m = m0 ∧ ∃ s, sockets !! x = Some s
                  ∧ rid ∈ Socket.rooms s ∧ sender ∉ Socket.rooms s.
Proof.
  rewrite elem_of_received. split.
  - intros (e & ->%list_elem_of_singleton & <- & Hto). simpl in *.
    split; [reflexivity|]. apply elem_of_recipients_others. exact Hto.
  - intros [-> Hx]. eexists. split; [apply list_elem_of_singleton; reflexivity|].
    split; [reflexivity|]. apply elem_of_recipients_others. exact Hx.
Qed.

(** ** Ownership transfer requested by a non-owner *)

(** C4. A [transfer-ownership] request from a connection that is not the
    owner of a room leaves that room as it was (owner, general roster, video
    roster and every other field), and emits no [error] event; when the room
    is the one the requester is associated with, nothing at all changes and
    nothing is emitted. *)
Theorem transfer_by_non_owner_is_noop newOwnerId socket rooms rid room :
  rooms !! rid = Some room →
  Room.owner room ≠ Socket.id socket →
  let '(socket', rooms', out) := transfer_ownership newOwnerId socket rooms in
  rooms' !! rid = Some room
  ∧ Forall (λ e, ¬ is_error (msg e)) out
  ∧ (joined socket = Some rid → socket' = socket ∧ rooms' = rooms ∧ out = []).
Proof.
  intros Hroom Hnot. unfold transfer_ownership.
  destruct (current_room socket rooms) as [[r2 room2]|] eqn:Hcur.
  - apply current_room_Some in Hcur as [Hj Hr2].
    case_bool_decide as Hown.
    + assert (r2 ≠ rid) by (intros ->; congruence).
      split; [by rewrite lookup_insert_ne|].
      split; [repeat constructor; simpl; tauto|].
      intros Hj'. congruence.
    + repeat split; auto.
  - repeat split; auto.
Qed.

Lemma transfer_by_non_owner_is_noop_witness :
  rooms_r1 !! "r1" = Some room_r1
  ∧ Room.owner room_r1 ≠ Socket.id socket_B
  ∧ let '(socket', rooms', out) := transfer_ownership "B" socket_B rooms_r1 in
    rooms' !! "r1" = Some room_r1
    ∧ Forall (λ e, ¬ is_error (msg e)) out
    ∧ (joined socket_B = Some "r1"
       → socket' = socket_B ∧ rooms' = rooms_r1 ∧ out = []).
Proof.
  assert (H1 : rooms_r1 !! "r1" = Some room_r1) by (vm_compute; reflexivity).
  assert (H2 : Room.owner room_r1 ≠ Socket.id socket_B)
    by (vm_compute; discriminate).
  exact (conj H1 (conj H2
           (transfer_by_non_owner_is_noop "B" socket_B rooms_r1 "r1" room_r1
              H1 H2))).
Defined.

(** In the sample room B is not the owner and its request does nothing; the
    same request from the owner A makes B the owner. *)
Example transfer_requested_by_B :
  transfer_ownership "B" socket_B rooms_r1 = (socket_B, rooms_r1, []).
Proof. vm_compute. reflexivity. Qed.

Example transfer_requested_by_A :
  ∃ room out,
    transfer_ownership "B" socket_A rooms_r1
    = (socket_A, {[ "r1" := room ]}, out)
    ∧ Room.owner room = "B"
    ∧ JsMap.values (Room.users room)
      = [User.set_isOwner false alice; User.set_isOwner true bob].
Proof. eexists _, _. vm_compute. repeat split. Qed.

(** ** Departure: the three outcomes of [leave-room] and [disconnect] *)

Section departure.
Context (socket : Socket.t) (rooms : gmap string Room.t).
Context (rid : string) (room : Room.t).
Hypothesis Hcur : current_room socket rooms = Some (rid, room).

Abbreviation sid := (Socket.id socket).
Abbreviation left_over := (JsMap.delete (Socket.id socket) (Room.users room)).

Lemma leave_room_empty :
  JsMap.size left_over = 0 →
  leave_room socket rooms = (socket, delete rid rooms, []).
Proof.
  intros Hsize. unfold leave_room. rewrite Hcur. simpl.
  rewrite Hsize.
  rewrite (bool_decide_eq_false_2 (0 < 0)) by lia.
  rewrite andb_false_r. simpl. rewrite Hsize. reflexivity.
Qed.

Lemma leave_room_delegates :
  Room.owner room = sid → 0 < JsMap.size left_over →
  leave_room socket rooms
  = (socket,
     <[rid := assign_owner (hd "" (JsMap.keys left_over)) (without sid room)]>
       rooms,
     Build_Emit (ToRoom rid)
       (ownership_transferred (hd "" (JsMap.keys left_over))
          (JsMap.values
             (mark_owner (hd "" (JsMap.keys left_over)) left_over)))
     :: departure_notices rid socket
          (assign_owner (hd "" (JsMap.keys left_over)) (without sid room))).
Proof.
  intros Hown Hsize. unfold leave_room. rewrite Hcur. simpl.
  rewrite (bool_decide_eq_true_2 _ Hown), (bool_decide_eq_true_2 _ Hsize).
  simpl. rewrite size_mark_owner.
  rewrite bool_decide_eq_false_2 by lia. reflexivity.
Qed.

Lemma leave_room_stays :
  Room.owner room ≠ sid → JsMap.size left_over ≠ 0 →
  leave_room socket rooms
  = (socket, <[rid := without sid room]> rooms,
     departure_notices rid socket (without sid room)).
Proof.
  intros Hown Hsize. unfold leave_room. rewrite Hcur. simpl.
  rewrite (bool_decide_eq_false_2 _ Hown). simpl.
  rewrite (bool_decide_eq_false_2 _ Hsize). reflexivity.
Qed.
End departure.

Lemma leave_room_elsewhere socket rooms :
  current_room socket rooms = None →
  leave_room socket rooms = (socket, rooms, []).
Proof. intros H. unfold leave_room. rewrite H. reflexivity. Qed.

Lemma depart_as_leave_room d socket rooms :
  depart d socket rooms = leave_room socket rooms.
Proof. destruct d; reflexivity. Qed.

(** ** Departure of the last participant *)

(** C6. When a [leave-room] or a [disconnect] of a connection removes the
    last entry of the general roster of the room the connection is associated
    with, the room is deleted from the registry by the same handler: the
    lookup of its id in the registry that results is absent. *)
Theorem last_departure_deletes_room d socket rooms rid room :
  current_room socket rooms = Some (rid, room) →
  JsMap.size (JsMap.delete (Socket.id socket) (Room.users room)) = 0 →
  let '(_, rooms', _) := depart d socket rooms in
  rooms' !! rid = None.
Proof.
  intros Hcur Hsize. rewrite depart_as_leave_room.
  rewrite (leave_room_empty _ _ _ _ Hcur Hsize).
  apply lookup_delete_eq.
Qed.

Lemma last_departure_deletes_room_witness :
  current_room socket_A rooms_solo = Some ("r1", room_solo)
  ∧ JsMap.size (JsMap.delete (Socket.id socket_A) (Room.users room_solo)) = 0
  ∧ let '(_, rooms', _) := depart ByDisconnect socket_A rooms_solo in
    rooms' !! "r1" = None.
Proof.
  assert (H1 : current_room socket_A rooms_solo = Some ("r1", room_solo))
    by (vm_compute; reflexivity).
  assert (H2 : JsMap.size
                 (JsMap.delete (Socket.id socket_A) (Room.users room_solo)) = 0)
    by (vm_compute; reflexivity).
  exact (conj H1 (conj H2
           (last_departure_deletes_room ByDisconnect socket_A rooms_solo
              "r1" room_solo H1 H2))).
Defined.

(** ** Departure of the owner *)

(** C5. When the owner of the room it is associated with leaves or
    disconnects and the general roster is not empty after the removal, the
    first key of what is left of the roster becomes the owner, every entry of
    both rosters carries the flag of the comparison of its key with that new
    owner, an [ownership-transferred] event with the id of the new owner is
    sent to the whole room (every live connection in the transport room
    receives it), and the room is still in the registry. *)
Theorem owner_departure_delegates d socket rooms rid room :
  current_room socket rooms = Some (rid, room) →
  Room.owner room = Socket.id socket →
  0 < JsMap.size (JsMap.delete (Socket.id socket) (Room.users room)) →
  let '(_, rooms', out) := depart d socket rooms in
  ∃ room' newOwner rest,
    rooms' !! rid = Some room'
    ∧ JsMap.keys (JsMap.delete (Socket.id socket) (Room.users room))
      = newOwner :: rest
    ∧ Room.owner room' = newOwner
    ∧ JsMap.keys (Room.users room') = newOwner :: rest
    ∧ marked newOwner (Room.users room')
    ∧ marked newOwner (Room.videoUsers room')
    ∧ Build_Emit (ToRoom rid)
        (ownership_transferred newOwner (JsMap.values (Room.users room')))
      ∈ out
    ∧ ∀ (sockets : gmap string Socket.t) sid s,
        sockets !! sid = Some s → rid ∈ Socket.rooms s →
        ownership_transferred newOwner (JsMap.values (Room.users room'))
        ∈ received sockets sid out.
Proof.
  intros Hcur Hown Hsize. rewrite depart_as_leave_room.
  rewrite (leave_room_delegates _ _ _ _ Hcur Hown Hsize).
  set (left_over := JsMap.delete (Socket.id socket) (Room.users room)) in *.
  destruct (JsMap.keys left_over) as [|newOwner rest] eqn:Hkeys.
  { rewrite <- size_keys, Hkeys in Hsize. simpl in Hsize. lia. }
  exists (assign_owner newOwner (without (Socket.id socket) room)),
    newOwner, rest.
  simpl. fold left_over.
  split; [apply lookup_insert_eq|].
  split; [reflexivity|].
  split; [reflexivity|].
  split; [rewrite keys_mark_owner; exact Hkeys|].
  split; [apply marked_mark_owner|].
  split; [apply marked_mark_owner|].
  split; [apply elem_of_cons; left; reflexivity|].
  intros sockets sid s Hs Hin. apply elem_of_received.
  eexists. split; [apply elem_of_cons; left; reflexivity|].
  split; [reflexivity|]. apply elem_of_recipients_room. eauto.
Qed.

Lemma owner_departure_delegates_witness :
  current_room socket_A rooms_r1 = Some ("r1", room_r1)
  ∧ Room.owner room_r1 = Socket.id socket_A
  ∧ 0 < JsMap.size (JsMap.delete (Socket.id socket_A) (Room.users room_r1))
  ∧ let '(_, rooms', out) := depart ByDisconnect socket_A rooms_r1 in
    ∃ room' newOwner rest,
      rooms' !! "r1" = Some room'
      ∧ JsMap.keys (JsMap.delete (Socket.id socket_A) (Room.users room_r1))
        = newOwner :: rest
      ∧ Room.owner room' = newOwner
      ∧ JsMap.keys (Room.users room') = newOwner :: rest
      ∧ marked newOwner (Room.users room')
      ∧ marked newOwner (Room.videoUsers room')
      ∧ Build_Emit (ToRoom "r1")
          (ownership_transferred newOwner (JsMap.values (Room.users room')))
        ∈ out
      ∧ ∀ (sockets : gmap string Socket.t) sid s,
          sockets !! sid = Some s → "r1" ∈ Socket.rooms s →
          ownership_transferred newOwner (JsMap.values (Room.users room'))
          ∈ received sockets sid out.
Proof.
  assert (H1 : current_room socket_A rooms_r1 = Some ("r1", room_r1))
    by (vm_compute; reflexivity).
  assert (H2 : Room.owner room_r1 = Socket.id socket_A) by reflexivity.
  assert (H3 : 0 < JsMap.size
                     (JsMap.delete (Socket.id socket_A) (Room.users room_r1)))
    by (vm_compute; lia).
  exact (conj H1 (conj H2 (conj H3
           (owner_departure_delegates ByDisconnect socket_A rooms_r1 "r1"
              room_r1 H1 H2 H3)))).
Defined.

(** The scenario of two participants: A joins "r1", B joins "r1", A
    disconnects.  B is the owner, B receives [ownership-transferred] with its
    own id, and the room is in the registry with one participant. *)
Example owner_disconnects_scenario :
  let '(st, out) := step env2 st_r1 (Disconnect "A") in
  (∃ room, State.rooms st !! "r1" = Some room
           ∧ Room.owner room = "B"
           ∧ JsMap.keys (Room.users room) = ["B"])
  ∧ ownership_transferred "B" [User.set_isOwner true bob]
    ∈ received (State.sockets st) "B" out.
Proof.
  vm_compute. split.
  - eexists. split; [reflexivity|]. split; reflexivity.
  - apply elem_of_cons. left. reflexivity.
Qed.

(** ** Diagram updates *)

(** C7. An [update-diagram] event of a connection associated with a room of
    the registry stores the fields that the payload carries in the room and
    keeps the stored value of a field that the payload omits: with [nodes]
    only, [edges] is as before, and the other way round.  Rosters, owner,
    creation time and settings are not touched. *)
Theorem update_diagram_keeps_omitted nodes edges socket rooms rid room :
  current_room socket rooms = Some (rid, room) →
  let '(_, rooms', _) := on_update_diagram nodes edges socket rooms in
  ∃ room',
    rooms' !! rid = Some room'
    ∧ (∀ ns, nodes = Some ns → Room.nodes room' = ns)
    ∧ (nodes = None → Room.nodes room' = Room.nodes room)
    ∧ (∀ es, edges = Some es → Room.edges room' = es)
    ∧ (edges = None → Room.edges room' = Room.edges room)
    ∧ Room.users room' = Room.users room
    ∧ Room.videoUsers room' = Room.videoUsers room
    ∧ Room.owner room' = Room.owner room
    ∧ Room.created room' = Room.created room
    ∧ Room.settings room' = Room.settings room.
Proof.
  intros Hcur. unfold on_update_diagram. rewrite Hcur.
  eexists. split; [apply lookup_insert_eq|]. simpl.
  repeat split; try (intros; subst; reflexivity).
Qed.

Lemma update_diagram_keeps_omitted_witness :
  current_room socket_B rooms_r1 = Some ("r1", room_r1)
  ∧ let '(_, rooms', _) :=
      on_update_diagram (Some ["n1"; "n2"]) None socket_B rooms_r1 in
    ∃ room',
      rooms' !! "r1" = Some room'
      ∧ (∀ ns, Some ["n1"; "n2"] = Some ns → Room.nodes room' = ns)
      ∧ (Some ["n1"; "n2"] = None → Room.nodes room' = Room.nodes room_r1)
      ∧ (∀ es, None = Some es → Room.edges room' = es)
      ∧ ((None : option (list string)) = None
         → Room.edges room' = Room.edges room_r1)
      ∧ Room.users room' = Room.users room_r1
      ∧ Room.videoUsers room' = Room.videoUsers room_r1
      ∧ Room.owner room' = Room.owner room_r1
      ∧ Room.created room' = Room.created room_r1
      ∧ Room.settings room' = Room.settings room_r1.
Proof.
  assert (H1 : current_room socket_B rooms_r1 = Some ("r1", room_r1))
    by (vm_compute; reflexivity).
  exact (conj H1
           (update_diagram_keeps_omitted (Some ["n1"; "n2"]) None socket_B
              rooms_r1 "r1" room_r1 H1)).
Defined.

(** ** Joining a room that is full *)

Lemma join_room_at_capacity env now roomId username isOwner socket rooms room :
  roomId ≠ "" → username ≠ "" →
  rooms !! roomId = Some room →
  (Settings.maxUsers (Room.settings room)
   ≤ Z.of_nat (JsMap.size (Room.users room)))%Z →
  ∃ socket',
    join_room env now roomId username isOwner socket rooms
    = (socket', rooms, [Build_Emit (ToSender (Socket.id socket)) RoomFull]).
Proof.
  intros Hr Hu Hroom Hfull. unfold join_room.
  apply truthy_true in Hr, Hu. rewrite Hr, Hu. simpl.
  unfold get_or_create. rewrite Hroom.
  apply room_is_full_true in Hfull. rewrite Hfull.
  eexists. reflexivity.
Qed.

Lemma join_room_missing_field env now roomId username isOwner socket rooms :
  roomId = "" ∨ username = "" →
  join_room env now roomId username isOwner socket rooms
  = (socket, rooms, [Build_Emit (ToSender (Socket.id socket)) MissingField]).
Proof.
  intros H. unfold join_room.
  assert (negb (truthy roomId) || negb (truthy username) = true) as ->;
    [|reflexivity].
  apply orb_true_iff. unfold truthy.
  destruct H as [->| ->]; [left | right]; reflexivity.
Qed.

(** What a [join-room] for a room at capacity does, with or without the
    required fields. *)
Lemma join_room_full_cases env now roomId username isOwner socket rooms room :
  rooms !! roomId = Some room →
  (Settings.maxUsers (Room.settings room)
   ≤ Z.of_nat (JsMap.size (Room.users room)))%Z →
  ∃ socket' reply,
    join_room env now roomId username isOwner socket rooms
    = (socket', rooms, [Build_Emit (ToSender (Socket.id socket)) reply])
    ∧ is_error reply
    ∧ (roomId ≠ "" → username ≠ "" → reply = RoomFull).
Proof.
  intros Hroom Hfull.
  destruct (decide (roomId = "")) as [Hr|Hr];
    [|destruct (decide (username = "")) as [Hu|Hu]].
  - exists socket, MissingField.
    rewrite join_room_missing_field by auto. split; [reflexivity|].
    split; [exact I | intros; contradiction].
  - exists socket, MissingField.
    rewrite join_room_missing_field by auto. split; [reflexivity|].
    split; [exact I | intros; contradiction].
  - destruct (join_room_at_capacity env now roomId username isOwner socket
                rooms room Hr Hu Hroom Hfull) as [socket' ->].
    exists socket', RoomFull. split; [reflexivity|]. split; [exact I | auto].
Qed.

(** C3. A [join-room] request from a connection that is not in the general
    roster of an existing room whose roster holds [maxUsers] entries fails:
    one [error] event is emitted, to the requester, and nobody else receives
    anything; the registry is left as it was, so that the room is unchanged
    and its roster still holds [maxUsers] entries.  The error is [Room is
    full] for a request that carries its required fields [roomId] and
    [username] (a request without them is answered by the required-field
    check, which comes first). *)
Theorem join_full_room_rejected
    env now roomId username isOwner socket rooms room :
  rooms !! roomId = Some room →
  Z.of_nat (JsMap.size (Room.users room))
  = Settings.maxUsers (Room.settings room) →
  Socket.id socket ∉ JsMap.keys (Room.users room) →
  let '(_, rooms', out) :=
    join_room env now roomId username isOwner socket rooms in
  (∃ reply,
     out = [Build_Emit (ToSender (Socket.id socket)) reply]
     ∧ is_error reply
     ∧ (roomId ≠ "" → username ≠ "" → reply = RoomFull))
  ∧ (∀ sockets other,
       other ≠ Socket.id socket → received sockets other out = [])
  ∧ rooms' = rooms
  ∧ ∃ room',
      rooms' !! roomId = Some room'
      ∧ room' = room
      ∧ Z.of_nat (JsMap.size (Room.users room'))
        = Settings.maxUsers (Room.settings room').
Proof.
  intros Hroom Hfull _.
  destruct (join_room_full_cases env now roomId username isOwner socket
              rooms room Hroom) as (socket' & reply & -> & Herr & Hfullmsg);
    [lia|].
  split; [exists reply; auto|]. split.
  - intros sockets other Hne. rewrite received_one.
    destruct (decide _) as [Hin|]; [|reflexivity].
    apply elem_of_recipients_sender in Hin as [? _]. contradiction.
  - split; [reflexivity|]. exists room. auto.
Qed.

Lemma join_full_room_rejected_witness :
  rooms_r1 !! "r1" = Some room_r1
  ∧ Z.of_nat (JsMap.size (Room.users room_r1))
    = Settings.maxUsers (Room.settings room_r1)
  ∧ (Socket.id socket_C ∉ JsMap.keys (Room.users room_r1))
  ∧ let '(_, rooms', out) :=
      join_room env2 3 "r1" "carol" false socket_C rooms_r1 in
    (∃ reply,
       out = [Build_Emit (ToSender (Socket.id socket_C)) reply]
       ∧ is_error reply
       ∧ ("r1" ≠ "" → "carol" ≠ "" → reply = RoomFull))
    ∧ (∀ sockets other,
         other ≠ Socket.id socket_C → received sockets other out = [])
    ∧ rooms' = rooms_r1
    ∧ ∃ room',
        rooms' !! "r1" = Some room'
        ∧ room' = room_r1
        ∧ Z.of_nat (JsMap.size (Room.users room'))
          = Settings.maxUsers (Room.settings room').
Proof.
  assert (H3 : rooms_r1 !! "r1" = Some room_r1) by (vm_compute; reflexivity).
  assert (H4 : Z.of_nat (JsMap.size (Room.users room_r1))
               = Settings.maxUsers (Room.settings room_r1)) by reflexivity.
  assert (H5 : Socket.id socket_C ∉ JsMap.keys (Room.users room_r1))
    by (apply (bool_decide_unpack _); vm_compute; exact I).
  exact (conj H3 (conj H4 (conj H5
           (join_full_room_rejected env2 3 "r1" "carol" false socket_C
              rooms_r1 room_r1 H3 H4 H5)))).
Defined.

(** The full room of the sample state turns a third connection away. *)
Example third_join_is_turned_away :
  join_room env2 3 "r1" "carol" false socket_C rooms_r1
  = (Socket.mk "C" (Some "r1") (Some "carol") {[ "C"; "r1" ]}, rooms_r1,
     [Build_Emit (ToSender "C") RoomFull]).
Proof. vm_compute. reflexivity. Qed.

(** C10. A [join-room] request from a connection that already is in the
    general roster of a room whose roster holds [maxUsers] entries fails in
    the same way: the capacity test counts the entry of the requester, one
    [error] event goes to the requester, and the entry is not overwritten.
    The error is [Room is full] for a request that carries its required
    fields. *)
Theorem rejoin_full_room_rejected
    env now roomId username isOwner socket rooms room :
  rooms !! roomId = Some room →
  Z.of_nat (JsMap.size (Room.users room))
  = Settings.maxUsers (Room.settings room) →
  Socket.id socket ∈ JsMap.keys (Room.users room) →
  let '(_, rooms', out) :=
    join_room env now roomId username isOwner socket rooms in
  (∃ reply,
     out = [Build_Emit (ToSender (Socket.id socket)) reply]
     ∧ is_error reply
     ∧ (roomId ≠ "" → username ≠ "" → reply = RoomFull))
  ∧ ∃ room',
      rooms' !! roomId = Some room'
      ∧ Room.users room' = Room.users room
      ∧ JsMap.get (Socket.id socket) (Room.users room')
        = JsMap.get (Socket.id socket) (Room.users room)
      ∧ is_Some (JsMap.get (Socket.id socket) (Room.users room')).
Proof.
  intros Hroom Hfull Hin.
  destruct (join_room_full_cases env now roomId username isOwner socket
              rooms room Hroom) as (socket' & reply & -> & Herr & Hfullmsg);
    [lia|].
  split; [exists reply; auto|]. exists room.
  split; [assumption|]. split; [reflexivity|]. split; [reflexivity|].
  apply elem_of_keys_get. assumption.
Qed.

Lemma rejoin_full_room_rejected_witness :
  rooms_r1 !! "r1" = Some room_r1
  ∧ Z.of_nat (JsMap.size (Room.users room_r1))
    = Settings.maxUsers (Room.settings room_r1)
  ∧ (Socket.id socket_B ∈ JsMap.keys (Room.users room_r1))
  ∧ let '(_, rooms', out) :=
      join_room env2 3 "r1" "robert" false socket_B rooms_r1 in
    (∃ reply,
       out = [Build_Emit (ToSender (Socket.id socket_B)) reply]
       ∧ is_error reply
       ∧ ("r1" ≠ "" → "robert" ≠ "" → reply = RoomFull))
    ∧ ∃ room',
        rooms' !! "r1" = Some room'
        ∧ Room.users room' = Room.users room_r1
        ∧ JsMap.get (Socket.id socket_B) (Room.users room')
          = JsMap.get (Socket.id socket_B) (Room.users room_r1)
        ∧ is_Some (JsMap.get (Socket.id socket_B) (Room.users room')).
Proof.
  assert (H3 : rooms_r1 !! "r1" = Some room_r1) by (vm_compute; reflexivity).
  assert (H4 : Z.of_nat (JsMap.size (Room.users room_r1))
               = Settings.maxUsers (Room.settings room_r1)) by reflexivity.
  assert (H5 : Socket.id socket_B ∈ JsMap.keys (Room.users room_r1))
    by (apply (bool_decide_unpack _); vm_compute; exact I).
  exact (conj H3 (conj H4 (conj H5
           (rejoin_full_room_rejected env2 3 "r1" "robert" false socket_B
              rooms_r1 room_r1 H3 H4 H5)))).
Defined.

(** The member B of the full sample room asks to join it again, under
    another name: the request is turned away and the entry of B keeps the
    name it had. *)
Example member_rejoin_is_turned_away :
  join_room env2 3 "r1" "robert" false socket_B rooms_r1
  = (Socket.mk "B" (Some "r1") (Some "robert") {[ "B"; "r1" ]}, rooms_r1,
     [Build_Emit (ToSender "B") RoomFull]).
Proof. vm_compute. reflexivity. Qed.

(** ** Signalling relay *)

Lemma relay_outcome kind target payload socket rooms :
  relay kind target payload socket rooms
  = (socket, rooms,
     [Build_Emit (ToOthers target (Socket.id socket))
        (signal kind payload (Socket.id socket) (Socket.username socket))]).
Proof. destruct kind; reflexivity. Qed.

(** C8. An [offer], [answer] or [ice-candidate] event leaves the registry
    (and the socket) as they were and emits one event of the same kind, with
    the payload, the id of the sender and its username, addressed to the
    transport room [target].  It is received by exactly the live connections
    that are in that transport room and not in the transport room named by
    the id of the sender: the connection [target] itself under these two
    conditions, and it alone when no other connection is in a room of that
    name.  When no live connection is in the transport room [target] (or
    every one that is there is also in the room named by the id of the
    sender, see [unreachable]) nobody receives anything.  The sender gets
    nothing back while it is in the room of its own id, and nobody is ever
    sent an [error] event. *)
Theorem relay_forwards_or_drops kind target payload socket rooms :
  let '(socket', rooms', out) := relay kind target payload socket rooms in
  let forwarded :=
    signal kind payload (Socket.id socket) (Socket.username socket) in
  socket' = socket
  ∧ rooms' = rooms
  ∧ out = [Build_Emit (ToOthers target (Socket.id socket)) forwarded]
  ∧ ∀ sockets : gmap string Socket.t,
      (∀ x m, m ∈ received sockets x out
              ↔ m = forwarded
                ∧ ∃ s, sockets !! x = Some s
                       ∧ target ∈ Socket.rooms s
                       ∧ Socket.id socket ∉ Socket.rooms s)
      ∧ (∀ s, sockets !! target = Some s →
              target ∈ Socket.rooms s →
              Socket.id socket ∉ Socket.rooms s →
              received sockets target out = [forwarded])
      ∧ ((∀ x s, sockets !! x = Some s → target ∈ Socket.rooms s → x = target) →
         ∀ x, x ≠ target → received sockets x out = [])
      ∧ (unreachable sockets target (Socket.id socket) →
         ∀ x, received sockets x out = [])
      ∧ ((∀ s, sockets !! Socket.id socket = Some s →
               Socket.id socket ∈ Socket.rooms s) →
         received sockets (Socket.id socket) out = [])
      ∧ ∀ x, Forall (λ m, ¬ is_error m) (received sockets x out).
Proof.
  rewrite relay_outcome. cbv zeta.
  split; [reflexivity|]. split; [reflexivity|]. split; [reflexivity|].
  intros sockets. split; [|split; [|split; [|split; [|split]]]].
  - intros x m. apply received_others_iff.
  - intros s Hs Hin Hout. rewrite received_one. simpl dest.
    rewrite decide_True; [reflexivity|].
    apply elem_of_recipients_others. eauto.
  - intros Honly x Hne. rewrite received_one. simpl dest.
    rewrite decide_False; [reflexivity|].
    intros (s & Hs & Hin & _)%elem_of_recipients_others.
    exact (Hne (Honly x s Hs Hin)).
  - intros Hnone x. rewrite received_one. simpl dest.
    rewrite decide_False; [reflexivity|].
    intros (s & Hs & Hin & Hout)%elem_of_recipients_others.
    exact (Hnone x s Hs Hout Hin).
  - intros Hown. rewrite received_one. simpl dest.
    rewrite decide_False; [reflexivity|].
    apply sender_not_recipient. exact Hown.
  - intros x. rewrite received_one. simpl dest.
    destruct (decide _); [|constructor].
    constructor; [|constructor]. destruct kind; simpl; auto.
Qed.

(** In the sample state A relays an offer to B, who receives it, and an
    offer to "X", which names no connection and no room: nobody receives
    it. *)
Lemma relay_forwards_or_drops_witness :
  State.sockets st_r1 !! "B" = Some socket_B
  ∧ "B" ∈ Socket.rooms socket_B
  ∧ (Socket.id socket_A ∉ Socket.rooms socket_B)
  ∧ received (State.sockets st_r1) "B"
      (relay KOffer "B" "sdp" socket_A rooms_r1).2
    = [offer "sdp" "A" (Some "alice")]
  ∧ unreachable (State.sockets st_r1) "X" (Socket.id socket_A)
  ∧ ∀ x, received (State.sockets st_r1) x
           (relay KOffer "X" "sdp" socket_A rooms_r1).2 = [].
Proof.
  assert (H1 : State.sockets st_r1 !! "B" = Some socket_B)
    by (vm_compute; reflexivity).
  assert (H2 : "B" ∈ Socket.rooms socket_B)
    by (apply (bool_decide_unpack _); vm_compute; exact I).
  assert (H3 : Socket.id socket_A ∉ Socket.rooms socket_B)
    by (apply (bool_decide_unpack _); vm_compute; exact I).
  assert (Hnone : unreachable (State.sockets st_r1) "X" (Socket.id socket_A))
    by (apply (bool_decide_unpack _); vm_compute; exact I).
  split; [exact H1|]. split; [exact H2|]. split; [exact H3|].
  split; [|split; [exact Hnone|]].
  - pose proof (relay_forwards_or_drops KOffer "B" "sdp" socket_A rooms_r1)
      as H.
    rewrite relay_outcome in H. cbv zeta in H.
    destruct H as (_ & _ & _ & H).
    destruct (H (State.sockets st_r1)) as (_ & Hlive & _).
    rewrite relay_outcome.
    exact (Hlive socket_B H1 H2 H3).
  - pose proof (relay_forwards_or_drops KOffer "X" "sdp" socket_A rooms_r1)
      as H.
    rewrite relay_outcome in H. cbv zeta in H.
    destruct H as (_ & _ & _ & H).
    destruct (H (State.sockets st_r1)) as (_ & _ & _ & Hdrop & _).
    rewrite relay_outcome. exact (Hdrop Hnone).
Defined.

(** The relay is neither private nor dropped for a target that is gone, and
    it does not always reach a live target.  After [stale_target] the
    connection "B" no longer exists, and the offer that A sends to "B" is
    delivered to C, who joined a room of that name.  After [overheard] the
    offer that A sends to the live connection "B" is delivered to B and to C
    alike.  After [shadowed_sender] the live connection "B" is in the room
    named by the id of A, and does not receive the offer that A sends to
    it. *)
Lemma relay_counterexample :
  (let st := (run env2 State.init stale_target).1 in
   State.sockets st !! "B" = None
   ∧ received (State.sockets st) "C"
       (step env2 st (Message "A" 2 (Offer "B" "sdp"))).2
     = [offer "sdp" "A" None])
  ∧ (let st := (run env2 State.init overheard).1 in
     is_Some (State.sockets st !! "B")
     ∧ received (State.sockets st) "B"
         (step env2 st (Message "A" 2 (Offer "B" "sdp"))).2
       = [offer "sdp" "A" None]
     ∧ received (State.sockets st) "C"
         (step env2 st (Message "A" 2 (Offer "B" "sdp"))).2
       = [offer "sdp" "A" None])
  ∧ (let st := (run env2 State.init shadowed_sender).1 in
     (∃ b, State.sockets st !! "B" = Some b ∧ "B" ∈ Socket.rooms b)
     ∧ received (State.sockets st) "B"
         (step env2 st (Message "A" 2 (Offer "B" "sdp"))).2
       = []).
Proof.
  split; [|split].
  - split; vm_compute; reflexivity.
  - split; [|split]; [|vm_compute; reflexivity..].
    apply (bool_decide_unpack _). vm_compute. exact I.
  - split; [|vm_compute; reflexivity].
    eexists. split; [vm_compute; reflexivity|].
    apply (bool_decide_unpack _). vm_compute. exact I.
Qed.

(** ** What the join handlers do to the registry *)

Lemma get_or_create_known env now sid roomId rooms room :
  rooms !! roomId = Some room →
  get_or_create env now sid roomId rooms = (room, rooms).
Proof. intros H. unfold get_or_create. rewrite H. reflexivity. Qed.

Lemma get_or_create_unknown env now sid roomId rooms :
  rooms !! roomId = None →
  get_or_create env now sid roomId rooms
  = (new_room env now sid, <[roomId := new_room env now sid]> rooms).
Proof. intros H. unfold get_or_create. rewrite H. reflexivity. Qed.

Lemma join_room_registry env now roomId username isOwner socket rooms :
  let sid := Socket.id socket in
  let room := joined_room env now sid roomId rooms in
  let rooms' := (join_room env now roomId username isOwner socket rooms).1.2 in
  rooms' = rooms
  ∨ (rooms !! roomId = None
     ∧ room_is_full 0 room = true
     ∧ rooms' = <[roomId := room]> rooms)
  ∨ (room_is_full (JsMap.size (Room.users room)) room = false
     ∧ rooms'
       = <[roomId :=
             Room.set_users
               (JsMap.set sid (joining_user now sid username isOwner room)
                  (Room.users room)) room]> rooms).
Proof.
  intros sid room rooms'. subst rooms' room. unfold join_room, joined_room.
  destruct (negb (truthy roomId) || negb (truthy username)); [left; reflexivity|].
  fold sid. destruct (rooms !! roomId) as [room|] eqn:Hroom.
  - rewrite (get_or_create_known _ _ _ _ _ _ Hroom). simpl.
    destruct (room_is_full _ room) eqn:Hfull; simpl; [left; reflexivity|].
    right. right. auto.
  - rewrite (get_or_create_unknown _ _ _ _ _ Hroom). simpl.
    destruct (room_is_full _ _) eqn:Hfull; simpl.
    + right. left. auto.
    + right. right. split; [reflexivity|]. apply insert_insert_eq.
Qed.

Lemma join_video_room_registry env now roomId username isOwner socket rooms :
  let sid := Socket.id socket in
  let room := joined_room env now sid roomId rooms in
  let rooms' :=
    (join_video_room env now roomId username isOwner socket rooms).1.2 in
  (is_Some (rooms !! roomId) ∧ rooms' = rooms)
  ∨ (rooms !! roomId = None
     ∧ room_is_full 0 room = true
     ∧ rooms' = <[roomId := room]> rooms)
  ∨ (room_is_full (JsMap.size (Room.videoUsers room)) room = false
     ∧ rooms'
       = <[roomId :=
             Room.set_videoUsers
               (JsMap.set sid (joining_user now sid username isOwner room)
                  (Room.videoUsers room)) room]> rooms).
Proof.
  intros sid room rooms'. subst rooms' room.
  unfold join_video_room, joined_room.
  fold sid. destruct (rooms !! roomId) as [room|] eqn:Hroom.
  - rewrite (get_or_create_known _ _ _ _ _ _ Hroom). simpl.
    destruct (room_is_full _ room) eqn:Hfull; simpl; [left; eauto|].
    right. right. auto.
  - rewrite (get_or_create_unknown _ _ _ _ _ Hroom). simpl.
    destruct (room_is_full _ _) eqn:Hfull; simpl.
    + right. left. auto.
    + right. right. split; [reflexivity|]. apply insert_insert_eq.
Qed.

Lemma joined_room_cases env now sid roomId rooms :
  rooms !! roomId = Some (joined_room env now sid roomId rooms)
  ∨ (rooms !! roomId = None
     ∧ joined_room env now sid roomId rooms = new_room env now sid).
Proof.
  unfold joined_room, get_or_create.
  destruct (rooms !! roomId); simpl; auto.
Qed.

(** ** The owner is a member of the general roster *)

Lemma room_owned_iff room : room_owned room ↔ owner_in_roster room.
Proof.
  unfold room_owned, owner_in_roster. split.
  - intros [Hin Hne]. apply Hin. lia.
  - intros Hin. pose proof (size_pos_of_key _ _ Hin). split; [auto | lia].
Qed.

Lemma owner_invariant_lookup rooms rid room :
  owner_invariant rooms → rooms !! rid = Some room → owner_in_roster room.
Proof.
  intros Hinv Hroom. apply (proj1 (room_owned_iff room)).
  exact (Hinv rid room Hroom).
Qed.

Lemma owner_invariant_insert rooms rid room :
  owner_in_roster room → owner_invariant rooms →
  owner_invariant (<[rid := room]> rooms).
Proof.
  intros Hroom Hinv. apply map_Forall_insert_2; [|exact Hinv].
  apply (proj2 (room_owned_iff room)), Hroom.
Qed.

Lemma new_room_not_full env now sid :
  (0 < maxUsers_of env)%Z → room_is_full 0 (new_room env now sid) = false.
Proof.
  intros Hpos. unfold room_is_full. apply bool_decide_eq_false. simpl. lia.
Qed.

Lemma joined_room_unknown env now sid roomId rooms :
  rooms !! roomId = None →
  joined_room env now sid roomId rooms = new_room env now sid.
Proof.
  intros H. unfold joined_room. rewrite get_or_create_unknown by assumption.
  reflexivity.
Qed.

Lemma joined_room_known env now sid roomId rooms room :
  rooms !! roomId = Some room →
  joined_room env now sid roomId rooms = room.
Proof.
  intros H. unfold joined_room. rewrite (get_or_create_known _ _ _ _ _ _ H).
  reflexivity.
Qed.

Section owner_invariant.
Context (env : Env) (rooms : gmap string Room.t).
Hypothesis Hcap : (0 < maxUsers_of env)%Z.
Hypothesis Hinv : owner_invariant rooms.

Lemma join_room_owner_invariant now roomId username isOwner socket :
  owner_invariant (join_room env now roomId username isOwner socket rooms).1.2.
Proof.
  destruct (join_room_registry env now roomId username isOwner socket rooms)
    as [-> | [(Hnone & Hfull & _) | (_ & ->)]].
  - exact Hinv.
  - rewrite (joined_room_unknown _ _ _ _ _ Hnone) in Hfull.
    rewrite new_room_not_full in Hfull by assumption. discriminate.
  - apply owner_invariant_insert; [|exact Hinv].
    unfold owner_in_roster. simpl. apply elem_of_keys_set.
    destruct (joined_room_cases env now (Socket.id socket) roomId rooms)
      as [Hknown | [_ ->]].
    + right. exact (owner_invariant_lookup _ _ _ Hinv Hknown).
    + left. reflexivity.
Qed.

Lemma join_video_room_owner_invariant now roomId username isOwner socket :
  is_Some (rooms !! roomId) →
  owner_invariant
    (join_video_room env now roomId username isOwner socket rooms).1.2.
Proof.
  intros [room Hroom].
  destruct (join_video_room_registry env now roomId username isOwner socket
              rooms) as [[_ ->] | [(Hnone & _) | (_ & ->)]].
  - exact Hinv.
  - congruence.
  - rewrite (joined_room_known _ _ _ _ _ _ Hroom).
    apply owner_invariant_insert; [|exact Hinv].
    exact (owner_invariant_lookup _ _ _ Hinv Hroom).
Qed.

Lemma media_toggle_owner_invariant video audio socket :
  owner_invariant (media_toggle video audio socket rooms).1.2.
Proof.
  unfold media_toggle.
  destruct (current_room socket rooms) as [[rid room]|] eqn:Hcur;
    [|exact Hinv].
  apply current_room_Some in Hcur as [_ Hroom].
  destruct (JsMap.get _ _); [|exact Hinv]. simpl.
  apply owner_invariant_insert; [|exact Hinv].
  exact (owner_invariant_lookup _ _ _ Hinv Hroom).
Qed.

Lemma update_diagram_owner_invariant nodes edges socket :
  owner_invariant (on_update_diagram nodes edges socket rooms).1.2.
Proof.
  unfold on_update_diagram.
  destruct (current_room socket rooms) as [[rid room]|] eqn:Hcur;
    [|exact Hinv].
  apply current_room_Some in Hcur as [_ Hroom]. simpl.
  apply owner_invariant_insert; [|exact Hinv].
  exact (owner_invariant_lookup _ _ _ Hinv Hroom).
Qed.

Lemma leave_video_room_owner_invariant socket :
  owner_invariant (leave_video_room socket rooms).1.2.
Proof.
  unfold leave_video_room.
  destruct (current_room socket rooms) as [[rid room]|] eqn:Hcur;
    [|exact Hinv].
  apply current_room_Some in Hcur as [_ Hroom]. simpl.
  apply owner_invariant_insert; [|exact Hinv].
  exact (owner_invariant_lookup _ _ _ Hinv Hroom).
Qed.

Lemma transfer_ownership_owner_invariant newOwnerId socket :
  keeps_owner_msg socket rooms (TransferOwnership newOwnerId) →
  owner_invariant (transfer_ownership newOwnerId socket rooms).1.2.
Proof.
  unfold transfer_ownership, keeps_owner_msg.
  destruct (current_room socket rooms) as [[rid room]|] eqn:Hcur;
    [|intros _; exact Hinv].
  intros Hnew. case_bool_decide as Hown; [|exact Hinv]. simpl.
  apply owner_invariant_insert; [|exact Hinv].
  unfold owner_in_roster. simpl. rewrite keys_mark_owner. auto.
Qed.

Lemma leave_room_owner_invariant socket :
  owner_invariant (leave_room socket rooms).1.2.
Proof.
  destruct (current_room socket rooms) as [[rid room]|] eqn:Hcur;
    [|rewrite leave_room_elsewhere by assumption; exact Hinv].
  pose proof Hcur as [_ Hroom]%current_room_Some.
  pose proof (owner_invariant_lookup _ _ _ Hinv Hroom) as Hin.
  set (left_over := JsMap.delete (Socket.id socket) (Room.users room)).
  destruct (decide (JsMap.size left_over = 0)) as [Hzero|Hpos].
  { rewrite (leave_room_empty _ _ _ _ Hcur Hzero). simpl.
    apply map_Forall_delete, Hinv. }
  destruct (decide (Room.owner room = Socket.id socket)) as [Hown|Hown].
  - rewrite (leave_room_delegates _ _ _ _ Hcur Hown) by (fold left_over; lia).
    simpl. apply owner_invariant_insert; [|exact Hinv].
    unfold owner_in_roster. simpl. rewrite keys_mark_owner.
    apply first_key_elem. fold left_over. lia.
  - rewrite (leave_room_stays _ _ _ _ Hcur Hown Hpos). simpl.
    apply owner_invariant_insert; [|exact Hinv].
    unfold owner_in_roster. simpl. apply elem_of_keys_delete. auto.
Qed.

(** Every handler keeps the invariant, for a request that satisfies
    [keeps_owner_msg]. *)
Lemma handle_owner_invariant now m socket :
  keeps_owner_msg socket rooms m →
  owner_invariant (handle env now m socket rooms).1.2.
Proof.
  destruct m; simpl handle; intros Hm;
    auto using join_room_owner_invariant, join_video_room_owner_invariant,
      media_toggle_owner_invariant, update_diagram_owner_invariant,
      leave_video_room_owner_invariant, transfer_ownership_owner_invariant,
      leave_room_owner_invariant.
  - unfold start_screen_share. destruct (joined socket); exact Hinv.
  - unfold stop_screen_share. destruct (joined socket); exact Hinv.
  - unfold send_message. destruct (joined socket); exact Hinv.
  - unfold start_recording.
    destruct (current_room socket rooms) as [[rid room]|]; [|exact Hinv].
    destruct (_ && _); exact Hinv.
  - unfold stop_recording.
    destruct (current_room socket rooms) as [[rid room]|]; [|exact Hinv].
    destruct (bool_decide _); exact Hinv.
  - unfold on_draw. destruct (joined socket); exact Hinv.
  - unfold on_clear. destruct (joined socket); exact Hinv.
Qed.
End owner_invariant.

Lemma sweep_lookup now rooms rid room :
  sweep now rooms !! rid = Some room → rooms !! rid = Some room.
Proof. intros H. apply map_lookup_filter_Some in H as [H _]. exact H. Qed.

Lemma step_owner_invariant env st ev :
  (0 < maxUsers_of env)%Z →
  owner_invariant (State.rooms st) →
  keeps_owner st ev →
  owner_invariant (State.rooms (step env st ev).1).
Proof.
  intros Hcap Hinv Hev. destruct ev as [sid|sid now m|sid|roomId|now]; simpl.
  - destruct (State.sockets st !! sid); exact Hinv.
  - simpl in Hev. destruct (State.sockets st !! sid) as [socket|]; [|exact Hinv].
    pose proof (handle_owner_invariant env _ Hcap Hinv now m socket Hev) as H.
    destruct (handle env now m socket (State.rooms st)) as [[s r] o].
    exact H.
  - destruct (State.sockets st !! sid) as [socket|]; [|exact Hinv].
    pose proof (leave_room_owner_invariant _ Hinv socket) as H.
    rewrite <- disconnect_as_leave_room in H.
    destruct (on_disconnect socket (State.rooms st)) as [[s r] o].
    exact H.
  - apply map_Forall_delete, Hinv.
  - intros rid room Hroom. apply sweep_lookup in Hroom.
    exact (Hinv rid room Hroom).
Qed.

Lemma run_cons_state env st ev evs :
  (run env st (ev :: evs)).1 = (run env (step env st ev).1 evs).1.
Proof.
  simpl. destruct (step env st ev) as [st1 out1]. simpl.
  destruct (run env st1 evs) as [st2 out2]. reflexivity.
Qed.

Lemma run_owner_invariant env evs : ∀ st,
  (0 < maxUsers_of env)%Z →
  owner_invariant (State.rooms st) →
  keeps_owner_trace env st evs →
  owner_invariant (State.rooms (run env st evs).1).
Proof.
  induction evs as [|ev evs IH]; intros st Hcap Hinv Htrace; [exact Hinv|].
  destruct Htrace as [Hev Htrace]. rewrite run_cons_state.
  apply IH; [exact Hcap | | exact Htrace].
  exact (step_owner_invariant env st ev Hcap Hinv Hev).
Qed.

(** C1, as the server has it.  With a positive capacity, and as long as no
    [join-video-room] names a room that is not in the registry and no
    [transfer-ownership] of the owner names an id outside the general roster,
    every room of the registry, after every sequence of events, has its
    owner among the keys of its general roster when that roster is not
    empty, and its general roster is not empty. *)
Theorem owner_invariant_reachable env evs :
  (0 < maxUsers_of env)%Z →
  keeps_owner_trace env State.init evs →
  ∀ rid room,
    State.rooms (run env State.init evs).1 !! rid = Some room →
    (0 < JsMap.size (Room.users room) →
     Room.owner room ∈ JsMap.keys (Room.users room))
    ∧ JsMap.size (Room.users room) ≠ 0.
Proof.
  intros Hcap Htrace.
  apply (run_owner_invariant env evs State.init Hcap); [|exact Htrace].
  apply map_Forall_empty.
Qed.

Lemma owner_invariant_reachable_witness :
  (0 < maxUsers_of env2)%Z
  ∧ keeps_owner_trace env2 State.init owner_drops
  ∧ ∀ rid room,
      State.rooms (run env2 State.init owner_drops).1 !! rid = Some room →
      (0 < JsMap.size (Room.users room) →
       Room.owner room ∈ JsMap.keys (Room.users room))
      ∧ JsMap.size (Room.users room) ≠ 0.
Proof.
  assert (H1 : (0 < maxUsers_of env2)%Z) by reflexivity.
  assert (H2 : keeps_owner_trace env2 State.init owner_drops)
    by (simpl; repeat split).
  exact (conj H1 (conj H2 (owner_invariant_reachable env2 owner_drops H1 H2))).
Defined.

(** C1 as stated fails in three ways: a room opened through
    [join-video-room] is in the registry with an empty general roster;
    [transfer-ownership] makes any id the owner, in the roster or not; and
    with a negative capacity a [join-room] creates the room and then turns
    the requester away. *)
Lemma owner_invariant_counterexample :
  (∃ room,
     State.rooms (run env2 State.init video_first).1 !! "r1" = Some room
     ∧ JsMap.size (Room.users room) = 0)
  ∧ (∃ room,
       State.rooms (run env2 State.init handed_to_stranger).1 !! "r1"
       = Some room
       ∧ 0 < JsMap.size (Room.users room)
       ∧ Room.owner room ∉ JsMap.keys (Room.users room))
  ∧ (∃ room,
       State.rooms (run env_negative State.init one_in_r1).1 !! "r1"
       = Some room
       ∧ JsMap.size (Room.users room) = 0)
  ∧ ¬ owner_invariant (State.rooms (run env2 State.init video_first).1)
  ∧ ¬ owner_invariant (State.rooms (run env2 State.init handed_to_stranger).1)
  ∧ ¬ owner_invariant (State.rooms (run env_negative State.init one_in_r1).1).
Proof.
  split; [|split; [|split; [|split; [|split]]]].
  - eexists. split; [vm_compute; reflexivity|]. reflexivity.
  - eexists. split; [vm_compute; reflexivity|]. split; [vm_compute; lia|].
    apply (bool_decide_unpack _). vm_compute. exact I.
  - eexists. split; [vm_compute; reflexivity|]. reflexivity.
  - apply (bool_decide_unpack _). vm_compute. exact I.
  - apply (bool_decide_unpack _). vm_compute. exact I.
  - apply (bool_decide_unpack _). vm_compute. exact I.
Qed.

(** ** The [isOwner] flags *)

Lemma get_Some_elem {V} k (v : V) m : JsMap.get k m = Some v → (k, v) ∈ m.
Proof.
  induction m as [|[k0 v0] m IH]; simpl; [discriminate|].
  destruct (decide (k = k0)) as [->|].
  - intros [= ->]. apply elem_of_cons. auto.
  - intros H. apply elem_of_cons. auto.
Qed.

Lemma bool_decide_eq_sym (a b : string) :
  bool_decide (a = b) = bool_decide (b = a).
Proof. apply bool_decide_ext. split; congruence. Qed.

(** What a join stores: the flag of the payload or-ed with the comparison. *)
Lemma joining_user_isOwner now sid username isOwner room :
  User.isOwner (joining_user now sid username isOwner room)
  = isOwner || bool_decide (sid = Room.owner room).
Proof. simpl. rewrite bool_decide_eq_sym. reflexivity. Qed.

Lemma joining_user_flag_ok now sid username isOwner room :
  (isOwner = true → Room.owner room = sid) →
  entry_flag_ok (Room.owner room)
    (sid, joining_user now sid username isOwner room).
Proof.
  intros Hflag. split; [reflexivity|]. simpl.
  destruct isOwner; simpl; [|apply bool_decide_eq_sym].
  rewrite (Hflag eq_refl). symmetry. apply bool_decide_eq_true. reflexivity.
Qed.

(** A join stores a flag that differs from the comparison when the payload
    says [true] and the requester is not the owner. *)
Lemma joining_user_flag_wrong now sid username room :
  Room.owner room ≠ sid →
  ¬ entry_flag_ok (Room.owner room)
      (sid, joining_user now sid username true room).
Proof.
  intros Hne [_ Hflag]. simpl in Hflag. symmetry in Hflag.
  apply bool_decide_eq_true in Hflag. congruence.
Qed.

Lemma mark_owner_flag_ok o o' m :
  Forall (entry_flag_ok o) m → Forall (entry_flag_ok o') (mark_owner o' m).
Proof.
  intros Hm. unfold mark_owner, JsMap.forEach. apply Forall_fmap.
  eapply Forall_impl; [exact Hm|]. intros [k u] [Hid _].
  unfold entry_flag_ok, compose. simpl in *. subst k. auto.
Qed.

Lemma flags_ok_new_room env now sid : flags_ok (new_room env now sid).
Proof. split; constructor. Qed.

Lemma flags_ok_assign_owner o room :
  flags_ok room → flags_ok (assign_owner o room).
Proof.
  intros [Hu Hv]. split; simpl; eapply mark_owner_flag_ok; eassumption.
Qed.

Lemma flags_ok_without sid room : flags_ok room → flags_ok (without sid room).
Proof. intros [Hu Hv]. split; simpl; apply Forall_delete; assumption. Qed.

Section flags_invariant.
Context (env : Env) (rooms : gmap string Room.t).
Hypothesis Hinv : flags_invariant rooms.

Lemma joined_room_flags_ok now sid roomId :
  flags_ok (joined_room env now sid roomId rooms).
Proof.
  destruct (joined_room_cases env now sid roomId rooms) as [Hk | [_ ->]].
  - exact (Hinv _ _ Hk).
  - apply flags_ok_new_room.
Qed.

Lemma joined_room_owner now sid roomId :
  match rooms !! roomId with
  | Some room => joined_room env now sid roomId rooms = room
  | None => Room.owner (joined_room env now sid roomId rooms) = sid
  end.
Proof.
  unfold joined_room, get_or_create. destruct (rooms !! roomId); reflexivity.
Qed.

Lemma join_room_flags_invariant now roomId username isOwner socket :
  keeps_flags_msg socket rooms (JoinRoom roomId username isOwner) →
  flags_invariant
    (join_room env now roomId username isOwner socket rooms).1.2.
Proof.
  intros Hm.
  destruct (decide (roomId = "" ∨ username = "")) as [Hmiss|Hgiven].
  { rewrite (join_room_missing_field _ _ _ _ _ _ _ Hmiss). exact Hinv. }
  pose proof (joined_room_flags_ok now (Socket.id socket) roomId) as [Hu Hv].
  pose proof (joined_room_owner now (Socket.id socket) roomId) as Hjoined.
  destruct (join_room_registry env now roomId username isOwner socket rooms)
    as [-> | [(_ & _ & ->) | (Hfree & ->)]].
  - exact Hinv.
  - apply map_Forall_insert_2; [|exact Hinv]. split; assumption.
  - apply map_Forall_insert_2; [|exact Hinv]. split; simpl; [|exact Hv].
    apply Forall_set; [|exact Hu].
    apply joining_user_flag_ok. intros ->. simpl in Hm.
    destruct (rooms !! roomId) as [room|] eqn:Hroom; [|exact Hjoined].
    rewrite Hjoined in *.
    destruct Hm as [Hown | [Hid | [Hname | Hfull]]];
      [exact Hown | tauto | tauto | congruence].
Qed.

Lemma join_video_room_flags_invariant now roomId username isOwner socket :
  keeps_flags_msg socket rooms (JoinVideoRoom roomId username isOwner) →
  flags_invariant
    (join_video_room env now roomId username isOwner socket rooms).1.2.
Proof.
  intros Hm.
  pose proof (joined_room_flags_ok now (Socket.id socket) roomId) as [Hu Hv].
  pose proof (joined_room_owner now (Socket.id socket) roomId) as Hjoined.
  destruct (join_video_room_registry env now roomId username isOwner socket
              rooms) as [[_ ->] | [(_ & _ & ->) | (Hfree & ->)]].
  - exact Hinv.
  - apply map_Forall_insert_2; [|exact Hinv]. split; assumption.
  - apply map_Forall_insert_2; [|exact Hinv]. split; simpl; [exact Hu|].
    apply Forall_set; [|exact Hv].
    apply joining_user_flag_ok. intros ->. simpl in Hm.
    destruct (rooms !! roomId) as [room|] eqn:Hroom; [|exact Hjoined].
    rewrite Hjoined in *. destruct Hm as [Hown | Hfull]; congruence.
Qed.

Lemma media_toggle_flags_invariant video audio socket :
  flags_invariant (media_toggle video audio socket rooms).1.2.
Proof.
  unfold media_toggle.
  destruct (current_room socket rooms) as [[rid room]|] eqn:Hcur;
    [|exact Hinv].
  apply current_room_Some in Hcur as [_ Hroom].
  destruct (Hinv _ _ Hroom) as [Hu Hv].
  destruct (JsMap.get _ _) as [user|] eqn:Hget; [|exact Hinv]. simpl.
  apply map_Forall_insert_2; [|exact Hinv]. split; simpl; [exact Hu|].
  apply Forall_set; [|exact Hv].
  apply get_Some_elem in Hget.
  rewrite Forall_forall in Hv. specialize (Hv _ Hget).
  destruct video, audio; exact Hv.
Qed.

Lemma update_diagram_flags_invariant nodes edges socket :
  flags_invariant (on_update_diagram nodes edges socket rooms).1.2.
Proof.
  unfold on_update_diagram.
  destruct (current_room socket rooms) as [[rid room]|] eqn:Hcur;
    [|exact Hinv].
  apply current_room_Some in Hcur as [_ Hroom]. simpl.
  apply map_Forall_insert_2; [|exact Hinv]. exact (Hinv _ _ Hroom).
Qed.

Lemma leave_video_room_flags_invariant socket :
  flags_invariant (leave_video_room socket rooms).1.2.
Proof.
  unfold leave_video_room.
  destruct (current_room socket rooms) as [[rid room]|] eqn:Hcur;
    [|exact Hinv].
  apply current_room_Some in Hcur as [_ Hroom]. simpl.
  destruct (Hinv _ _ Hroom) as [Hu Hv].
  apply map_Forall_insert_2; [|exact Hinv]. split; simpl; [exact Hu|].
  apply Forall_delete, Hv.
Qed.

Lemma transfer_ownership_flags_invariant newOwnerId socket :
  flags_invariant (transfer_ownership newOwnerId socket rooms).1.2.
Proof.
  unfold transfer_ownership.
  destruct (current_room socket rooms) as [[rid room]|] eqn:Hcur;
    [|exact Hinv].
  apply current_room_Some in Hcur as [_ Hroom].
  case_bool_decide; [|exact Hinv]. simpl.
  apply map_Forall_insert_2; [|exact Hinv].
  apply flags_ok_assign_owner, (Hinv _ _ Hroom).
Qed.

Lemma leave_room_flags_invariant socket :
  flags_invariant (leave_room socket rooms).1.2.
Proof.
  destruct (current_room socket rooms) as [[rid room]|] eqn:Hcur;
    [|rewrite leave_room_elsewhere by assumption; exact Hinv].
  pose proof Hcur as [_ Hroom]%current_room_Some.
  pose proof (Hinv _ _ Hroom) as Hok.
  set (left_over := JsMap.delete (Socket.id socket) (Room.users room)).
  destruct (decide (JsMap.size left_over = 0)) as [Hzero|Hpos].
  { rewrite (leave_room_empty _ _ _ _ Hcur Hzero). simpl.
    apply map_Forall_delete, Hinv. }
  destruct (decide (Room.owner room = Socket.id socket)) as [Hown|Hown].
  - rewrite (leave_room_delegates _ _ _ _ Hcur Hown) by (fold left_over; lia).
    simpl. apply map_Forall_insert_2; [|exact Hinv].
    apply flags_ok_assign_owner, flags_ok_without, Hok.
  - rewrite (leave_room_stays _ _ _ _ Hcur Hown Hpos). simpl.
    apply map_Forall_insert_2; [|exact Hinv].
    apply flags_ok_without, Hok.
Qed.

Lemma handle_flags_invariant now m socket :
  keeps_flags_msg socket rooms m →
  flags_invariant (handle env now m socket rooms).1.2.
Proof.
  destruct m; intros Hm; simpl handle;
    auto using join_room_flags_invariant, join_video_room_flags_invariant,
      media_toggle_flags_invariant, update_diagram_flags_invariant,
      leave_video_room_flags_invariant, transfer_ownership_flags_invariant,
      leave_room_flags_invariant.
  - unfold start_screen_share. destruct (joined socket); exact Hinv.
  - unfold stop_screen_share. destruct (joined socket); exact Hinv.
  - unfold send_message. destruct (joined socket); exact Hinv.
  - unfold start_recording.
    destruct (current_room socket rooms) as [[rid room]|]; [|exact Hinv].
    destruct (_ && _); exact Hinv.
  - unfold stop_recording.
    destruct (current_room socket rooms) as [[rid room]|]; [|exact Hinv].
    destruct (bool_decide _); exact Hinv.
  - unfold on_draw. destruct (joined socket); exact Hinv.
  - unfold on_clear. destruct (joined socket); exact Hinv.
Qed.
End flags_invariant.

Lemma step_flags_invariant env st ev :
  keeps_flags st ev →
  flags_invariant (State.rooms st) →
  flags_invariant (State.rooms (step env st ev).1).
Proof.
  intros Hev Hinv. destruct ev as [sid|sid now m|sid|roomId|now]; simpl.
  - destruct (State.sockets st !! sid); exact Hinv.
  - simpl in Hev. destruct (State.sockets st !! sid) as [socket|]; [|exact Hinv].
    pose proof (handle_flags_invariant env _ Hinv now m socket Hev) as H.
    destruct (handle env now m socket (State.rooms st)) as [[s r] o].
    exact H.
  - destruct (State.sockets st !! sid) as [socket|]; [|exact Hinv].
    pose proof (leave_room_flags_invariant _ Hinv socket) as H.
    rewrite <- disconnect_as_leave_room in H.
    destruct (on_disconnect socket (State.rooms st)) as [[s r] o].
    exact H.
  - apply map_Forall_delete, Hinv.
  - intros rid room Hroom. apply sweep_lookup in Hroom.
    exact (Hinv rid room Hroom).
Qed.

Lemma run_flags_invariant env evs : ∀ st,
  keeps_flags_trace env st evs →
  flags_invariant (State.rooms st) →
  flags_invariant (State.rooms (run env st evs).1).
Proof.
  induction evs as [|ev evs IH]; intros st Hevs Hinv; [exact Hinv|].
  destruct Hevs as [Hev Hevs]. rewrite run_cons_state.
  apply IH; [exact Hevs|]. exact (step_flags_invariant env st ev Hev Hinv).
Qed.

(** The condition of [keeps_flags_msg] is what the invariant needs: a
    request that does not satisfy it leaves a roster entry whose flag is not
    the comparison. *)
Lemma flags_invariant_needs env now m socket rooms :
  ¬ keeps_flags_msg socket rooms m →
  ¬ flags_invariant (handle env now m socket rooms).1.2.
Proof.
  intros Hnot Hinv.
  destruct m as [roomId username [|]|roomId username [|]| | | | | | | | | | | | | | |];
    simpl in Hnot; try (apply Hnot; exact I).
  - destruct (rooms !! roomId) as [room|] eqn:Hroom; [|apply Hnot; exact I].
    assert (Hown : Room.owner room ≠ Socket.id socket) by tauto.
    assert (Hid : roomId ≠ "") by tauto.
    assert (Hname : username ≠ "") by tauto.
    assert (Hfree : room_is_full (JsMap.size (Room.users room)) room = false).
    { destruct (room_is_full _ room); [tauto | reflexivity]. }
    simpl in Hinv. unfold join_room in Hinv.
    rewrite (proj2 (truthy_true roomId) Hid),
      (proj2 (truthy_true username) Hname) in Hinv. simpl in Hinv.
    rewrite (get_or_create_known _ _ _ _ _ _ Hroom), Hfree in Hinv.
    simpl in Hinv.
    pose proof (Hinv roomId _ (lookup_insert_eq _ _ _)) as [Hu _].
    simpl in Hu. rewrite Forall_forall in Hu.
    apply (joining_user_flag_wrong now (Socket.id socket) username room Hown).
    apply Hu, get_Some_elem.
    rewrite get_set, decide_True by reflexivity. reflexivity.
  - destruct (rooms !! roomId) as [room|] eqn:Hroom; [|apply Hnot; exact I].
    assert (Hown : Room.owner room ≠ Socket.id socket) by tauto.
    assert (Hfree : room_is_full (JsMap.size (Room.videoUsers room)) room
                    = false).
    { destruct (room_is_full _ room); [tauto | reflexivity]. }
    simpl in Hinv. unfold join_video_room in Hinv.
    rewrite (get_or_create_known _ _ _ _ _ _ Hroom), Hfree in Hinv.
    simpl in Hinv.
    pose proof (Hinv roomId _ (lookup_insert_eq _ _ _)) as [_ Hv].
    simpl in Hv. rewrite Forall_forall in Hv.
    apply (joining_user_flag_wrong now (Socket.id socket) username room Hown).
    apply Hv, get_Some_elem.
    rewrite get_set, decide_True by reflexivity. reflexivity.
Qed.

(** C2, as the server has it.  After every sequence of events in which
    each join that carries [isOwner = true] for a room of the registry comes
    from the owner of that room or is turned away, every entry of the
    general and of the video roster of every room is stored under its own id
    and carries an [isOwner] flag equal to the comparison of that id with
    the owner of the room. *)
Theorem isOwner_flags_reachable env evs :
  keeps_flags_trace env State.init evs →
  ∀ rid room k u,
    State.rooms (run env State.init evs).1 !! rid = Some room →
    (k, u) ∈ Room.users room ∨ (k, u) ∈ Room.videoUsers room →
    User.id u = k
    ∧ User.isOwner u = bool_decide (User.id u = Room.owner room).
Proof.
  intros Hevs rid room k u Hroom Hin.
  assert (Hinv : flags_invariant (State.rooms (run env State.init evs).1)).
  { apply run_flags_invariant; [exact Hevs | apply map_Forall_empty]. }
  destruct (Hinv rid room Hroom) as [Hu Hv].
  rewrite Forall_forall in Hu, Hv.
  destruct Hin as [Hin|Hin]; [exact (Hu _ Hin) | exact (Hv _ Hin)].
Qed.

(** The owner of "r1" joins it, twice, saying that it is the owner; a
    stranger who says so is turned away; the flags are right after the
    trace. *)
Lemma isOwner_flags_reachable_witness :
  keeps_flags_trace env2 State.init owner_says_so
  ∧ ∀ rid room k u,
      State.rooms (run env2 State.init owner_says_so).1 !! rid = Some room →
      (k, u) ∈ Room.users room ∨ (k, u) ∈ Room.videoUsers room →
      User.id u = k
      ∧ User.isOwner u = bool_decide (User.id u = Room.owner room).
Proof.
  assert (H1 : keeps_flags_trace env2 State.init owner_says_so).
  { repeat split.
    - vm_compute. left. reflexivity.
    - vm_compute. right. right. left. reflexivity. }
  exact (conj H1 (isOwner_flags_reachable env2 owner_says_so H1)).
Defined.

(** C2 as stated fails: a join stores the [isOwner] of its payload or-ed
    with the comparison ([joining_user_isOwner]).  B, who joins the room of
    A with [isOwner] set, is stored with the flag set, though A is the
    owner. *)
Lemma isOwner_flag_counterexample :
  ∃ room u,
    State.rooms (run env2 State.init pretender).1 !! "r1" = Some room
    ∧ JsMap.get "B" (Room.users room) = Some u
    ∧ User.id u = "B"
    ∧ Room.owner room = "A"
    ∧ User.isOwner u = true
    ∧ User.isOwner u ≠ bool_decide (User.id u = Room.owner room).
Proof.
  eexists _, _. split; [vm_compute; reflexivity|].
  split; [vm_compute; reflexivity|].
  repeat split. vm_compute. discriminate.
Qed.

(** The join of B in [pretender] is one that [keeps_flags] rules out: B is
    not the owner of "r1", its payload has both fields, and the room has a
    free place. *)
Example pretender_is_ruled_out : ¬ keeps_flags_trace env2 State.init pretender.
Proof.
  intros H. cbn [keeps_flags_trace pretender] in H.
  destruct H as (_ & _ & _ & H & _). vm_compute in H.
  destruct H as [H | [H | [H | H]]]; discriminate.
Qed.

(** ** Joining a second room *)

(** A [join-room] touches no room of the registry but the one it names. *)
Lemma join_room_other_rooms env now roomId username isOwner socket rooms rid :
  rid ≠ roomId →
  (join_room env now roomId username isOwner socket rooms).1.2 !! rid
  = rooms !! rid.
Proof.
  intros Hne.
  destruct (join_room_registry env now roomId username isOwner socket rooms)
    as [-> | [(_ & _ & ->) | (_ & ->)]];
    [reflexivity | |]; apply lookup_insert_ne; congruence.
Qed.

(** The socket forgets the previous room: it leaves the transport room and
    remembers the new one only. *)
Lemma join_room_socket env now roomId username isOwner socket rooms previous :
  roomId ≠ "" → username ≠ "" →
  joined socket = Some previous → previous ≠ roomId →
  let socket' := (join_room env now roomId username isOwner socket rooms).1.1 in
  Socket.roomId socket' = Some roomId ∧ previous ∉ Socket.rooms socket'.
Proof.
  intros Hr Hu Hprev Hne. unfold join_room.
  apply truthy_true in Hr, Hu. rewrite Hr, Hu, Hprev. simpl.
  destruct (get_or_create _ _ _ _ _) as [room rooms1].
  destruct (room_is_full _ _); simpl; (split; [reflexivity|]);
    intros [Hin|Hin]%elem_of_union;
    try (apply elem_of_singleton in Hin; congruence);
    apply elem_of_difference in Hin as [_ Hn];
    apply Hn, elem_of_singleton; reflexivity.
Qed.

(** C9 fails on the server.  A joins "r1" and then "r2": the socket has
    left the transport room "r1" and remembers "r2" only, but the general
    roster of "r1" still holds A, who is still the owner of "r1"; A is a
    key of two general rosters.  When A disconnects, only "r2" is cleaned:
    "r1" stays in the registry with the entry of A. *)
Theorem second_join_keeps_first_roster :
  let st := (run env2 State.init two_rooms).1 in
  let st' := (step env2 st (Disconnect "A")).1 in
  (∃ socket, State.sockets st !! "A" = Some socket
             ∧ Socket.roomId socket = Some "r2"
             ∧ "r1" ∉ Socket.rooms socket)
  ∧ (∃ room1 room2,
       State.rooms st !! "r1" = Some room1
       ∧ State.rooms st !! "r2" = Some room2
       ∧ "A" ∈ JsMap.keys (Room.users room1)
       ∧ "A" ∈ JsMap.keys (Room.users room2)
       ∧ Room.owner room1 = "A")
  ∧ State.sockets st' !! "A" = None
  ∧ State.rooms st' !! "r2" = None
  ∧ ∃ room1, State.rooms st' !! "r1" = Some room1
             ∧ JsMap.keys (Room.users room1) = ["A"].
Proof.
  cbv zeta. split; [|split; [|split; [|split]]].
  - eexists. split; [vm_compute; reflexivity|]. split; [reflexivity|].
    apply (bool_decide_unpack _). vm_compute. exact I.
  - eexists _, _. split; [vm_compute; reflexivity|].
    split; [vm_compute; reflexivity|].
    split; [|split]; [| |reflexivity];
      apply (bool_decide_unpack _); vm_compute; exact I.
  - vm_compute. reflexivity.
  - vm_compute. reflexivity.
  - eexists. split; [vm_compute; reflexivity|]. reflexivity.
Qed.

(** ** The earlier variant *)

(** It stores the flag of the payload in the same way. *)
Lemma legacy_join_stores_caller_flag now roomId username isOwner socket rooms :
  ∃ room u,
    (Legacy.join_room now roomId username isOwner socket rooms).1.2 !! roomId
    = Some room
    ∧ JsMap.get (Socket.id socket) (Legacy.users room) = Some u
    ∧ Legacy.isOwner u
      = isOwner || bool_decide (Legacy.owner room = Socket.id socket).
Proof.
  unfold Legacy.join_room. simpl. eexists _, _.
  split; [apply lookup_insert_eq|]. simpl. rewrite get_set.
  rewrite decide_True by reflexivity. split; reflexivity.
Qed.

(** It does not touch the roster of the previous room either. *)
Lemma legacy_join_other_rooms now roomId username isOwner socket rooms rid :
  rid ≠ roomId →
  (Legacy.join_room now roomId username isOwner socket rooms).1.2 !! rid
  = rooms !! rid.
Proof. intros Hne. unfold Legacy.join_room. simpl. by apply lookup_insert_ne. Qed.

(** It has no capacity: every join is stored. *)
Lemma legacy_join_always_stored now roomId username isOwner socket rooms :
  ∃ room,
    (Legacy.join_room now roomId username isOwner socket rooms).1.2 !! roomId
    = Some room
    ∧ Socket.id socket ∈ JsMap.keys (Legacy.users room).
Proof.
  unfold Legacy.join_room. simpl. eexists.
  split; [apply lookup_insert_eq|]. simpl. apply elem_of_keys_set. auto.
Qed.

(** * Further properties of the handlers *)

Lemma keys_set_in {V} k (v : V) m :
  k ∈ JsMap.keys m → JsMap.keys (JsMap.set k v m) = JsMap.keys m.
Proof.
  induction m as [|[k0 v0] m IH]; simpl.
  - intros H. apply elem_of_nil in H. contradiction.
  - rewrite keys_cons, elem_of_cons. intros H.
    destruct (decide (k = k0)) as [->|Hne]; [reflexivity|].
    rewrite !keys_cons. f_equal. apply IH. destruct H; [contradiction|done].
Qed.

Lemma size_set_le {V} k (v : V) m :
  (JsMap.size (JsMap.set k v m) ≤ S (JsMap.size m))%nat.
Proof.
  unfold JsMap.size. induction m as [|[k0 v0] m IH]; simpl; [lia|].
  destruct (decide (k = k0)); simpl; lia.
Qed.

Lemma size_delete_le {V} k (m : list (string * V)) :
  (JsMap.size (JsMap.delete k m) ≤ JsMap.size m)%nat.
Proof.
  unfold JsMap.size. induction m as [|[k0 v0] m IH]; simpl; [lia|].
  destruct (decide (k = k0)); simpl; lia.
Qed.

Lemma delete_absent {V} k (m : list (string * V)) :
  k ∉ JsMap.keys m → JsMap.delete k m = m.
Proof.
  induction m as [|[k0 v0] m IH]; simpl; [reflexivity|].
  rewrite keys_cons, not_elem_of_cons. intros [Hne Hm].
  destruct (decide (k = k0)); [contradiction|]. f_equal. auto.
Qed.

(** ** Media toggles *)

(** X1. A [media-toggle] of a connection that is in the video roster of its
    room changes the two media flags of its own entry, each one only when the
    payload carries it, and nothing else: every other field of the entry
    (id, username, joinedAt, isOwner, lastSeen), the other entries and the
    order of the video roster, the general roster, the owner and every other
    field of the room, and the other rooms of the registry are as before.
    The new flags are sent to the others in the room. *)
Theorem media_toggle_own_entry video audio socket rooms rid room user :
  current_room socket rooms = Some (rid, room) →
  JsMap.get (Socket.id socket) (Room.videoUsers room) = Some user →
  let '(socket', rooms', out) := media_toggle video audio socket rooms in
  ∃ room' user',
    socket' = socket
    ∧ rooms' !! rid = Some room'
    ∧ JsMap.get (Socket.id socket) (Room.videoUsers room') = Some user'
    ∧ User.videoEnabled user' = or_else video (User.videoEnabled user)
    ∧ User.audioEnabled user' = or_else audio (User.audioEnabled user)
    ∧ User.id user' = User.id user
    ∧ User.username user' = User.username user
    ∧ User.isOwner user' = User.isOwner user
    ∧ User.joinedAt user' = User.joinedAt user
    ∧ User.lastSeen user' = User.lastSeen user
    ∧ (∀ k, k ≠ Socket.id socket →
         JsMap.get k (Room.videoUsers room') = JsMap.get k (Room.videoUsers room))
    ∧ JsMap.keys (Room.videoUsers room') = JsMap.keys (Room.videoUsers room)
    ∧ Room.users room' = Room.users room
    ∧ Room.owner room' = Room.owner room
    ∧ Room.nodes room' = Room.nodes room
    ∧ Room.edges room' = Room.edges room
    ∧ Room.created room' = Room.created room
    ∧ Room.settings room' = Room.settings room
    ∧ (∀ other, other ≠ rid → rooms' !! other = rooms !! other)
    ∧ out = [Build_Emit (ToOthers rid (Socket.id socket))
               (user_media_update (Socket.id socket) (User.videoEnabled user')
                  (User.audioEnabled user') (User.username user))].
Proof.
  intros Hcur Hget. unfold media_toggle. rewrite Hcur, Hget.
  eexists _, _. split; [reflexivity|].
  split; [apply lookup_insert_eq|]. simpl.
  split; [rewrite get_set, decide_True by reflexivity; reflexivity|].
  split; [destruct video, audio; reflexivity|].
  split; [destruct video, audio; reflexivity|].
  split; [destruct video, audio; reflexivity|].
  split; [destruct video, audio; reflexivity|].
  split; [destruct video, audio; reflexivity|].
  split; [destruct video, audio; reflexivity|].
  split; [destruct video, audio; reflexivity|].
  split; [intros k Hk; rewrite get_set, decide_False by exact Hk; reflexivity|].
  split; [apply keys_set_in, elem_of_keys_get; eauto|].
  split; [reflexivity|]. split; [reflexivity|].
  split; [reflexivity|]. split; [reflexivity|].
  split; [reflexivity|]. split; [reflexivity|].
  split; [intros other Hother; apply lookup_insert_ne; congruence|].
  destruct video, audio; reflexivity.
Qed.

Lemma media_toggle_own_entry_witness :
  current_room socket_B rooms_r1_video = Some ("r1", room_r1_video)
  ∧ JsMap.get (Socket.id socket_B) (Room.videoUsers room_r1_video) = Some bob
  ∧ let '(socket', rooms', out) :=
      media_toggle (Some false) None socket_B rooms_r1_video in
    ∃ room' user',
      socket' = socket_B
      ∧ rooms' !! "r1" = Some room'
      ∧ JsMap.get (Socket.id socket_B) (Room.videoUsers room') = Some user'
      ∧ User.videoEnabled user' = or_else (Some false) (User.videoEnabled bob)
      ∧ User.audioEnabled user' = or_else None (User.audioEnabled bob)
      ∧ User.id user' = User.id bob
      ∧ User.username user' = User.username bob
      ∧ User.isOwner user' = User.isOwner bob
      ∧ User.joinedAt user' = User.joinedAt bob
      ∧ User.lastSeen user' = User.lastSeen bob
      ∧ (∀ k, k ≠ Socket.id socket_B →
           JsMap.get k (Room.videoUsers room')
           = JsMap.get k (Room.videoUsers room_r1_video))
      ∧ JsMap.keys (Room.videoUsers room')
        = JsMap.keys (Room.videoUsers room_r1_video)
      ∧ Room.users room' = Room.users room_r1_video
      ∧ Room.owner room' = Room.owner room_r1_video
      ∧ Room.nodes room' = Room.nodes room_r1_video
      ∧ Room.edges room' = Room.edges room_r1_video
      ∧ Room.created room' = Room.created room_r1_video
      ∧ Room.settings room' = Room.settings room_r1_video
      ∧ (∀ other, other ≠ "r1" →
           rooms' !! other = rooms_r1_video !! other)
      ∧ out = [Build_Emit (ToOthers "r1" (Socket.id socket_B))
                 (user_media_update (Socket.id socket_B)
                    (User.videoEnabled user') (User.audioEnabled user')
                    (User.username bob))].
Proof.
  assert (H1 : current_room socket_B rooms_r1_video
               = Some ("r1", room_r1_video)) by (vm_compute; reflexivity).
  assert (H2 : JsMap.get (Socket.id socket_B) (Room.videoUsers room_r1_video)
               = Some bob) by reflexivity.
  exact (conj H1 (conj H2
           (media_toggle_own_entry (Some false) None socket_B rooms_r1_video
              "r1" room_r1_video bob H1 H2))).
Defined.

(** X2. A [media-toggle] of a connection that is not in the video roster of
    its room (or whose room is not in the registry) is ignored: nothing
    changes and nothing is emitted, whatever the general roster holds. *)
Theorem media_toggle_ignored video audio socket rooms :
  (∀ rid room, current_room socket rooms = Some (rid, room) →
               Socket.id socket ∉ JsMap.keys (Room.videoUsers room)) →
  media_toggle video audio socket rooms = (socket, rooms, []).
Proof.
  intros Hnot. unfold media_toggle.
  destruct (current_room socket rooms) as [[rid room]|]; [|reflexivity].
  specialize (Hnot rid room eq_refl).
  destruct (JsMap.get _ _) as [user|] eqn:Hget; [|reflexivity].
  exfalso. apply Hnot, elem_of_keys_get. eauto.
Qed.

Lemma media_toggle_ignored_witness :
  (∀ rid room, current_room socket_B rooms_r1 = Some (rid, room) →
               Socket.id socket_B ∉ JsMap.keys (Room.videoUsers room))
  ∧ media_toggle (Some false) None socket_B rooms_r1 = (socket_B, rooms_r1, []).
Proof.
  assert (H1 : ∀ rid room, current_room socket_B rooms_r1 = Some (rid, room) →
                 Socket.id socket_B ∉ JsMap.keys (Room.videoUsers room)).
  { intros rid room H. vm_compute in H. injection H as <- <-.
    apply (bool_decide_unpack _). vm_compute. exact I. }
  exact (conj H1 (media_toggle_ignored (Some false) None socket_B rooms_r1 H1)).
Defined.

(** ** Recording *)

(** X3. [start-recording] emits [recording-started], to the whole room,
    exactly when the room of the connection is in the registry, the
    connection is its owner and the settings of the room allow recording;
    otherwise it emits nothing.  It never changes the registry. *)
Theorem start_recording_gate socket rooms :
  let '(socket', rooms', out) := start_recording socket rooms in
  socket' = socket ∧ rooms' = rooms
  ∧ ((∃ rid room,
        current_room socket rooms = Some (rid, room)
        ∧ Room.owner room = Socket.id socket
        ∧ Settings.allowRecording (Room.settings room) = true
        ∧ out = [Build_Emit (ToRoom rid)
                   (recording_started (Socket.username socket))])
     ∨ (out = []
        ∧ ∀ rid room,
            current_room socket rooms = Some (rid, room) →
            Room.owner room ≠ Socket.id socket
            ∨ Settings.allowRecording (Room.settings room) = false)).
Proof.
  unfold start_recording.
  destruct (current_room socket rooms) as [[rid room]|] eqn:Hcur.
  - case_bool_decide as Hown; simpl.
    + destruct (Settings.allowRecording _) eqn:Hallow; simpl.
      * split; [reflexivity|]. split; [reflexivity|]. left.
        exists rid, room. auto.
      * split; [reflexivity|]. split; [reflexivity|]. right.
        split; [reflexivity|]. intros ? ? [= <- <-]. auto.
    + split; [reflexivity|]. split; [reflexivity|]. right.
      split; [reflexivity|]. intros ? ? [= <- <-]. auto.
  - split; [reflexivity|]. split; [reflexivity|]. right.
    split; [reflexivity|]. intros ? ? [=].
Qed.

(** X4. [stop-recording] emits [recording-stopped], to the whole room,
    exactly when the room of the connection is in the registry and the
    connection is its owner, whether the settings allow recording or not;
    otherwise it emits nothing.  It never changes the registry. *)
Theorem stop_recording_gate socket rooms :
  let '(socket', rooms', out) := stop_recording socket rooms in
  socket' = socket ∧ rooms' = rooms
  ∧ ((∃ rid room,
        current_room socket rooms = Some (rid, room)
        ∧ Room.owner room = Socket.id socket
        ∧ out = [Build_Emit (ToRoom rid) recording_stopped])
     ∨ (out = []
        ∧ ∀ rid room,
            current_room socket rooms = Some (rid, room) →
            Room.owner room ≠ Socket.id socket)).
Proof.
  unfold stop_recording.
  destruct (current_room socket rooms) as [[rid room]|] eqn:Hcur.
  - case_bool_decide as Hown.
    + split; [reflexivity|]. split; [reflexivity|]. left.
      exists rid, room. auto.
    + split; [reflexivity|]. split; [reflexivity|]. right.
      split; [reflexivity|]. intros ? ? [= <- <-]. auto.
  - split; [reflexivity|]. split; [reflexivity|]. right.
    split; [reflexivity|]. intros ? ? [=].
Qed.

(** ** Chat and drawing *)

(** X5. A chat message changes nothing in the registry and reaches every
    live connection that is in the transport room of the sender's room, the
    sender included; nobody else receives it, and nobody at all when the
    sender has no room.  The room need not be in the registry. *)
Theorem chat_reaches_the_room now text socket rooms :
  let '(socket', rooms', out) := send_message now text socket rooms in
  socket' = socket ∧ rooms' = rooms
  ∧ ∀ (sockets : gmap string Socket.t) x m,
      m ∈ received sockets x out
      ↔ m = new_message now (Socket.username socket) (Socket.id socket) text
              now
        ∧ ∃ rid s,
            joined socket = Some rid
            ∧ sockets !! x = Some s ∧ rid ∈ Socket.rooms s.
Proof.
  unfold send_message. destruct (joined socket) as [rid|].
  - split; [reflexivity|]. split; [reflexivity|]. intros sockets x m.
    rewrite elem_of_received. split.
    + intros (e & ->%list_elem_of_singleton & <- & Hto).
      apply elem_of_recipients_room in Hto as (s & Hs & Hin).
      split; [reflexivity|]. eauto.
    + intros [-> (rid' & s & [= <-] & Hs & Hin)]. eexists.
      split; [apply list_elem_of_singleton; reflexivity|].
      split; [reflexivity|]. apply elem_of_recipients_room. eauto.
  - split; [reflexivity|]. split; [reflexivity|]. intros sockets x m.
    rewrite elem_of_received. split.
    + intros (e & He & _). apply elem_of_nil in He. contradiction.
    + intros [_ (rid' & s & [=] & _)].
Qed.

Lemma received_nothing sockets x m : m ∈ received sockets x [] ↔ False.
Proof.
  rewrite elem_of_received. split; [|contradiction].
  intros (e & He & _). apply elem_of_nil in He. contradiction.
Qed.

(** X6. A [draw] and a [clear] change nothing in the registry; they reach
    the live connections that are in the transport room of the sender's room
    and not in the transport room named by the id of the sender, and those
    only.  The sender is therefore not among the receivers as long as it is
    in the room of its own id. *)
Theorem strokes_reach_the_others data socket rooms :
  (on_draw data socket rooms).1 = (socket, rooms)
  ∧ (on_clear socket rooms).1 = (socket, rooms)
  ∧ ∀ sockets : gmap string Socket.t,
      (∀ x m,
         (m ∈ received sockets x (on_draw data socket rooms).2
          ↔ m = draw data
            ∧ ∃ rid s, joined socket = Some rid
                       ∧ sockets !! x = Some s
                       ∧ rid ∈ Socket.rooms s
                       ∧ Socket.id socket ∉ Socket.rooms s)
         ∧ (m ∈ received sockets x (on_clear socket rooms).2
            ↔ m = clear
              ∧ ∃ rid s, joined socket = Some rid
                         ∧ sockets !! x = Some s
                         ∧ rid ∈ Socket.rooms s
                         ∧ Socket.id socket ∉ Socket.rooms s))
      ∧ ((∀ s, sockets !! Socket.id socket = Some s →
               Socket.id socket ∈ Socket.rooms s) →
         received sockets (Socket.id socket) (on_draw data socket rooms).2 = []
         ∧ received sockets (Socket.id socket) (on_clear socket rooms).2 = []).
Proof.
  unfold on_draw, on_clear. destruct (joined socket) as [rid|]; simpl.
  - split; [reflexivity|]. split; [reflexivity|]. intros sockets.
    split.
    + intros x m. rewrite !received_others_iff. split; split.
      * intros (-> & s & Hs & Hin & Hout). eauto 10.
      * intros (-> & rid' & s & [= <-] & Hs & Hin & Hout). eauto.
      * intros (-> & s & Hs & Hin & Hout). eauto 10.
      * intros (-> & rid' & s & [= <-] & Hs & Hin & Hout). eauto.
    + intros Hown. rewrite !received_one. simpl dest.
      rewrite !decide_False by (apply sender_not_recipient; exact Hown).
      split; reflexivity.
  - split; [reflexivity|]. split; [reflexivity|]. intros sockets.
    split; [|intros _; split; reflexivity].
    intros x m. rewrite !received_nothing. split; split; try contradiction.
    + intros (_ & rid' & s & [=] & _).
    + intros (_ & rid' & s & [=] & _).
Qed.

(** In the sample state a stroke of A reaches B and not A. *)
Lemma strokes_reach_the_others_witness :
  (∀ s, State.sockets st_r1 !! Socket.id socket_A = Some s →
        Socket.id socket_A ∈ Socket.rooms s)
  ∧ received (State.sockets st_r1) "A" (on_draw "line" socket_A rooms_r1).2
    = []
  ∧ received (State.sockets st_r1) "B" (on_draw "line" socket_A rooms_r1).2
    = [draw "line"].
Proof.
  assert (Hown : ∀ s, State.sockets st_r1 !! Socket.id socket_A = Some s →
                      Socket.id socket_A ∈ Socket.rooms s).
  { intros s Hs.
    assert (Ha : State.sockets st_r1 !! Socket.id socket_A = Some socket_A)
      by (vm_compute; reflexivity).
    rewrite Ha in Hs. injection Hs as <-.
    apply (bool_decide_unpack _). vm_compute. exact I. }
  split; [exact Hown|]. split.
  - exact (proj1 (proj2 (proj2 (proj2
             (strokes_reach_the_others "line" socket_A rooms_r1))
             (State.sockets st_r1)) Hown)).
  - vm_compute. reflexivity.
Defined.

(** A connection that joined the room named by its own id and then another
    room has left the room of its own id: its strokes come back to it. *)
Example own_stroke_comes_back :
  let st := (run env2 State.init left_own_room).1 in
  ∃ a, State.sockets st !! "A" = Some a
       ∧ ("A" ∉ Socket.rooms a)
       ∧ received (State.sockets st) "A" (on_draw "line" a (State.rooms st)).2
         = [draw "line"].
Proof.
  eexists. split; [vm_compute; reflexivity|].
  split; [apply (bool_decide_unpack _); vm_compute; exact I|].
  vm_compute. reflexivity.
Qed.

(** ** The video roster *)

(** X7. [leave-video-room] removes the connection from the video roster of
    its room and from nothing else: the general roster and the owner are as
    they were, the other video entries too, and the room stays in the
    registry, also when both of its rosters are empty afterwards and when the
    one who left is the owner. *)
Theorem leave_video_room_keeps_general socket rooms rid room :
  current_room socket rooms = Some (rid, room) →
  let '(socket', rooms', out) := leave_video_room socket rooms in
  ∃ room',
    socket' = socket
    ∧ rooms' !! rid = Some room'
    ∧ Room.users room' = Room.users room
    ∧ Room.owner room' = Room.owner room
    ∧ (Socket.id socket ∉ JsMap.keys (Room.videoUsers room'))
    ∧ (∀ k, k ≠ Socket.id socket →
         JsMap.get k (Room.videoUsers room') = JsMap.get k (Room.videoUsers room))
    ∧ out = [Build_Emit (ToOthers rid (Socket.id socket))
               (video_user_left (Socket.id socket)
                  (JsMap.values (Room.videoUsers room')))].
Proof.
  intros Hcur. unfold leave_video_room. rewrite Hcur.
  eexists. split; [reflexivity|]. split; [apply lookup_insert_eq|]. simpl.
  split; [reflexivity|]. split; [reflexivity|].
  split; [rewrite elem_of_keys_delete; tauto|].
  split; [|reflexivity].
  intros k Hk. rewrite get_delete, decide_False by exact Hk. reflexivity.
Qed.

Lemma leave_video_room_keeps_general_witness :
  current_room socket_A rooms_video_only = Some ("r1", room_video_only)
  ∧ let '(socket', rooms', out) := leave_video_room socket_A rooms_video_only in
    ∃ room',
      socket' = socket_A
      ∧ rooms' !! "r1" = Some room'
      ∧ Room.users room' = Room.users room_video_only
      ∧ Room.owner room' = Room.owner room_video_only
      ∧ (Socket.id socket_A ∉ JsMap.keys (Room.videoUsers room'))
      ∧ (∀ k, k ≠ Socket.id socket_A →
           JsMap.get k (Room.videoUsers room')
           = JsMap.get k (Room.videoUsers room_video_only))
      ∧ out = [Build_Emit (ToOthers "r1" (Socket.id socket_A))
                 (video_user_left (Socket.id socket_A)
                    (JsMap.values (Room.videoUsers room')))].
Proof.
  assert (H1 : current_room socket_A rooms_video_only
               = Some ("r1", room_video_only)) by (vm_compute; reflexivity).
  exact (conj H1
           (leave_video_room_keeps_general socket_A rooms_video_only "r1"
              room_video_only H1)).
Defined.

(** X8. A [join-video-room] for a room of the registry whose video roster
    holds [maxUsers] entries or more is answered with the error [Video room is
    full], to the requester, and leaves the registry as it was; there is no
    required-field check on this path.  The connection is nevertheless
    associated with the room and put in its transport room. *)
Theorem join_video_full_rejected
    env now roomId username isOwner socket rooms room :
  rooms !! roomId = Some room →
  (Settings.maxUsers (Room.settings room)
   ≤ Z.of_nat (JsMap.size (Room.videoUsers room)))%Z →
  let '(socket', rooms', out) :=
    join_video_room env now roomId username isOwner socket rooms in
  rooms' = rooms
  ∧ out = [Build_Emit (ToSender (Socket.id socket))
             (error "Video room is full" None)]
  ∧ Socket.roomId socket' = Some roomId
  ∧ roomId ∈ Socket.rooms socket'.
Proof.
  intros Hroom Hfull. unfold join_video_room.
  rewrite (get_or_create_known _ _ _ _ _ _ Hroom).
  apply room_is_full_true in Hfull. rewrite Hfull. simpl.
  repeat split. apply elem_of_union. left. apply elem_of_singleton. reflexivity.
Qed.

Lemma join_video_full_rejected_witness :
  rooms_video_only !! "r1" = Some room_video_only
  ∧ (Settings.maxUsers (Room.settings room_video_only)
     ≤ Z.of_nat (JsMap.size (Room.videoUsers room_video_only)))%Z
  ∧ let '(socket', rooms', out) :=
      join_video_room env2 3 "r1" "" false socket_C rooms_video_only in
    rooms' = rooms_video_only
    ∧ out = [Build_Emit (ToSender (Socket.id socket_C))
               (error "Video room is full" None)]
    ∧ Socket.roomId socket' = Some "r1"
    ∧ "r1" ∈ Socket.rooms socket'.
Proof.
  assert (H1 : rooms_video_only !! "r1" = Some room_video_only)
    by (vm_compute; reflexivity).
  assert (H2 : (Settings.maxUsers (Room.settings room_video_only)
                ≤ Z.of_nat (JsMap.size (Room.videoUsers room_video_only)))%Z)
    by (vm_compute; discriminate).
  exact (conj H1 (conj H2
           (join_video_full_rejected env2 3 "r1" "" false socket_C
              rooms_video_only room_video_only H1 H2))).
Defined.

(** X9. A [join-video-room] for a room of the registry whose video roster is
    below capacity stores the entry of the requester in the video roster and
    touches neither the general roster (which may be full, or may not hold
    the requester) nor the owner nor the other video entries.  The socket is
    put in the transport room without leaving any room it was in. *)
Theorem join_video_accepted env now roomId username isOwner socket rooms room :
  rooms !! roomId = Some room →
  (Z.of_nat (JsMap.size (Room.videoUsers room))
   < Settings.maxUsers (Room.settings room))%Z →
  let '(socket', rooms', out) :=
    join_video_room env now roomId username isOwner socket rooms in
  ∃ room',
    rooms' !! roomId = Some room'
    ∧ (∀ rid, rid ≠ roomId → rooms' !! rid = rooms !! rid)
    ∧ Room.users room' = Room.users room
    ∧ Room.owner room' = Room.owner room
    ∧ JsMap.get (Socket.id socket) (Room.videoUsers room')
      = Some (User.mk (Socket.id socket) username now
                (isOwner || bool_decide (Room.owner room = Socket.id socket))
                true true now)
    ∧ (∀ k, k ≠ Socket.id socket →
         JsMap.get k (Room.videoUsers room') = JsMap.get k (Room.videoUsers room))
    ∧ Socket.roomId socket' = Some roomId
    ∧ Socket.rooms socket' = {[ roomId ]} ∪ Socket.rooms socket
    ∧ out = [Build_Emit (ToSender (Socket.id socket))
               (video_room_state (JsMap.values (Room.videoUsers room'))
                  (bool_decide (Room.owner room = Socket.id socket)));
             Build_Emit (ToOthers roomId (Socket.id socket))
               (video_user_joined (Socket.id socket) username
                  (bool_decide (Room.owner room = Socket.id socket))
                  true true (JsMap.values (Room.videoUsers room')))].
Proof.
  intros Hroom Hfree. unfold join_video_room.
  rewrite (get_or_create_known _ _ _ _ _ _ Hroom).
  assert (room_is_full (JsMap.size (Room.videoUsers room)) room = false) as ->.
  { unfold room_is_full. apply bool_decide_eq_false. lia. }
  eexists. split; [apply lookup_insert_eq|].
  split; [intros rid Hne; apply lookup_insert_ne; congruence|]. simpl.
  split; [reflexivity|]. split; [reflexivity|].
  split; [rewrite get_set, decide_True by reflexivity; reflexivity|].
  split; [intros k Hk; rewrite get_set, decide_False by exact Hk; reflexivity|].
  repeat split.
Qed.

Lemma join_video_accepted_witness :
  rooms_r1 !! "r1" = Some room_r1
  ∧ (Z.of_nat (JsMap.size (Room.videoUsers room_r1))
     < Settings.maxUsers (Room.settings room_r1))%Z
  ∧ let '(socket', rooms', out) :=
      join_video_room env2 3 "r1" "carol" false socket_C rooms_r1 in
    ∃ room',
      rooms' !! "r1" = Some room'
      ∧ (∀ rid, rid ≠ "r1" → rooms' !! rid = rooms_r1 !! rid)
      ∧ Room.users room' = Room.users room_r1
      ∧ Room.owner room' = Room.owner room_r1
      ∧ JsMap.get (Socket.id socket_C) (Room.videoUsers room')
        = Some (User.mk (Socket.id socket_C) "carol" 3
                  (false || bool_decide (Room.owner room_r1 = Socket.id socket_C))
                  true true 3)
      ∧ (∀ k, k ≠ Socket.id socket_C →
           JsMap.get k (Room.videoUsers room')
           = JsMap.get k (Room.videoUsers room_r1))
      ∧ Socket.roomId socket' = Some "r1"
      ∧ Socket.rooms socket' = {[ "r1" ]} ∪ Socket.rooms socket_C
      ∧ out = [Build_Emit (ToSender (Socket.id socket_C))
                 (video_room_state (JsMap.values (Room.videoUsers room'))
                    (bool_decide (Room.owner room_r1 = Socket.id socket_C)));
               Build_Emit (ToOthers "r1" (Socket.id socket_C))
                 (video_user_joined (Socket.id socket_C) "carol"
                    (bool_decide (Room.owner room_r1 = Socket.id socket_C))
                    true true (JsMap.values (Room.videoUsers room')))].
Proof.
  assert (H1 : rooms_r1 !! "r1" = Some room_r1) by (vm_compute; reflexivity).
  assert (H2 : (Z.of_nat (JsMap.size (Room.videoUsers room_r1))
                < Settings.maxUsers (Room.settings room_r1))%Z)
    by (vm_compute; reflexivity).
  exact (conj H1 (conj H2
           (join_video_accepted env2 3 "r1" "carol" false socket_C rooms_r1
              room_r1 H1 H2))).
Defined.

(** ** Joining the general roster *)

Lemma keys_set_new {V} k (v : V) m :
  k ∉ JsMap.keys m → JsMap.keys (JsMap.set k v m) = (JsMap.keys m ++ [k])%list.
Proof.
  induction m as [|[k0 v0] m IH]; simpl; [reflexivity|].
  rewrite keys_cons, not_elem_of_cons. intros [Hne Hm].
  destruct (decide (k = k0)); [contradiction|].
  rewrite keys_cons, IH by exact Hm. reflexivity.
Qed.

Lemma size_set_new {V} k (v : V) m :
  k ∉ JsMap.keys m → JsMap.size (JsMap.set k v m) = S (JsMap.size m).
Proof.
  intros Hk. rewrite <- !size_keys, keys_set_new by exact Hk.
  rewrite length_app. simpl. lia.
Qed.

(** X10. A [join-room] with its required fields, for a room of the registry
    whose general roster is below capacity, stores the entry of the
    requester: a newcomer goes to the end of the iteration order of the
    roster, a member that joins again keeps its place and has its entry
    rewritten (name, time of joining, media flags back to enabled).  The other
    entries, the video roster, the owner and the diagram are as before, the
    roster is within capacity afterwards, no other room is touched, and the
    socket is associated with the room and in its transport room. *)
Theorem join_room_accepted env now roomId username isOwner socket rooms room :
  roomId ≠ "" → username ≠ "" →
  rooms !! roomId = Some room →
  (Z.of_nat (JsMap.size (Room.users room))
   < Settings.maxUsers (Room.settings room))%Z →
  let '(socket', rooms', out) :=
    join_room env now roomId username isOwner socket rooms in
  ∃ room',
    rooms' !! roomId = Some room'
    ∧ (∀ rid, rid ≠ roomId → rooms' !! rid = rooms !! rid)
    ∧ JsMap.get (Socket.id socket) (Room.users room')
      = Some (User.mk (Socket.id socket) username now
                (isOwner || bool_decide (Room.owner room = Socket.id socket))
                true true now)
    ∧ (∀ k, k ≠ Socket.id socket →
         JsMap.get k (Room.users room') = JsMap.get k (Room.users room))
    ∧ (Socket.id socket ∈ JsMap.keys (Room.users room) →
       JsMap.keys (Room.users room') = JsMap.keys (Room.users room))
    ∧ (Socket.id socket ∉ JsMap.keys (Room.users room) →
       JsMap.keys (Room.users room')
       = (JsMap.keys (Room.users room) ++ [Socket.id socket])%list)
    ∧ (Z.of_nat (JsMap.size (Room.users room'))
       ≤ Settings.maxUsers (Room.settings room'))%Z
    ∧ Room.videoUsers room' = Room.videoUsers room
    ∧ Room.owner room' = Room.owner room
    ∧ Room.nodes room' = Room.nodes room
    ∧ Room.edges room' = Room.edges room
    ∧ Socket.roomId socket' = Some roomId
    ∧ roomId ∈ Socket.rooms socket'
    ∧ out = [Build_Emit (ToSender (Socket.id socket))
               (room_state (Room.nodes room) (Room.edges room)
                  (JsMap.values (Room.users room'))
                  (bool_decide (Room.owner room = Socket.id socket))
                  (Room.settings room));
             Build_Emit (ToOthers roomId (Socket.id socket))
               (user_joined username (Socket.id socket)
                  (JsMap.values (Room.users room')));
             Build_Emit (ToRoom roomId)
               (users_updated (JsMap.values (Room.users room')))].
Proof.
  intros Hr Hu Hroom Hfree. unfold join_room.
  apply truthy_true in Hr, Hu. rewrite Hr, Hu. simpl.
  rewrite (get_or_create_known _ _ _ _ _ _ Hroom).
  assert (room_is_full (JsMap.size (Room.users room)) room = false) as ->.
  { unfold room_is_full. apply bool_decide_eq_false. lia. }
  eexists. split; [apply lookup_insert_eq|].
  split; [intros rid Hne; apply lookup_insert_ne; congruence|]. simpl.
  split; [rewrite get_set, decide_True by reflexivity; reflexivity|].
  split; [intros k Hk; rewrite get_set, decide_False by exact Hk; reflexivity|].
  split; [apply keys_set_in|]. split; [apply keys_set_new|].
  split.
  { pose proof (size_set_le (Socket.id socket)
                  (joining_user now (Socket.id socket) username isOwner room)
                  (Room.users room)). lia. }
  repeat split.
  destruct (joined socket); simpl; apply elem_of_union; left;
    apply elem_of_singleton; reflexivity.
Qed.

Lemma join_room_accepted_witness :
  "r1" ≠ "" ∧ "bob" ≠ ""
  ∧ rooms_solo !! "r1" = Some room_solo
  ∧ (Z.of_nat (JsMap.size (Room.users room_solo))
     < Settings.maxUsers (Room.settings room_solo))%Z
  ∧ let '(socket', rooms', out) :=
      join_room env2 2 "r1" "bob" false (Socket.fresh "B") rooms_solo in
    ∃ room',
      rooms' !! "r1" = Some room'
      ∧ (∀ rid, rid ≠ "r1" → rooms' !! rid = rooms_solo !! rid)
      ∧ JsMap.get "B" (Room.users room')
        = Some (User.mk "B" "bob" 2
                  (false || bool_decide (Room.owner room_solo = "B"))
                  true true 2)
      ∧ (∀ k, k ≠ "B" →
           JsMap.get k (Room.users room') = JsMap.get k (Room.users room_solo))
      ∧ ("B" ∈ JsMap.keys (Room.users room_solo) →
         JsMap.keys (Room.users room') = JsMap.keys (Room.users room_solo))
      ∧ ("B" ∉ JsMap.keys (Room.users room_solo) →
         JsMap.keys (Room.users room')
         = (JsMap.keys (Room.users room_solo) ++ ["B"])%list)
      ∧ (Z.of_nat (JsMap.size (Room.users room'))
         ≤ Settings.maxUsers (Room.settings room'))%Z
      ∧ Room.videoUsers room' = Room.videoUsers room_solo
      ∧ Room.owner room' = Room.owner room_solo
      ∧ Room.nodes room' = Room.nodes room_solo
      ∧ Room.edges room' = Room.edges room_solo
      ∧ Socket.roomId socket' = Some "r1"
      ∧ "r1" ∈ Socket.rooms socket'
      ∧ out = [Build_Emit (ToSender "B")
                 (room_state (Room.nodes room_solo) (Room.edges room_solo)
                    (JsMap.values (Room.users room'))
                    (bool_decide (Room.owner room_solo = "B"))
                    (Room.settings room_solo));
               Build_Emit (ToOthers "r1" "B")
                 (user_joined "bob" "B" (JsMap.values (Room.users room')));
               Build_Emit (ToRoom "r1")
                 (users_updated (JsMap.values (Room.users room')))].
Proof.
  assert (H1 : "r1" ≠ "") by discriminate.
  assert (H2 : "bob" ≠ "") by discriminate.
  assert (H3 : rooms_solo !! "r1" = Some room_solo) by (vm_compute; reflexivity).
  assert (H4 : (Z.of_nat (JsMap.size (Room.users room_solo))
                < Settings.maxUsers (Room.settings room_solo))%Z)
    by (vm_compute; reflexivity).
  exact (conj H1 (conj H2 (conj H3 (conj H4
           (join_room_accepted env2 2 "r1" "bob" false (Socket.fresh "B")
              rooms_solo room_solo H1 H2 H3 H4))))).
Defined.

(** X11. A [join-room] with its required fields for a room id that is not in
    the registry creates the room, when the configured capacity is positive:
    the requester is its owner and its only general participant, stored with
    the owner flag set whatever the payload says; the diagram and the video
    roster are empty, the creation time is the time of the join and the
    settings come from the configuration. *)
Theorem first_join_creates_room env now roomId username isOwner socket rooms :
  roomId ≠ "" → username ≠ "" →
  rooms !! roomId = None →
  (0 < maxUsers_of env)%Z →
  let '(socket', rooms', out) :=
    join_room env now roomId username isOwner socket rooms in
  let user := User.mk (Socket.id socket) username now true true true now in
  let settings := Settings.mk (maxUsers_of env) true true in
  rooms' !! roomId
  = Some (Room.mk [] [] [(Socket.id socket, user)] (Socket.id socket) [] now
            settings)
  ∧ (∀ rid, rid ≠ roomId → rooms' !! rid = rooms !! rid)
  ∧ out = [Build_Emit (ToSender (Socket.id socket))
             (room_state [] [] [user] true settings);
           Build_Emit (ToOthers roomId (Socket.id socket))
             (user_joined username (Socket.id socket) [user]);
           Build_Emit (ToRoom roomId) (users_updated [user])].
Proof.
  intros Hr Hu Hroom Hcap. unfold join_room.
  apply truthy_true in Hr, Hu. rewrite Hr, Hu. simpl.
  rewrite (get_or_create_unknown _ _ _ _ _ Hroom). simpl.
  change (JsMap.size []) with 0.
  rewrite new_room_not_full by exact Hcap. cbv zeta.
  unfold joining_user. simpl.
  rewrite bool_decide_eq_true_2 by reflexivity. rewrite orb_true_r.
  split; [rewrite insert_insert_eq; apply lookup_insert_eq|].
  split; [|reflexivity].
  intros rid Hne. rewrite !lookup_insert_ne by congruence. reflexivity.
Qed.

Lemma first_join_creates_room_witness :
  "r9" ≠ "" ∧ "carol" ≠ ""
  ∧ rooms_r1 !! "r9" = None
  ∧ (0 < maxUsers_of env2)%Z
  ∧ let '(socket', rooms', out) :=
      join_room env2 5 "r9" "carol" false socket_C rooms_r1 in
    let user := User.mk (Socket.id socket_C) "carol" 5 true true true 5 in
    let settings := Settings.mk (maxUsers_of env2) true true in
    rooms' !! "r9"
    = Some (Room.mk [] [] [(Socket.id socket_C, user)] (Socket.id socket_C)
              [] 5 settings)
    ∧ (∀ rid, rid ≠ "r9" → rooms' !! rid = rooms_r1 !! rid)
    ∧ out = [Build_Emit (ToSender (Socket.id socket_C))
               (room_state [] [] [user] true settings);
             Build_Emit (ToOthers "r9" (Socket.id socket_C))
               (user_joined "carol" (Socket.id socket_C) [user]);
             Build_Emit (ToRoom "r9") (users_updated [user])].
Proof.
  assert (H1 : "r9" ≠ "") by discriminate.
  assert (H2 : "carol" ≠ "") by discriminate.
  assert (H3 : rooms_r1 !! "r9" = None) by (vm_compute; reflexivity).
  assert (H4 : (0 < maxUsers_of env2)%Z) by reflexivity.
  exact (conj H1 (conj H2 (conj H3 (conj H4
           (first_join_creates_room env2 5 "r9" "carol" false socket_C
              rooms_r1 H1 H2 H3 H4))))).
Defined.

(** ** Ownership transfer requested by the owner *)

Lemma get_forEach {V} (f : V → string → V) k (m : list (string * V)) :
  JsMap.get k (JsMap.forEach f m) = (λ v, f v k) <$> JsMap.get k m.
Proof.
  unfold JsMap.forEach. induction m as [|[k0 v0] m IH]; simpl; [reflexivity|].
  destruct (decide (k = k0)) as [->|]; [reflexivity | exact IH].
Qed.

Lemma get_mark_owner o k m :
  JsMap.get k (mark_owner o m)
  = User.set_isOwner (bool_decide (k = o)) <$> JsMap.get k m.
Proof. unfold mark_owner. apply get_forEach. Qed.

(** X12. A [transfer-ownership] sent by the owner of its room makes the id
    it names the owner, whether that id is in a roster or not: the handler
    compares it with nothing.  Both rosters keep their keys and their order;
    every entry keeps its fields but [isOwner], which is set to the comparison
    of its key with the new owner.  The diagram is not touched, and the
    event with the new owner and the general roster goes to the whole room. *)
Theorem transfer_by_owner newOwnerId socket rooms rid room :
  current_room socket rooms = Some (rid, room) →
  Room.owner room = Socket.id socket →
  let '(socket', rooms', out) := transfer_ownership newOwnerId socket rooms in
  ∃ room',
    socket' = socket
    ∧ rooms' !! rid = Some room'
    ∧ Room.owner room' = newOwnerId
    ∧ (∀ k, JsMap.get k (Room.users room')
            = User.set_isOwner (bool_decide (k = newOwnerId))
              <$> JsMap.get k (Room.users room))
    ∧ (∀ k, JsMap.get k (Room.videoUsers room')
            = User.set_isOwner (bool_decide (k = newOwnerId))
              <$> JsMap.get k (Room.videoUsers room))
    ∧ JsMap.keys (Room.users room') = JsMap.keys (Room.users room)
    ∧ JsMap.keys (Room.videoUsers room') = JsMap.keys (Room.videoUsers room)
    ∧ Room.nodes room' = Room.nodes room
    ∧ Room.edges room' = Room.edges room
    ∧ out = [Build_Emit (ToRoom rid)
               (ownership_transferred newOwnerId
                  (JsMap.values (Room.users room')))].
Proof.
  intros Hcur Hown. unfold transfer_ownership. rewrite Hcur.
  rewrite bool_decide_eq_true_2 by exact Hown.
  eexists. split; [reflexivity|]. split; [apply lookup_insert_eq|]. simpl.
  split; [reflexivity|].
  split; [intros k; apply get_mark_owner|].
  split; [intros k; apply get_mark_owner|].
  split; [apply keys_mark_owner|]. split; [apply keys_mark_owner|].
  repeat split.
Qed.

Lemma transfer_by_owner_witness :
  current_room socket_A rooms_r1 = Some ("r1", room_r1)
  ∧ Room.owner room_r1 = Socket.id socket_A
  ∧ let '(socket', rooms', out) := transfer_ownership "Z" socket_A rooms_r1 in
    ∃ room',
      socket' = socket_A
      ∧ rooms' !! "r1" = Some room'
      ∧ Room.owner room' = "Z"
      ∧ (∀ k, JsMap.get k (Room.users room')
              = User.set_isOwner (bool_decide (k = "Z"))
                <$> JsMap.get k (Room.users room_r1))
      ∧ (∀ k, JsMap.get k (Room.videoUsers room')
              = User.set_isOwner (bool_decide (k = "Z"))
                <$> JsMap.get k (Room.videoUsers room_r1))
      ∧ JsMap.keys (Room.users room') = JsMap.keys (Room.users room_r1)
      ∧ JsMap.keys (Room.videoUsers room')
        = JsMap.keys (Room.videoUsers room_r1)
      ∧ Room.nodes room' = Room.nodes room_r1
      ∧ Room.edges room' = Room.edges room_r1
      ∧ out = [Build_Emit (ToRoom "r1")
                 (ownership_transferred "Z"
                    (JsMap.values (Room.users room')))].
Proof.
  assert (H1 : current_room socket_A rooms_r1 = Some ("r1", room_r1))
    by (vm_compute; reflexivity).
  assert (H2 : Room.owner room_r1 = Socket.id socket_A) by reflexivity.
  exact (conj H1 (conj H2
           (transfer_by_owner "Z" socket_A rooms_r1 "r1" room_r1 H1 H2))).
Defined.

(** ** Departure of a participant who is not the owner *)

(** X13. When a connection that is not the owner of its room leaves or
    disconnects and the general roster is not empty afterwards, its entries
    are removed from both rosters and nothing else changes in the room: the
    owner, the other entries with their flags, and the diagram are as before.
    No [ownership-transferred] event is emitted; the three events of a
    departure are.  The socket object is returned as it was: the handler
    neither clears the remembered room nor leaves the transport room. *)
Theorem member_departure d socket rooms rid room :
  current_room socket rooms = Some (rid, room) →
  Room.owner room ≠ Socket.id socket →
  JsMap.size (JsMap.delete (Socket.id socket) (Room.users room)) ≠ 0 →
  let '(socket', rooms', out) := depart d socket rooms in
  ∃ room',
    socket' = socket
    ∧ rooms' !! rid = Some room'
    ∧ (Socket.id socket ∉ JsMap.keys (Room.users room'))
    ∧ (Socket.id socket ∉ JsMap.keys (Room.videoUsers room'))
    ∧ (∀ k, k ≠ Socket.id socket →
         JsMap.get k (Room.users room') = JsMap.get k (Room.users room)
         ∧ JsMap.get k (Room.videoUsers room')
           = JsMap.get k (Room.videoUsers room))
    ∧ Room.owner room' = Room.owner room
    ∧ Room.nodes room' = Room.nodes room
    ∧ Room.edges room' = Room.edges room
    ∧ out = [Build_Emit (ToOthers rid (Socket.id socket))
               (user_left (Socket.id socket) (Socket.username socket)
                  (JsMap.values (Room.users room')));
             Build_Emit (ToOthers rid (Socket.id socket))
               (video_user_left (Socket.id socket)
                  (JsMap.values (Room.videoUsers room')));
             Build_Emit (ToRoom rid)
               (users_updated (JsMap.values (Room.users room')))].
Proof.
  intros Hcur Hown Hsize. rewrite depart_as_leave_room.
  rewrite (leave_room_stays _ _ _ _ Hcur Hown Hsize).
  exists (without (Socket.id socket) room).
  split; [reflexivity|]. split; [apply lookup_insert_eq|]. simpl.
  split; [rewrite elem_of_keys_delete; tauto|].
  split; [rewrite elem_of_keys_delete; tauto|].
  split.
  { intros k Hk. rewrite !get_delete, !decide_False by exact Hk. auto. }
  repeat split.
Qed.

Lemma member_departure_witness :
  current_room socket_B rooms_r1 = Some ("r1", room_r1)
  ∧ Room.owner room_r1 ≠ Socket.id socket_B
  ∧ JsMap.size (JsMap.delete (Socket.id socket_B) (Room.users room_r1)) ≠ 0
  ∧ let '(socket', rooms', out) := depart ByLeaveRoom socket_B rooms_r1 in
    ∃ room',
      socket' = socket_B
      ∧ rooms' !! "r1" = Some room'
      ∧ (Socket.id socket_B ∉ JsMap.keys (Room.users room'))
      ∧ (Socket.id socket_B ∉ JsMap.keys (Room.videoUsers room'))
      ∧ (∀ k, k ≠ Socket.id socket_B →
           JsMap.get k (Room.users room') = JsMap.get k (Room.users room_r1)
           ∧ JsMap.get k (Room.videoUsers room')
             = JsMap.get k (Room.videoUsers room_r1))
      ∧ Room.owner room' = Room.owner room_r1
      ∧ Room.nodes room' = Room.nodes room_r1
      ∧ Room.edges room' = Room.edges room_r1
      ∧ out = [Build_Emit (ToOthers "r1" (Socket.id socket_B))
                 (user_left (Socket.id socket_B) (Socket.username socket_B)
                    (JsMap.values (Room.users room')));
               Build_Emit (ToOthers "r1" (Socket.id socket_B))
                 (video_user_left (Socket.id socket_B)
                    (JsMap.values (Room.videoUsers room')));
               Build_Emit (ToRoom "r1")
                 (users_updated (JsMap.values (Room.users room')))].
Proof.
  assert (H1 : current_room socket_B rooms_r1 = Some ("r1", room_r1))
    by (vm_compute; reflexivity).
  assert (H2 : Room.owner room_r1 ≠ Socket.id socket_B)
    by (vm_compute; discriminate).
  assert (H3 : JsMap.size
                 (JsMap.delete (Socket.id socket_B) (Room.users room_r1)) ≠ 0)
    by (vm_compute; discriminate).
  exact (conj H1 (conj H2 (conj H3
           (member_departure ByLeaveRoom socket_B rooms_r1 "r1" room_r1
              H1 H2 H3)))).
Defined.

(** ** What a connection can still do after it left or was turned away *)

(** X14. [leave-room] does not end the association of the connection with
    the room: when the room stays in the registry, the connection is out of
    its general roster but its socket object is unchanged, and an
    [update-diagram] that it sends next is stored in the room all the same. *)
Theorem departed_still_writes socket rooms rid room ns :
  current_room socket rooms = Some (rid, room) →
  JsMap.size (JsMap.delete (Socket.id socket) (Room.users room)) ≠ 0 →
  let '(socket', rooms', _) := leave_room socket rooms in
  ∃ room' room'',
    socket' = socket
    ∧ rooms' !! rid = Some room'
    ∧ (Socket.id socket ∉ JsMap.keys (Room.users room'))
    ∧ (on_update_diagram (Some ns) None socket' rooms').1.2 !! rid
      = Some room''
    ∧ Room.nodes room'' = ns
    ∧ Room.users room'' = Room.users room'.
Proof.
  intros Hcur Hsize. pose proof Hcur as [Hj _]%current_room_Some.
  assert (Hwrite : ∀ room',
    (on_update_diagram (Some ns) None socket (<[rid := room']> rooms)).1.2 !! rid
    = Some (Room.set_edges (Room.edges room') (Room.set_nodes ns room'))).
  { intros room'. unfold on_update_diagram.
    rewrite (proj2 (current_room_Some socket (<[rid := room']> rooms) rid room'))
      by (split; [exact Hj | apply lookup_insert_eq]).
    simpl. apply lookup_insert_eq. }
  destruct (decide (Room.owner room = Socket.id socket)) as [Hown|Hown].
  - rewrite (leave_room_delegates _ _ _ _ Hcur Hown) by lia.
    eexists _, _. split; [reflexivity|]. split; [apply lookup_insert_eq|].
    split; [simpl; rewrite keys_mark_owner, elem_of_keys_delete; tauto|].
    split; [apply Hwrite|]. split; reflexivity.
  - rewrite (leave_room_stays _ _ _ _ Hcur Hown Hsize).
    eexists _, _. split; [reflexivity|]. split; [apply lookup_insert_eq|].
    split; [simpl; rewrite elem_of_keys_delete; tauto|].
    split; [apply Hwrite|]. split; reflexivity.
Qed.

Lemma departed_still_writes_witness :
  current_room socket_B rooms_r1 = Some ("r1", room_r1)
  ∧ JsMap.size (JsMap.delete (Socket.id socket_B) (Room.users room_r1)) ≠ 0
  ∧ let '(socket', rooms', _) := leave_room socket_B rooms_r1 in
    ∃ room' room'',
      socket' = socket_B
      ∧ rooms' !! "r1" = Some room'
      ∧ (Socket.id socket_B ∉ JsMap.keys (Room.users room'))
      ∧ (on_update_diagram (Some ["n"]) None socket' rooms').1.2 !! "r1"
        = Some room''
      ∧ Room.nodes room'' = ["n"]
      ∧ Room.users room'' = Room.users room'.
Proof.
  assert (H1 : current_room socket_B rooms_r1 = Some ("r1", room_r1))
    by (vm_compute; reflexivity).
  assert (H2 : JsMap.size
                 (JsMap.delete (Socket.id socket_B) (Room.users room_r1)) ≠ 0)
    by (vm_compute; discriminate).
  exact (conj H1 (conj H2
           (departed_still_writes socket_B rooms_r1 "r1" room_r1 ["n"] H1 H2))).
Defined.

(** X15. A connection that [join-room] turns away from a full room is
    associated with the room and in its transport room all the same (the
    handler joins before it tests the capacity): without an entry in the
    roster, it is reached by what is sent to the room, and an
    [update-diagram] that it sends next is stored in the room. *)
Theorem turned_away_but_subscribed
    env now roomId username isOwner socket rooms room ns :
  roomId ≠ "" → username ≠ "" →
  rooms !! roomId = Some room →
  (Settings.maxUsers (Room.settings room)
   ≤ Z.of_nat (JsMap.size (Room.users room)))%Z →
  Socket.id socket ∉ JsMap.keys (Room.users room) →
  let '(socket', rooms', _) :=
    join_room env now roomId username isOwner socket rooms in
  rooms' = rooms
  ∧ Socket.roomId socket' = Some roomId
  ∧ roomId ∈ Socket.rooms socket'
  ∧ (∀ (sockets : gmap string Socket.t),
       sockets !! Socket.id socket = Some socket' →
       Socket.id socket ∈ recipients sockets (ToRoom roomId))
  ∧ ∃ room'',
      (on_update_diagram (Some ns) None socket' rooms').1.2 !! roomId
      = Some room''
      ∧ Room.nodes room'' = ns
      ∧ Room.users room'' = Room.users room
      ∧ (Socket.id socket ∉ JsMap.keys (Room.users room'')).
Proof.
  intros Hr Hu Hroom Hfull Hnew. unfold join_room.
  pose proof Hr as Hr'. apply truthy_true in Hr', Hu. rewrite Hr', Hu. simpl.
  rewrite (get_or_create_known _ _ _ _ _ _ Hroom).
  apply room_is_full_true in Hfull. rewrite Hfull.
  set (socket' := Socket.set_username _ _).
  assert (Hin : roomId ∈ Socket.rooms socket').
  { subst socket'. destruct (joined socket); simpl; apply elem_of_union; left;
      apply elem_of_singleton; reflexivity. }
  split; [reflexivity|]. split; [reflexivity|]. split; [exact Hin|].
  split.
  { intros sockets Hs. apply elem_of_recipients_room. eauto. }
  unfold on_update_diagram.
  rewrite (proj2 (current_room_Some socket' rooms roomId room)).
  - eexists. split; [apply lookup_insert_eq|]. simpl. auto.
  - split; [|exact Hroom]. unfold joined. subst socket'. simpl.
    rewrite Hr'. reflexivity.
Qed.

Lemma turned_away_but_subscribed_witness :
  "r1" ≠ "" ∧ "carol" ≠ ""
  ∧ rooms_r1 !! "r1" = Some room_r1
  ∧ (Settings.maxUsers (Room.settings room_r1)
     ≤ Z.of_nat (JsMap.size (Room.users room_r1)))%Z
  ∧ (Socket.id socket_C ∉ JsMap.keys (Room.users room_r1))
  ∧ let '(socket', rooms', _) :=
      join_room env2 3 "r1" "carol" false socket_C rooms_r1 in
    rooms' = rooms_r1
    ∧ Socket.roomId socket' = Some "r1"
    ∧ "r1" ∈ Socket.rooms socket'
    ∧ (∀ (sockets : gmap string Socket.t),
         sockets !! Socket.id socket_C = Some socket' →
         Socket.id socket_C ∈ recipients sockets (ToRoom "r1"))
    ∧ ∃ room'',
        (on_update_diagram (Some ["n"]) None socket' rooms').1.2 !! "r1"
        = Some room''
        ∧ Room.nodes room'' = ["n"]
        ∧ Room.users room'' = Room.users room_r1
        ∧ (Socket.id socket_C ∉ JsMap.keys (Room.users room'')).
Proof.
  assert (H1 : "r1" ≠ "") by discriminate.
  assert (H2 : "carol" ≠ "") by discriminate.
  assert (H3 : rooms_r1 !! "r1" = Some room_r1) by (vm_compute; reflexivity).
  assert (H4 : (Settings.maxUsers (Room.settings room_r1)
                ≤ Z.of_nat (JsMap.size (Room.users room_r1)))%Z)
    by (vm_compute; discriminate).
  assert (H5 : Socket.id socket_C ∉ JsMap.keys (Room.users room_r1))
    by (apply (bool_decide_unpack _); vm_compute; exact I).
  exact (conj H1 (conj H2 (conj H3 (conj H4 (conj H5
           (turned_away_but_subscribed env2 3 "r1" "carol" false socket_C
              rooms_r1 room_r1 ["n"] H1 H2 H3 H4 H5)))))).
Defined.

(** ** Events for a room that is not in the registry *)

(** X16. When the room that a connection remembers is not in the registry
    (it was deleted, or the connection never joined), the handlers that look
    the room up ([media-toggle], [start-recording], [stop-recording],
    [update-diagram], [transfer-ownership], [leave-video-room], [leave-room])
    and [disconnect] do nothing: no change, no event, no error, and the room
    is not created again. *)
Theorem vanished_room_ignored env now m socket rooms :
  needs_room m = true →
  current_room socket rooms = None →
  handle env now m socket rooms = (socket, rooms, [])
  ∧ on_disconnect socket rooms = (socket, rooms, []).
Proof.
  intros Hm Hcur. split.
  - destruct m; try discriminate; simpl;
      [unfold media_toggle | unfold start_recording | unfold stop_recording
      | unfold on_update_diagram | unfold transfer_ownership
      | unfold leave_video_room | unfold leave_room];
      rewrite Hcur; reflexivity.
  - unfold on_disconnect. rewrite Hcur. reflexivity.
Qed.

Lemma vanished_room_ignored_witness :
  needs_room (UpdateDiagram (Some ["n"]) None) = true
  ∧ current_room socket_B (delete "r1" rooms_r1) = None
  ∧ handle env2 3 (UpdateDiagram (Some ["n"]) None) socket_B
      (delete "r1" rooms_r1)
    = (socket_B, delete "r1" rooms_r1, [])
  ∧ on_disconnect socket_B (delete "r1" rooms_r1)
    = (socket_B, delete "r1" rooms_r1, []).
Proof.
  assert (H1 : needs_room (UpdateDiagram (Some ["n"]) None) = true)
    by reflexivity.
  assert (H2 : current_room socket_B (delete "r1" rooms_r1) = None)
    by (vm_compute; reflexivity).
  exact (conj H1 (conj H2
           (vanished_room_ignored env2 3 (UpdateDiagram (Some ["n"]) None)
              socket_B (delete "r1" rooms_r1) H1 H2))).
Defined.

(** ** A room without general participants *)

(** X17. A room whose general roster is empty (a room opened through
    [join-video-room]) is deleted by the [leave-room] or the [disconnect] of
    any connection associated with it, whoever is in its video roster, and
    no event tells the video participants. *)
Theorem video_only_room_deleted d socket rooms rid room :
  current_room socket rooms = Some (rid, room) →
  JsMap.size (Room.users room) = 0 →
  depart d socket rooms = (socket, delete rid rooms, []).
Proof.
  intros Hcur Hsize. rewrite depart_as_leave_room.
  apply (leave_room_empty _ _ _ _ Hcur).
  pose proof (size_delete_le (Socket.id socket) (Room.users room)). lia.
Qed.

Lemma video_only_room_deleted_witness :
  current_room socket_C_in_r1 rooms_video_only = Some ("r1", room_video_only)
  ∧ JsMap.size (Room.users room_video_only) = 0
  ∧ depart ByLeaveRoom socket_C_in_r1 rooms_video_only
    = (socket_C_in_r1, delete "r1" rooms_video_only, []).
Proof.
  assert (H1 : current_room socket_C_in_r1 rooms_video_only
               = Some ("r1", room_video_only)) by (vm_compute; reflexivity).
  assert (H2 : JsMap.size (Room.users room_video_only) = 0) by reflexivity.
  exact (conj H1 (conj H2
           (video_only_room_deleted ByLeaveRoom socket_C_in_r1
              rooms_video_only "r1" room_video_only H1 H2))).
Defined.

(** ** The hourly sweep *)

(** X18. The sweep keeps exactly the rooms that have a general participant
    or are not older than 24 hours (86 400 000 ms, the bound included), each
    as it was; the video roster does not count.  A registry in which every
    room has a general participant is left as it is. *)
Theorem sweep_exact now rooms :
  (∀ rid room,
     sweep now rooms !! rid = Some room
     ↔ rooms !! rid = Some room
       ∧ (JsMap.size (Room.users room) ≠ 0
          ∨ (now - Room.created room ≤ 86400000)%Z))
  ∧ ((∀ rid room, rooms !! rid = Some room →
                  JsMap.size (Room.users room) ≠ 0) →
     sweep now rooms = rooms).
Proof.
  split.
  - intros rid room. unfold sweep. rewrite map_lookup_filter_Some.
    unfold swept, MAX_ROOM_AGE. simpl.
    split; intros [Hroom H]; (split; [exact Hroom|]).
    + destruct (decide (JsMap.size (Room.users room) = 0)); [|auto].
      right. lia.
    + intros [Hage Hempty]. destruct H; [contradiction | lia].
  - intros Hfull. unfold sweep. apply map_filter_id.
    intros rid room Hroom [_ Hempty]. exact (Hfull rid room Hroom Hempty).
Qed.

Lemma sweep_exact_witness :
  (∀ rid room, rooms_r1 !! rid = Some room → JsMap.size (Room.users room) ≠ 0)
  ∧ sweep 999999999999 rooms_r1 = rooms_r1
  ∧ sweep 86400002 rooms_video_only !! "r1" = None
  ∧ sweep 86400001 rooms_video_only !! "r1" = Some room_video_only.
Proof.
  assert (H1 : ∀ rid room, rooms_r1 !! rid = Some room →
                           JsMap.size (Room.users room) ≠ 0).
  { intros rid room H. unfold rooms_r1 in H.
    apply lookup_singleton_Some in H as [_ <-]. discriminate. }
  split; [exact H1|]. split; [|split].
  - exact (proj2 (sweep_exact 999999999999 rooms_r1) H1).
  - destruct (sweep 86400002 rooms_video_only !! "r1") as [room|] eqn:E;
      [|reflexivity].
    apply (proj1 (sweep_exact 86400002 rooms_video_only)) in E as [E H].
    vm_compute in E. injection E as <-. exfalso.
    destruct H as [H|H]; [apply H; reflexivity | vm_compute in H; auto].
  - apply (proj1 (sweep_exact 86400001 rooms_video_only)).
    split; [vm_compute; reflexivity|]. right. vm_compute. discriminate.
Defined.

(** ** Every change of a room is one of [RoomChange] *)

Lemma room_before_joined env now sid rooms roomId :
  room_before env now sid rooms roomId (joined_room env now sid roomId rooms).
Proof.
  destruct (joined_room_cases env now sid roomId rooms) as [?|[? ?]];
    [left | right]; auto.
Qed.

Lemma not_full_lt n room :
  room_is_full n room = false →
  (Z.of_nat n < Settings.maxUsers (Room.settings room))%Z.
Proof. unfold room_is_full. intros H%bool_decide_eq_false. lia. Qed.

(** A registry that is [rooms] but for the room of [r], which is [x]. *)
Lemma changed_at env now sid m rooms r x base rid room' :
  room_before env now sid rooms r base →
  RoomChange sid m now base x →
  <[r := x]> rooms !! rid = Some room' →
  ∃ base', room_before env now sid rooms rid base'
           ∧ RoomChange sid m now base' room'.
Proof.
  intros Hbase Hchange Hlook. destruct (decide (r = rid)) as [->|Hne].
  - rewrite lookup_insert_eq in Hlook. injection Hlook as <-. eauto.
  - rewrite lookup_insert_ne in Hlook by exact Hne.
    exists room'. split; [left; exact Hlook | constructor].
Qed.

Lemma unchanged env now sid m rooms rid room' :
  rooms !! rid = Some room' →
  ∃ base', room_before env now sid rooms rid base'
           ∧ RoomChange sid m now base' room'.
Proof. intros H. exists room'. split; [left; exact H | constructor]. Qed.

Lemma leave_room_changes env now socket rooms rid room' :
  (leave_room socket rooms).1.2 !! rid = Some room' →
  ∃ base, room_before env now (Socket.id socket) rooms rid base
          ∧ RoomChange (Socket.id socket) LeaveRoom now base room'.
Proof.
  destruct (current_room socket rooms) as [[r room]|] eqn:Hcur;
    [|rewrite leave_room_elsewhere by assumption; apply unchanged].
  pose proof Hcur as [_ Hroom]%current_room_Some.
  destruct (decide (JsMap.size
                      (JsMap.delete (Socket.id socket) (Room.users room)) = 0))
    as [Hzero|Hpos].
  { rewrite (leave_room_empty _ _ _ _ Hcur Hzero). simpl.
    intros [_ H]%lookup_delete_Some. apply unchanged, H. }
  destruct (decide (Room.owner room = Socket.id socket)) as [Hown|Hown].
  - rewrite (leave_room_delegates _ _ _ _ Hcur Hown) by lia. simpl.
    apply (changed_at _ _ _ _ _ _ _ room); [left; exact Hroom|].
    apply change_leave_delegate; [exact Hown | lia].
  - rewrite (leave_room_stays _ _ _ _ Hcur Hown Hpos). simpl.
    apply (changed_at _ _ _ _ _ _ _ room); [left; exact Hroom|].
    apply change_leave.
Qed.

Lemma handle_changes env now m socket rooms rid room' :
  (handle env now m socket rooms).1.2 !! rid = Some room' →
  ∃ base, room_before env now (Socket.id socket) rooms rid base
          ∧ RoomChange (Socket.id socket) m now base room'.
Proof.
  destruct m as [roomId username isOwner|roomId username isOwner| | |
                 |video audio| | | | | |nodes edges| | |newOwnerId| |];
    simpl handle.
  - destruct (join_room_registry env now roomId username isOwner socket rooms)
      as [-> | [(Hnone & _ & ->) | (Hfull & ->)]].
    + apply unchanged.
    + apply changed_at with (base := joined_room env now (Socket.id socket)
                                       roomId rooms);
        [apply room_before_joined | constructor].
    + apply changed_at with (base := joined_room env now (Socket.id socket)
                                       roomId rooms);
        [apply room_before_joined|].
      apply change_join, not_full_lt, Hfull.
  - destruct (join_video_room_registry env now roomId username isOwner socket
                rooms) as [[_ ->] | [(Hnone & _ & ->) | (Hfull & ->)]].
    + apply unchanged.
    + apply changed_at with (base := joined_room env now (Socket.id socket)
                                       roomId rooms);
        [apply room_before_joined | constructor].
    + apply changed_at with (base := joined_room env now (Socket.id socket)
                                       roomId rooms);
        [apply room_before_joined|].
      apply change_join_video, not_full_lt, Hfull.
  - apply unchanged.
  - apply unchanged.
  - apply unchanged.
  - unfold media_toggle.
    destruct (current_room socket rooms) as [[r room]|] eqn:Hcur;
      [|apply unchanged].
    apply current_room_Some in Hcur as [_ Hroom].
    destruct (JsMap.get _ _) as [user|] eqn:Hget; [|apply unchanged].
    apply (changed_at _ _ _ _ _ _ _ room); [left; exact Hroom|].
    apply (change_toggle _ video audio now room user Hget).
  - unfold start_screen_share. destruct (joined socket); apply unchanged.
  - unfold stop_screen_share. destruct (joined socket); apply unchanged.
  - unfold send_message. destruct (joined socket); apply unchanged.
  - unfold start_recording.
    destruct (current_room socket rooms) as [[r room]|]; [|apply unchanged].
    destruct (_ && _); apply unchanged.
  - unfold stop_recording.
    destruct (current_room socket rooms) as [[r room]|]; [|apply unchanged].
    destruct (bool_decide _); apply unchanged.
  - unfold on_update_diagram.
    destruct (current_room socket rooms) as [[r room]|] eqn:Hcur;
      [|apply unchanged].
    apply current_room_Some in Hcur as [_ Hroom].
    apply (changed_at _ _ _ _ _ _ _ room); [left; exact Hroom|].
    exact (change_diagram _ nodes edges now room).
  - unfold on_draw. destruct (joined socket); apply unchanged.
  - unfold on_clear. destruct (joined socket); apply unchanged.
  - unfold transfer_ownership.
    destruct (current_room socket rooms) as [[r room]|] eqn:Hcur;
      [|apply unchanged].
    apply current_room_Some in Hcur as [_ Hroom].
    case_bool_decide as Hown; [|apply unchanged].
    apply (changed_at _ _ _ _ _ _ _ room); [left; exact Hroom|].
    apply change_transfer, Hown.
  - unfold leave_video_room.
    destruct (current_room socket rooms) as [[r room]|] eqn:Hcur;
      [|apply unchanged].
    apply current_room_Some in Hcur as [_ Hroom].
    apply (changed_at _ _ _ _ _ _ _ room); [left; exact Hroom|].
    apply change_leave_video.
  - apply leave_room_changes.
Qed.

Lemma step_changes env st ev rid room' :
  State.rooms (step env st ev).1 !! rid = Some room' →
  ∃ sid now base,
    room_before env now sid (State.rooms st) rid base
    ∧ RoomChange sid (event_msg ev) now base room'.
Proof.
  destruct ev as [sid|sid now m|sid|roomId|now]; simpl.
  - destruct (State.sockets st !! sid); simpl; intros H;
      exists "", 0%Z; apply unchanged, H.
  - destruct (State.sockets st !! sid) as [socket|];
      [|intros H; exists "", 0%Z; apply unchanged, H].
    pose proof (handle_changes env now m socket (State.rooms st) rid room')
      as Hchanges.
    destruct (handle env now m socket (State.rooms st)) as [[s r] o].
    intros H. exists (Socket.id socket), now. apply Hchanges, H.
  - destruct (State.sockets st !! sid) as [socket|];
      [|intros H; exists "", 0%Z; apply unchanged, H].
    pose proof (leave_room_changes env 0%Z socket (State.rooms st) rid room')
      as Hchanges.
    rewrite <- disconnect_as_leave_room in Hchanges.
    destruct (on_disconnect socket (State.rooms st)) as [[s r] o].
    intros H. exists (Socket.id socket), 0%Z. apply Hchanges, H.
  - intros [_ H]%lookup_delete_Some. exists "", 0%Z. apply unchanged, H.
  - intros H%sweep_lookup. exists "", 0%Z. apply unchanged, H.
Qed.

(** A property of room objects that the new room has and every change keeps
    holds of every room of every reachable registry. *)
Lemma reachable_rooms (P : Room.t → Prop) env :
  (∀ now sid, P (new_room env now sid)) →
  (∀ sid m now base room', RoomChange sid m now base room' → P base → P room') →
  ∀ evs st,
    map_Forall (λ _, P) (State.rooms st) →
    map_Forall (λ _, P) (State.rooms (run env st evs).1).
Proof.
  intros Hnew Hkeep. induction evs as [|ev evs IH]; intros st Hinv; [exact Hinv|].
  rewrite run_cons_state. apply IH. intros rid room' Hroom'.
  apply step_changes in Hroom' as (sid & now & base & Hbase & Hchange).
  apply (Hkeep _ _ _ _ _ Hchange).
  destruct Hbase as [Hbase | [_ ->]]; [exact (Hinv _ _ Hbase) | apply Hnew].
Qed.

(** ** Capacity *)

Lemma change_within_capacity sid m now base room' :
  RoomChange sid m now base room' →
  within_capacity base → within_capacity room'.
Proof.
  intros Hchange [Hu Hv].
  destruct Hchange as [| ? ? ? ? ? Hfree | ? ? ? ? ? Hfree | ? ? ? ? ? Hget
                       | | | | |]; unfold within_capacity; simpl.
  - auto.
  - split; [|exact Hv].
    pose proof (size_set_le sid (joining_user now sid username isOwner room)
                  (Room.users room)). lia.
  - split; [exact Hu|].
    pose proof (size_set_le sid (joining_user now sid username isOwner room)
                  (Room.videoUsers room)). lia.
  - split; [exact Hu|]. rewrite size_set_in; [exact Hv|].
    apply elem_of_keys_get. eauto.
  - auto.
  - rewrite !size_mark_owner. auto.
  - split; [exact Hu|].
    pose proof (size_delete_le sid (Room.videoUsers room)). lia.
  - pose proof (size_delete_le sid (Room.users room)).
    pose proof (size_delete_le sid (Room.videoUsers room)). lia.
  - rewrite !size_mark_owner.
    pose proof (size_delete_le sid (Room.users room)).
    pose proof (size_delete_le sid (Room.videoUsers room)). lia.
Qed.

(** X19. Whatever the configuration and whatever events are processed,
    starting from the empty registry, no roster of a room ever holds more
    entries than the [maxUsers] of the room, general or video; with a capacity
    below one both rosters stay empty. *)
Theorem capacity_reachable env evs rid room :
  State.rooms (run env State.init evs).1 !! rid = Some room →
  (Z.of_nat (JsMap.size (Room.users room))
   ≤ Z.max 0 (Settings.maxUsers (Room.settings room)))%Z
  ∧ (Z.of_nat (JsMap.size (Room.videoUsers room))
     ≤ Z.max 0 (Settings.maxUsers (Room.settings room)))%Z.
Proof.
  intros Hroom.
  apply (reachable_rooms within_capacity env) with (evs := evs) (st := State.init)
                                                   (i := rid); [| | |exact Hroom].
  - intros now sid. split; unfold JsMap.size; simpl; lia.
  - apply change_within_capacity.
  - apply map_Forall_empty.
Qed.

Lemma capacity_reachable_witness :
  State.rooms (run env2 State.init two_in_r1).1 !! "r1" = Some room_r1
  ∧ (Z.of_nat (JsMap.size (Room.users room_r1))
     ≤ Z.max 0 (Settings.maxUsers (Room.settings room_r1)))%Z
  ∧ (Z.of_nat (JsMap.size (Room.videoUsers room_r1))
     ≤ Z.max 0 (Settings.maxUsers (Room.settings room_r1)))%Z.
Proof.
  assert (H1 : State.rooms (run env2 State.init two_in_r1).1 !! "r1"
               = Some room_r1) by (vm_compute; reflexivity).
  exact (conj H1 (capacity_reachable env2 two_in_r1 "r1" room_r1 H1)).
Defined.

(** ** The flag of the owner *)

Lemma Forall_owner_flagged_mark o o' m :
  Forall (owner_flagged o) m → Forall (owner_flagged o') (mark_owner o' m).
Proof.
  intros Hm. unfold mark_owner, JsMap.forEach. apply Forall_fmap.
  eapply Forall_impl; [exact Hm|]. intros [k u] [Hid _].
  unfold owner_flagged, compose. simpl in *. split; [exact Hid|].
  intros ->. apply bool_decide_eq_true_2. reflexivity.
Qed.

Lemma joining_user_owner_flagged now sid username isOwner room :
  owner_flagged (Room.owner room)
    (sid, joining_user now sid username isOwner room).
Proof.
  split; [reflexivity|]. simpl. intros ->.
  rewrite bool_decide_eq_true_2 by reflexivity. apply orb_true_r.
Qed.

Lemma change_owner_marked sid m now base room' :
  RoomChange sid m now base room' →
  owner_marked base → owner_marked room'.
Proof.
  intros Hchange [Hu Hv].
  destruct Hchange as [| | | ? ? ? ? user Hget | | | | |];
    unfold owner_marked; simpl.
  - auto.
  - split; [|exact Hv].
    apply Forall_set; [apply joining_user_owner_flagged | exact Hu].
  - split; [exact Hu|].
    apply Forall_set; [apply joining_user_owner_flagged | exact Hv].
  - split; [exact Hu|]. apply Forall_set; [|exact Hv].
    apply get_Some_elem in Hget. rewrite Forall_forall in Hv.
    specialize (Hv _ Hget). destruct video, audio; exact Hv.
  - auto.
  - split; eapply Forall_owner_flagged_mark; eassumption.
  - split; [exact Hu | apply Forall_delete, Hv].
  - split; apply Forall_delete; assumption.
  - split; eapply Forall_owner_flagged_mark; apply Forall_delete; eassumption.
Qed.

(** X20. Whatever the events processed and whatever [isOwner] the join
    payloads carry, starting from the empty registry: every roster entry,
    general or video, is stored under the id it holds, and the entry of the
    owner of the room, when there is one, carries the [isOwner] flag.  (A
    payload can set the flag of a participant who is not the owner; it cannot
    clear the flag of the owner.) *)
Theorem owner_flag_reachable env evs rid room k u :
  State.rooms (run env State.init evs).1 !! rid = Some room →
  (k, u) ∈ Room.users room ∨ (k, u) ∈ Room.videoUsers room →
  User.id u = k ∧ (k = Room.owner room → User.isOwner u = true).
Proof.
  intros Hroom Hin.
  assert (Hok : owner_marked room).
  { apply (reachable_rooms owner_marked env) with (evs := evs) (st := State.init)
                                                  (i := rid); [| | |exact Hroom].
    - intros now sid. split; constructor.
    - apply change_owner_marked.
    - apply map_Forall_empty. }
  destruct Hok as [Hu Hv]. rewrite Forall_forall in Hu, Hv.
  destruct Hin as [Hin|Hin]; [exact (Hu _ Hin) | exact (Hv _ Hin)].
Qed.

Lemma owner_flag_reachable_witness :
  State.rooms (run env2 State.init pretender).1 !! "r1"
  = Some (Room.set_users [("A", alice); ("B", User.set_isOwner true bob)]
            room_r1)
  ∧ (("A", alice) ∈ [("A", alice); ("B", User.set_isOwner true bob)]
     ∨ ("A", alice) ∈ ([] : list (string * User.t)))
  ∧ User.id alice = "A" ∧ ("A" = "A" → User.isOwner alice = true).
Proof.
  assert (H1 : State.rooms (run env2 State.init pretender).1 !! "r1"
               = Some (Room.set_users
                         [("A", alice); ("B", User.set_isOwner true bob)]
                         room_r1)) by (vm_compute; reflexivity).
  assert (H2 : ("A", alice) ∈ [("A", alice); ("B", User.set_isOwner true bob)]
               ∨ ("A", alice) ∈ ([] : list (string * User.t)))
    by (left; apply elem_of_cons; left; reflexivity).
  exact (conj H1 (conj H2
           (owner_flag_reachable env2 pretender "r1" _ "A" alice H1 H2))).
Defined.

(** ** What no event changes *)

Lemma change_room_kept sid m now base room' :
  RoomChange sid m now base room' →
  room_kept (negb (writes_diagram m)) base room'.
Proof.
  intros Hchange. destruct Hchange; unfold room_kept; simpl;
    repeat split; try reflexivity; try discriminate; intros; reflexivity.
Qed.

(** X21. No event changes the creation time or the settings of a room that
    is in the registry before and after it, and no event but an
    [update-diagram] changes the stored diagram of such a room: joins,
    departures, ownership transfers, media toggles, the sweep and the HTTP
    delete leave [nodes] and [edges] alone. *)
Theorem step_keeps_room env st ev rid room room' :
  State.rooms st !! rid = Some room →
  State.rooms (step env st ev).1 !! rid = Some room' →
  Room.created room' = Room.created room
  ∧ Room.settings room' = Room.settings room
  ∧ ((∀ sid now nodes edges, ev ≠ Message sid now (UpdateDiagram nodes edges)) →
     Room.nodes room' = Room.nodes room ∧ Room.edges room' = Room.edges room).
Proof.
  intros Hroom Hroom'.
  apply step_changes in Hroom' as (sid & now & base & Hbase & Hchange).
  assert (base = room) as ->.
  { destruct Hbase as [Hbase | [Hnone _]]; congruence. }
  apply change_room_kept in Hchange as (Hc & Hs & Hd).
  split; [exact Hc|]. split; [exact Hs|]. intros Hev. apply Hd.
  destruct ev as [|s n m| | |]; try reflexivity. simpl.
  destruct m; try reflexivity. exfalso. exact (Hev _ _ _ _ eq_refl).
Qed.

Lemma step_keeps_room_witness :
  State.rooms st_r1 !! "r1" = Some room_r1
  ∧ State.rooms (step env2 st_r1 (Disconnect "A")).1 !! "r1"
    = Some (assign_owner "B" (without "A" room_r1))
  ∧ Room.created (assign_owner "B" (without "A" room_r1)) = Room.created room_r1
  ∧ Room.settings (assign_owner "B" (without "A" room_r1))
    = Room.settings room_r1
  ∧ ((∀ sid now nodes edges,
        Disconnect "A" ≠ Message sid now (UpdateDiagram nodes edges)) →
     Room.nodes (assign_owner "B" (without "A" room_r1)) = Room.nodes room_r1
     ∧ Room.edges (assign_owner "B" (without "A" room_r1))
       = Room.edges room_r1).
Proof.
  assert (H1 : State.rooms st_r1 !! "r1" = Some room_r1)
    by (vm_compute; reflexivity).
  assert (H2 : State.rooms (step env2 st_r1 (Disconnect "A")).1 !! "r1"
               = Some (assign_owner "B" (without "A" room_r1)))
    by (vm_compute; reflexivity).
  exact (conj H1 (conj H2
           (step_keeps_room env2 st_r1 (Disconnect "A") "r1" room_r1 _ H1 H2))).
Defined.

(** ** The token endpoint *)

Lemma present_Some v s : present v = Some s ↔ v = Some s ∧ s ≠ "".
Proof.
  unfold present. destruct v as [s'|]; [|split; [discriminate | intros [[=] _]]].
  destruct (truthy s') eqn:Ht.
  - apply truthy_true in Ht. split; [intros [= ->]; auto | intros [[= ->] _]; auto].
  - split; [discriminate|]. intros [[= ->] Hne].
    apply truthy_true in Hne. congruence.
Qed.





(** ** The earlier variant: no check at all *)

(** X24. The [join-room] of the earlier variant turns nobody away: with
    any room id and name (empty ones included) and any number of entries in
    the roster, the entry of the requester is stored, a newcomer making the
    roster one entry longer, and the three events of a join are emitted. *)
Theorem legacy_join_never_rejects now roomId username isOwner socket rooms :
  let '(socket', rooms', out) :=
    Legacy.join_room now roomId username isOwner socket rooms in
  ∃ room,
    rooms' !! roomId = Some room
    ∧ (∃ flag, JsMap.get (Socket.id socket) (Legacy.users room)
               = Some (Legacy.mkUser (Socket.id socket) username now flag
                         true true))
    ∧ (∀ prior, rooms !! roomId = Some prior →
                Socket.id socket ∉ JsMap.keys (Legacy.users prior) →
                JsMap.size (Legacy.users room)
                = S (JsMap.size (Legacy.users prior)))
    ∧ out = [(ToSender (Socket.id socket),
              Legacy.room_state (Legacy.nodes room) (Legacy.edges room)
                (JsMap.values (Legacy.users room))
                (bool_decide (Legacy.owner room = Socket.id socket)));
             (ToOthers roomId (Socket.id socket),
              Legacy.user_joined username (Socket.id socket)
                (JsMap.values (Legacy.users room)));
             (ToRoom roomId,
              Legacy.users_updated (JsMap.values (Legacy.users room)))].
Proof.
  unfold Legacy.join_room. eexists.
  split; [apply lookup_insert_eq|]. simpl.
  split; [eexists; rewrite get_set, decide_True by reflexivity; reflexivity|].
  split; [|reflexivity].
  intros prior -> Hnew. apply size_set_new, Hnew.
Qed.

(** ** The short variant *)

Lemma short_disconnect_cons sid roomId room rest :
  Short.disconnect sid ((roomId, room) :: rest)
  = if JsMap.has sid (Short.users room) then
      if bool_decide (JsMap.size (Short.users (Short.without sid room)) = 0)
      then ((Short.disconnect sid rest).1,
            (ToRoom roomId, Short.user_left sid)
            :: (Short.disconnect sid rest).2)
      else ((roomId, Short.without sid room) :: (Short.disconnect sid rest).1,
            (ToRoom roomId, Short.user_left sid)
            :: (Short.disconnect sid rest).2)
    else ((roomId, room) :: (Short.disconnect sid rest).1,
          (Short.disconnect sid rest).2).
Proof.
  simpl. destruct (Short.disconnect sid rest) as [rest' out].
  destruct (JsMap.has sid (Short.users room)); [|reflexivity].
  destruct (bool_decide _); reflexivity.
Qed.

(** X25. The [disconnect] of the short variant goes through every room of
    the registry.  Afterwards the connection is in no general roster; a room
    in whose general roster it was has lost its entries in both rosters and
    is in the registry only if its general roster is not empty; a room in
    whose general roster it was not is untouched, also when the connection is
    in its video roster.  One [user-left] is sent to each room it was in, in
    the order of the registry. *)
Theorem short_disconnect_everywhere sid rooms :
  let '(rooms', out) := Short.disconnect sid rooms in
  (∀ rid room,
     (rid, room) ∈ rooms' →
     (sid ∉ JsMap.keys (Short.users room))
     ∧ ((rid, room) ∈ rooms
        ∨ ∃ old, (rid, old) ∈ rooms
                 ∧ sid ∈ JsMap.keys (Short.users old)
                 ∧ room = Short.without sid old
                 ∧ JsMap.size (Short.users room) ≠ 0))
  ∧ (∀ rid old,
       (rid, old) ∈ rooms → sid ∉ JsMap.keys (Short.users old) →
       (rid, old) ∈ rooms')
  ∧ out
    = (λ kv, (ToRoom kv.1, Short.user_left sid))
      <$> filter (λ kv, sid ∈ JsMap.keys (Short.users kv.2)) rooms.
Proof.
  induction rooms as [|[roomId room] rest IH].
  { simpl. split; [|split; [|reflexivity]]; intros ? ? H;
      apply elem_of_nil in H; contradiction. }
  assert (Heq : Short.disconnect sid rest
                = ((Short.disconnect sid rest).1, (Short.disconnect sid rest).2))
    by (destruct (Short.disconnect sid rest); reflexivity).
  rewrite Heq in IH. destruct IH as (IH1 & IH2 & IH3).
  rewrite short_disconnect_cons, filter_cons. simpl.
  destruct (JsMap.has sid (Short.users room)) eqn:Hhas.
  - apply has_true in Hhas. rewrite decide_True by exact Hhas.
    case_bool_decide as Hempty.
    + split; [|split].
      * intros rid r Hin. destruct (IH1 rid r Hin) as [Hout Hfrom].
        split; [exact Hout|].
        destruct Hfrom as [Hfrom | (old & Hold & Hrest)];
          [left | right; exists old; split; [|exact Hrest]];
          apply elem_of_cons; auto.
      * intros rid old [[= -> ->]|Hin]%elem_of_cons Hnot;
          [contradiction | apply IH2; assumption].
      * simpl. rewrite IH3. reflexivity.
    + split; [|split].
      * intros rid r [[= -> ->]|Hin]%elem_of_cons.
        -- split; [simpl; rewrite elem_of_keys_delete; tauto|].
           right. exists room. split; [apply elem_of_cons; auto|]. auto.
        -- destruct (IH1 rid r Hin) as [Hout Hfrom]. split; [exact Hout|].
           destruct Hfrom as [Hfrom | (old & Hold & Hrest)];
             [left | right; exists old; split; [|exact Hrest]];
             apply elem_of_cons; auto.
      * intros rid old [[= -> ->]|Hin]%elem_of_cons Hnot;
          [contradiction|]. apply elem_of_cons. right. apply IH2; assumption.
      * simpl. rewrite IH3. reflexivity.
  - assert (Hnot : sid ∉ JsMap.keys (Short.users room)).
    { intros Hin%has_true. congruence. }
    rewrite decide_False by exact Hnot. split; [|split].
    + intros rid r [[= -> ->]|Hin]%elem_of_cons.
      * split; [exact Hnot|]. left. apply elem_of_cons. auto.
      * destruct (IH1 rid r Hin) as [Hout Hfrom]. split; [exact Hout|].
        destruct Hfrom as [Hfrom | (old & Hold & Hrest)];
          [left | right; exists old; split; [|exact Hrest]];
          apply elem_of_cons; auto.
    + intros rid old [[= -> ->]|Hin]%elem_of_cons Hn; apply elem_of_cons;
        [left; reflexivity | right; apply IH2; assumption].
    + exact IH3.
Qed.

(** On the sample registry A leaves "r1" (deleted) and "r2"; "r3", where A
    is in the video roster only, is as it was. *)
Example short_disconnect_sample :
  Short.disconnect "A" short_rooms
  = ([("r2", Short.mkRoom [("B", Short.mkClientUser "u2" "bob")] [] "u1" 2);
      ("r3", Short.mkRoom [("B", Short.mkClientUser "u2" "bob")]
               [("A", Short.mkClientUser "u1" "alice")] "u2" 3)],
     [(ToRoom "r1", Short.user_left "A"); (ToRoom "r2", Short.user_left "A")]).
Proof. vm_compute. reflexivity. Qed.

(** X26. The [leave-room] of the short variant acts on the room named in
    its payload.  A room id that is not in the registry is ignored: no
    change, no event.  Otherwise the connection is taken out of both rosters
    of the room (a connection that was in neither changes nothing in them)
    and out of its transport room, the room is deleted exactly when its
    general roster is empty afterwards, and one [user-left] is sent to the
    transport room, which the leaver, no longer in it, does not receive. *)
Theorem short_leave_room roomId socket rooms :
  let '(socket', rooms', out) := Short.leave_room roomId socket rooms in
  (JsMap.get roomId rooms = None →
   socket' = socket ∧ rooms' = rooms ∧ out = [])
  ∧ (∀ room,
       JsMap.get roomId rooms = Some room →
       socket' = Socket.leave roomId socket
       ∧ (roomId ∉ Socket.rooms socket')
       ∧ out = [(ToRoom roomId, Short.user_left (Socket.id socket))]
       ∧ (JsMap.size (JsMap.delete (Socket.id socket) (Short.users room)) = 0 →
          JsMap.get roomId rooms' = None)
       ∧ (JsMap.size (JsMap.delete (Socket.id socket) (Short.users room)) ≠ 0 →
          JsMap.get roomId rooms'
          = Some (Short.without (Socket.id socket) room))
       ∧ (∀ rid, rid ≠ roomId → JsMap.get rid rooms' = JsMap.get rid rooms)).
Proof.
  unfold Short.leave_room.
  destruct (JsMap.get roomId rooms) as [room|] eqn:Hroom.
  - case_bool_decide as Hempty; simpl in Hempty.
    + split; [discriminate|]. intros ? [= <-].
      split; [reflexivity|].
      split; [simpl; rewrite elem_of_difference, elem_of_singleton; tauto|].
      split; [reflexivity|].
      split; [intros _; rewrite get_delete, decide_True by reflexivity;
              reflexivity|].
      split; [intros H; contradiction|].
      intros rid Hne. rewrite get_delete, decide_False by exact Hne.
      reflexivity.
    + split; [discriminate|]. intros ? [= <-].
      split; [reflexivity|].
      split; [simpl; rewrite elem_of_difference, elem_of_singleton; tauto|].
      split; [reflexivity|].
      split; [intros H; contradiction|].
      split; [intros _; rewrite get_set, decide_True by reflexivity;
              reflexivity|].
      intros rid Hne. rewrite get_set, decide_False by exact Hne. reflexivity.
  - split; [auto | discriminate].
Qed.

Lemma short_leave_room_witness :
  JsMap.get "r1" short_rooms
  = Some (Short.mkRoom [("A", Short.mkClientUser "u1" "alice")] [] "u1" 1)
  ∧ JsMap.size
      (JsMap.delete (Socket.id socket_A)
         [("A", Short.mkClientUser "u1" "alice")]) = 0
  ∧ JsMap.get "r1" (Short.leave_room "r1" socket_A short_rooms).1.2 = None
  ∧ JsMap.get "zz" short_rooms = None
  ∧ Short.leave_room "zz" socket_A short_rooms = (socket_A, short_rooms, []).
Proof.
  assert (H1 : JsMap.get "r1" short_rooms
               = Some (Short.mkRoom [("A", Short.mkClientUser "u1" "alice")]
                         [] "u1" 1)) by reflexivity.
  assert (H2 : JsMap.size
                 (JsMap.delete (Socket.id socket_A)
                    [("A", Short.mkClientUser "u1" "alice")]) = 0)
    by reflexivity.
  assert (H3 : JsMap.get "zz" short_rooms = None) by reflexivity.
  pose proof (short_leave_room "r1" socket_A short_rooms) as Ha.
  pose proof (short_leave_room "zz" socket_A short_rooms) as Hb.
  destruct (Short.leave_room "r1" socket_A short_rooms) as [[sa ra] oa].
  destruct (Short.leave_room "zz" socket_A short_rooms) as [[sb rb] ob].
  destruct Ha as [_ Ha]. destruct (Ha _ H1) as (_ & _ & _ & Hgone & _).
  destruct Hb as [Hb _]. destruct (Hb H3) as (-> & -> & ->).
  exact (conj H1 (conj H2 (conj (Hgone H2) (conj H3 eq_refl)))).
Defined.

(** A is in the video roster of "r3" and not in its general roster: "r3" is
    in the registry, unchanged, after the disconnect of A. *)
Lemma short_disconnect_everywhere_witness :
  ("r3", Short.mkRoom [("B", Short.mkClientUser "u2" "bob")]
           [("A", Short.mkClientUser "u1" "alice")] "u2" 3) ∈ short_rooms
  ∧ ("A" ∉ JsMap.keys [("B", Short.mkClientUser "u2" "bob")])
  ∧ ("r3", Short.mkRoom [("B", Short.mkClientUser "u2" "bob")]
             [("A", Short.mkClientUser "u1" "alice")] "u2" 3)
    ∈ (Short.disconnect "A" short_rooms).1.
Proof.
  assert (H1 : ("r3", Short.mkRoom [("B", Short.mkClientUser "u2" "bob")]
                        [("A", Short.mkClientUser "u1" "alice")] "u2" 3)
               ∈ short_rooms).
  { unfold short_rooms. rewrite !elem_of_cons. auto. }
  assert (H2 : "A" ∉ JsMap.keys [("B", Short.mkClientUser "u2" "bob")]).
  { intros [H|H]%elem_of_cons; [discriminate | apply elem_of_nil in H; auto]. }
  pose proof (short_disconnect_everywhere "A" short_rooms) as H.
  destruct (Short.disconnect "A" short_rooms) as [rooms' out].
  destruct H as (_ & Hkept & _).
  exact (conj H1 (conj H2 (Hkept _ _ H1 H2))).
Defined.
